(** * BRTrains build script: the fragment aggregation engine of [build.py]

    A shallow embedding of [src/build.py] (the pipeline that gathers the
    [.pnml] fragments under [src/] into one [.nml] compilation unit) and
    the properties its specification states about it.

    Conventions of the embedding.
    - A [pathlib.Path] is the list of its [parts]. The paths of the script
      are relative to the working directory; the file system resolves
      them part by part, [..] included.
    - The file system is a [World]: the working directory, the
      directories and regular files by absolute path, listed in the order
      in which a directory walk meets them, and the size beyond which
      the system lets no file grow. The working directory and the
      directories above it exist. There are no symbolic links and every
      entry may be read and written.
    - A Python exception is a value of [exn]; a function that can raise
      returns a [result].
    - [dict] and [set] objects that are only looked up are [gmap] and
      [gset]; the two [OrderedDict]s that are iterated keep their order.
    - Of the log only the WARNING records are kept. *)

From Stdlib Require Import Ascii.
From Stdlib Require String.
From stdpp Require Import base list strings gmap sorting.

(** ** Strings and paths *)

Definition Path : Type := list string.

Definition nl : string := String (ascii_of_nat 10) "".

(** The double quote character, for the messages that contain one. *)
Definition dq : string := String (ascii_of_nat 34) "".

(** [str.rfind(c)]: index of the last occurrence. *)
Fixpoint rfind (c : ascii) (s : string) : option nat :=
  match s with
  | EmptyString => None
  | String a s' =>
      match rfind c s' with
      | Some i => Some (S i)
      | None => if Ascii.eqb a c then Some 0 else None
      end
  end.

(** [PurePath.name]: the last part. *)
Definition name (p : Path) : string := List.last p "".

(** [PurePath.suffix] and [PurePath.stem] of a name: the name is cut at
    its last dot unless that dot is the first or the last character. *)
Definition suffix_of (n : string) : string :=
  match rfind "." n with
  | Some i =>
      if (0 <? i) && (i <? String.length n - 1)
      then String.substring i (String.length n - i) n
      else ""
  | None => ""
  end.

Definition stem_of (n : string) : string :=
  match rfind "." n with
  | Some i =>
      if (0 <? i) && (i <? String.length n - 1)
      then String.substring 0 i n
      else n
  | None => n
  end.

Definition stem (p : Path) : string := stem_of (name p).
Definition suffix (p : Path) : string := suffix_of (name p).

(** [sub in s] on strings. *)
Fixpoint contains (sub s : string) : bool :=
  String.prefix sub s ||
  match s with
  | EmptyString => false
  | String _ s' => contains sub s'
  end.

(** [s.rsplit("_")[0]]: without a split limit every underscore splits, so
    the first piece is the text before the first underscore. *)
Fixpoint rsplit_0 (s : string) : string :=
  match s with
  | EmptyString => ""
  | String c s' => if Ascii.eqb c "_" then "" else String c (rsplit_0 s')
  end.

Definition ends_with (suf s : string) : bool :=
  (String.length suf <=? String.length s) &&
  String.eqb
    (String.substring (String.length s - String.length suf) (String.length suf) s)
    suf.

(** Glob matching of one path component, for the two shapes of pattern the
    script uses: ["*.pnml"] and a literal file name. *)
Definition fnmatch (pat n : string) : bool :=
  match pat with
  | String "*" rest => ends_with rest n
  | _ => String.eqb pat n
  end.

(** [str(path)] on a POSIX system. *)
Definition path_str (p : Path) : string := String.concat "/" p.

(** The text between the slashes of a path string. *)
Fixpoint segments (s : string) : list string :=
  match s with
  | EmptyString => [""]
  | String c s' =>
      if Ascii.eqb c "/" then "" :: segments s'
      else match segments s' with
           | seg :: rest => String c seg :: rest
           | [] => [String c ""]
           end
  end.

(** [Path(s).parts] for a relative path string: pathlib drops the empty
    segments and the segments [.], and keeps [..]. *)
Definition parts (s : string) : Path :=
  filter (fun c => c <> "" /\ c <> ".") (segments s).

(** ** Ordering of paths

    [sorted] compares [Path] objects, and pathlib compares them part by
    part, each part as a string (by code point). *)

Fixpoint path_leb (p q : Path) : bool :=
  match p, q with
  | [], _ => true
  | _ :: _, [] => false
  | a :: p', b :: q' =>
      if String.eqb a b then path_leb p' q' else String.leb a b
  end.

Definition path_le (p q : Path) : Prop := path_leb p q = true.

#[global] Instance path_le_dec : RelDecision path_le.
Proof. intros p q. unfold path_le. apply _. Defined.

(** [sorted(file_list)]: Python's sort is stable, and so is merge sort; on
    a total order without distinct equal elements the result is the same
    list. *)
Definition sorted (l : list Path) : list Path := merge_sort path_le l.

(** ** Exceptions *)

(** The error codes with which [open] and [write] fail. *)
Inductive errno : Type :=
  | ENOENT    (* a directory of the path is missing: [FileNotFoundError] *)
  | ENOTDIR   (* a part of the path is a regular file: [NotADirectoryError] *)
  | EISDIR    (* the path is a directory: [IsADirectoryError] *)
  | EFBIG.    (* the file cannot grow further: [OSError] *)

Inductive exn : Type :=
  (** [FileNotFoundError(msg)] as the script raises it. *)
  | FileNotFoundError (msg : string)
  (** [RuntimeError(f"Multiple files named '{filename}' found: {matches}")]:
      the two values the message is formatted from. *)
  | RuntimeError (filename : string) (matches : list Path)
  (** [OSError] and its subclasses as the operating system raises them,
      with the error code and the path given to [open]. *)
  | OSError (code : errno) (filename : Path).

Inductive result (A : Type) : Type :=
  | Ok (a : A)
  | Err (e : exn).
Arguments Ok {A} a.
Arguments Err {A} e.

Definition bind {A B} (r : result A) (k : A -> result B) : result B :=
  match r with
  | Ok a => k a
  | Err e => Err e
  end.

Notation "x <- r ;; k" := (bind r (fun x => k))
  (at level 100, r at next level, right associativity,
   format "'[v' x  <-  r  ;;  '/' k ']'").

(** ** The file system *)

Inductive Node : Type :=
  | Dir
  | File (text : string).

#[global] Instance Node_eq_dec : EqDecision Node.
Proof. solve_decision. Defined.

Record World : Type := mkWorld {
  cwd : Path;                  (* the working directory, from the root *)
  tree : list (Path * Node);   (* directories and files from the root, in walk order *)
  file_limit : option nat      (* the size no file may exceed, if there is one *)
}.

Fixpoint read_fs {A} (fs : list (Path * A)) (p : Path) : option A :=
  match fs with
  | [] => None
  | (q, c) :: fs' => if decide (q = p) then Some c else read_fs fs' p
  end.

Fixpoint write_fs {A} (fs : list (Path * A)) (p : Path) (c : A)
  : list (Path * A) :=
  match fs with
  | [] => [(p, c)]
  | (q, c') :: fs' =>
      if decide (q = p) then (q, c) :: fs' else (q, c') :: write_fs fs' p c
  end.

(** [p] is [q] or lies above it. *)
Definition is_prefix (p q : Path) : bool := bool_decide (take (length p) q = p).

(** What is at an absolute path. *)
Definition node_at (w : World) (q : Path) : option Node :=
  if is_prefix q (cwd w) then Some Dir else read_fs (tree w) q.

(** One part of a path: [..] leads to the parent, and the parent of the
    root is the root. *)
Definition step (cur : Path) (c : string) : Path :=
  if String.eqb c ".." then removelast cur else cur ++ [c].

(** The resolution of a path by the system, part by part from [cur]:
    every part is looked up in a directory. *)
Fixpoint walk (w : World) (cur : Path) (p : Path) : errno + Path :=
  match p with
  | [] => inr cur
  | c :: rest =>
      match node_at w cur with
      | Some Dir => walk w (step cur c) rest
      | Some (File _) => inl ENOTDIR
      | None => inl ENOENT
      end
  end.

(** [os.stat] of a relative path. *)
Definition stat (w : World) (p : Path) : option Node :=
  match walk w (cwd w) p with
  | inr q => node_at w q
  | inl _ => None
  end.

(** [Path.exists()]: a directory or a regular file. *)
Definition exists_ (w : World) (p : Path) : bool :=
  match stat w p with Some _ => true | None => false end.

(** The text of a regular file. *)
Definition read (w : World) (p : Path) : option string :=
  match stat w p with Some (File text) => Some text | _ => None end.

(** [p] lies below directory [d]. *)
Definition under (d p : Path) : bool :=
  (length d <? length p) && bool_decide (take (length d) p = d).

Definition relative_to (d q : Path) : option Path :=
  if is_prefix d q then Some (drop (length d) q) else None.

(** The entries below the working directory, by relative path, in walk
    order. *)
Definition relative_entry (d : Path) (e : Path * Node) : option (Path * Node) :=
  match relative_to d e.1 with
  | Some p => Some (p, e.2)
  | None => None
  end.

Definition entries (w : World) : list (Path * Node) :=
  omap (relative_entry (cwd w)) (tree w).

(** [search_dir.rglob(pattern)]: every entry below [search_dir], file or
    directory, whose name matches. *)
Definition rglob (w : World) (search_dir : Path) (pat : string) : list Path :=
  filter (fun p => under search_dir p && fnmatch pat (name p) = true)
         (entries w).*1.

(** [os.makedirs(d)] for a directory [d] of the working directory that
    does not exist. *)
Definition add_dir (w : World) (d : Path) : World :=
  {| cwd := cwd w; tree := tree w ++ [(cwd w ++ d, Dir)];
     file_limit := file_limit w |}.

Definition set_node (w : World) (q : Path) (n : Node) : World :=
  {| cwd := cwd w; tree := write_fs (tree w) q n; file_limit := file_limit w |}.

(** [open(p, "w")]: the absolute path of the file that is created or
    truncated, or the error. *)
Definition open_w (w : World) (p : Path) : errno + Path :=
  match walk w (cwd w) p with
  | inl e => inl e
  | inr q =>
      match node_at w q with
      | Some Dir => inl EISDIR
      | _ => inr q
      end
  end.

(** What reaches the file when [text] is written to it after [open], and
    whether that is all of it. *)
Definition written (limit : option nat) (text : string) : string * bool :=
  match limit with
  | Some n =>
      if n <? String.length text then (String.substring 0 n text, false)
      else (text, true)
  | None => (text, true)
  end.

(** ** The two tables *)

Definition KeyFiles : list (string * string) :=
  [ ("grf.pnml",
     dq +:+ "grf.pnml" +:+ dq +:+ " not found. It should be in " +:+ dq +:+ "src"
        +:+ dq +:+ " and contain the grf block.");
    ("railtypes.pnml",
     dq +:+ "railtypes.pnml" +:+ dq +:+ " not found. It should be in " +:+ dq
        +:+ "src" +:+ dq +:+ " and contain the railtypetable block.");
    ("sounds.pnml",
     dq +:+ "sounds.pnml" +:+ dq +:+ " not found.  Assuming no sounds are required");
    ("templates_shared.pnml",
     dq +:+ "templates_shared.pnml" +:+ dq
        +:+ " not found.  Assuming no templates are required");
    ("templates_trains.pnml",
     dq +:+ "templates_trains.pnml" +:+ dq
        +:+ " not found.  Assuming no templates are required") ].

Definition SpecialOrderFiles : list (string * list string) :=
  [ ("BR_Mk3_TS.pnml",
     ["BR_Mk3_TSD.pnml"; "BR43.pnml"; "BR253.pnml"; "BR254.pnml"; "BR256.pnml";
      "BR257.pnml"]);
    ("BR_Mk4_Header.pnml",
     ["BR_Mk4_DVT.pnml"; "BR_Mk4_TF.pnml"; "BR_Mk4_TFE.pnml"; "BR_Mk4_TRFB.pnml";
      "BR_Mk4_TRSB.pnml"; "BR_Mk4_TS.pnml"; "BR_Mk4_TSD.pnml"; "BR_Mk4_TSE.pnml";
      "BR91.pnml"; "BR91_IC225.pnml"]);
    ("Containers_BR.pnml", ["BR_Conflat_A.pnml"; "BR_Conflat_P.pnml"]);
    ("RCH_1907_graphics.pnml",
     ["1_Plank_Open_Wagons_Load.pnml"; "3_Plank_Open_Wagons_Load.pnml";
      "5_Plank_Open_Wagons_Load.pnml"; "7_Plank_Open_Wagons_Load.pnml";
      "RCH_1907.pnml"; "RCH_1907_1_plank.pnml"; "RCH_1907_3_plank.pnml";
      "RCH_1907_5_plank.pnml"; "RCH_1907_7_plank.pnml"; "RCH_1907_Van.pnml"]);
    ("60Long_Cont20_Side.pnml",
     ["60Long_Cont30_Side.pnml"; "60Long_Cont40_Side.pnml"; "BR_FFA.pnml";
      "BR_FEA.pnml"]);
    ("LMS_4F.pnml",
     ["MR_Tenders.pnml"; "MR_3835.pnml"; "LMS_Fowler_2P.pnml";
      "LMS_Fowler_4P.pnml"]);
    ("Evol_Header.pnml", ["Evol_B.pnml"; "Evol_F.pnml"; "Evol_T.pnml"]) ].

(** [name in KeyFiles] / [name in KeyFiles.keys()]. *)
Definition in_KeyFiles (n : string) : bool := bool_decide (n ∈ KeyFiles.*1).

(** [SpecialOrderFiles.get(name)]. *)
Fixpoint dict_get {V} (d : list (string * V)) (k : string) : option V :=
  match d with
  | [] => None
  | (k', v) :: d' => if String.eqb k' k then Some v else dict_get d' k
  end.

(** ** [check_project_structure]

    Returns the WARNING records logged so far together with the value or
    the exception. *)

Fixpoint check_key_files (w : World) (src_directory : Path)
    (items : list (string * string)) (log : list string)
  : list string * result unit :=
  match items with
  | [] => (log, Ok ())
  | (file, error) :: rest =>
      if negb (exists_ w (src_directory ++ [file])) then
        if String.eqb file "grf.pnml" || String.eqb file "railtypes.pnml"
        then (log, Err (FileNotFoundError error))
        else check_key_files w src_directory rest (log ++ [error])
      else check_key_files w src_directory rest log
  end.

Definition check_project_structure (w : World)
    (src_directory gfx_directory lang_directory : Path)
  : list string * result bool :=
  if negb (exists_ w src_directory) then
    ([], Err (FileNotFoundError
                (dq +:+ "src" +:+ dq +:+ " directory not found.  Aborting")))
  else if negb (exists_ w gfx_directory) then
    ([], Err (FileNotFoundError
                (dq +:+ "gfx" +:+ dq +:+ " directory not found.  Aborting")))
  else
    let '(log, has_lang_dir) :=
      if negb (exists_ w lang_directory)
      then ([dq +:+ "lang" +:+ dq +:+
             " directory not found.  Assuming hard-coded strings (this is not best practice)"],
            false)
      else ([], true) in
    match check_key_files w src_directory KeyFiles log with
    | (log', Ok _) => (log', Ok has_lang_dir)
    | (log', Err e) => (log', Err e)
    end.

(** ** [find_special_file], [copy_file], [write_file] *)

Definition find_special_file (w : World) (filename : string) (search_dir : Path)
  : result Path :=
  match rglob w search_dir filename with
  | [] => Err (FileNotFoundError ("No file named '" +:+ filename +:+ "' found"))
  | [m] => Ok m
  | ms => Err (RuntimeError filename ms)
  end.

Definition copy_file (w : World) (filepath : Path) (nml_file : string)
  : result string :=
  if negb (exists_ w filepath) then
    Err (FileNotFoundError
           ("The file <" +:+ path_str filepath +:+ "> does not exist."))
  else
    match read w filepath with
    | Some text =>
        Ok (nml_file +:+ "// " +:+ stem filepath +:+ suffix filepath +:+ nl
                     +:+ text +:+ nl +:+ nl)
    | None => Err (OSError EISDIR filepath)
    end.

(** [Path("build/" + filename + ".nml")]. *)
Definition artifact (filename : string) : Path :=
  parts ("build/" +:+ filename +:+ ".nml").

(** Returns the file system it leaves together with the value or the
    exception: [build] is made before the file is opened, and the file is
    opened, which empties it, before the text is written. *)
Definition write_file (filename : string) (nml_file : string) (w : World)
  : World * result unit :=
  let filepath := artifact filename in
  let build_dir := parts "build/" in
  let w := if negb (exists_ w build_dir) then add_dir w ["build"] else w in
  match open_w w filepath with
  | inl e => (w, Err (OSError e filepath))
  | inr q =>
      let '(text, complete) := written (file_limit w) nml_file in
      (set_node w q (File text),
       if complete then Ok () else Err (OSError EFBIG filepath))
  end.

(** ** [main]: the scan (lines 242-285)

    [file_list] only feeds the DEBUG listing and is left out. *)

(** [pnml_files]: an [OrderedDict] with the four keys
    ["Top level"], ["Priority"], ["Normal"], ["Append"], in this order. *)
Record Tiers : Type := mkTiers {
  Top_level : list Path;
  Priority : list Path;
  Normal : list Path;
  Append : list Path
}.

Definition items (t : Tiers) : list (string * list Path) :=
  [ ("Top level", Top_level t); ("Priority", Priority t);
    ("Normal", Normal t); ("Append", Append t) ].

Record ScanState : Type := mkScan {
  pnml_files : Tiers;
  tender_files : gmap string Path;
  special_files : gmap string (list Path);
  in_chain : gset string
}.

Definition scan_init : ScanState :=
  {| pnml_files := mkTiers [] [] [] [];
     tender_files := ∅; special_files := ∅; in_chain := ∅ |}.

(** [file.stem + file.suffix], e.g. BR43.pnml *)
Definition file_name (file : Path) : string := stem file +:+ suffix file.

(** Lines 265-267: every follower is marked in-chain and looked up. The
    table holds lists only, so the [str] branch never runs. *)
Fixpoint resolve_chain (w : World) (src_directory : Path) (chain : list string)
    (ic : gset string) (file_chain : list Path)
  : result (gset string * list Path) :=
  match chain with
  | [] => Ok (ic, file_chain)
  | cf :: rest =>
      let ic := ic ∪ {[ cf ]} in
      f <- find_special_file w cf src_directory ;;
      resolve_chain w src_directory rest ic (file_chain ++ [f])
  end.

(** Lines 258-271. [chain is None] cannot hold after the membership test. *)
Definition scan_chain (w : World) (src_directory : Path) (st : ScanState)
    (file : Path) : result ScanState :=
  match dict_get SpecialOrderFiles (file_name file) with
  | Some chain =>
      if bool_decide (file_name file ∈ in_chain st) then Ok st
      else
        r <- resolve_chain w src_directory chain (in_chain st) [] ;;
        Ok {| pnml_files := pnml_files st;
              tender_files := tender_files st;
              special_files := <[ file_name file := r.2 ]> (special_files st);
              in_chain := r.1 |}
  | None => Ok st
  end.

Definition add_tier (upd : Tiers -> Tiers) (st : ScanState) : ScanState :=
  {| pnml_files := upd (pnml_files st);
     tender_files := tender_files st;
     special_files := special_files st;
     in_chain := in_chain st |}.

(** Lines 273-285. *)
Definition scan_place (src_directory : Path) (st : ScanState) (file : Path)
  : ScanState :=
  let relative_path := drop (length src_directory) file in
  if length relative_path =? 1 then
    if negb (in_KeyFiles (file_name file))
    then add_tier (fun t => mkTiers (Top_level t ++ [file]) (Priority t)
                                    (Normal t) (Append t)) st
    else st
  else if bool_decide ("priority" ∈ relative_path) then
    add_tier (fun t => mkTiers (Top_level t) (Priority t ++ [file])
                               (Normal t) (Append t)) st
  else if bool_decide ("append" ∈ relative_path) then
    add_tier (fun t => mkTiers (Top_level t) (Priority t)
                               (Normal t) (Append t ++ [file])) st
  else if contains "Tenders" (stem file) then
    {| pnml_files := pnml_files st;
       tender_files := <[ rsplit_0 (stem file) := file ]> (tender_files st);
       special_files := special_files st;
       in_chain := in_chain st |}
  else if negb (in_KeyFiles (file_name file))
          && negb (bool_decide (file_name file ∈ in_chain st)) then
    add_tier (fun t => mkTiers (Top_level t) (Priority t)
                               (Normal t ++ [file]) (Append t)) st
  else st.

Definition scan_file (w : World) (src_directory : Path) (st : ScanState)
    (file : Path) : result ScanState :=
  st' <- scan_chain w src_directory st file ;;
  Ok (scan_place src_directory st' file).

Fixpoint scan (w : World) (src_directory : Path) (fl : list Path)
    (st : ScanState) : result ScanState :=
  match fl with
  | [] => Ok st
  | file :: rest =>
      st' <- scan_file w src_directory st file ;;
      scan w src_directory rest st'
  end.

(** ** [main]: the aggregation (lines 237-239 and 296-320) *)

(** Lines 238-239. *)
Fixpoint copy_key_files (w : World) (src_directory : Path)
    (keys : list string) (nml_file : string) : result string :=
  match keys with
  | [] => Ok nml_file
  | k :: rest =>
      nml_file <- copy_file w (src_directory ++ [k]) nml_file ;;
      copy_key_files w src_directory rest nml_file
  end.

(** Lines 318-320. *)
Fixpoint copy_chain (w : World) (chain : list Path) (nml_file : string)
  : result string :=
  match chain with
  | [] => Ok nml_file
  | chain_file :: rest =>
      nml_file <- copy_file w chain_file nml_file ;;
      copy_chain w rest nml_file
  end.

(** The state of the aggregation loops: the companions still pending and
    the text accumulated so far. *)
Definition AggState : Type := gmap string Path * string.

(** Lines 300-320: one iteration of the inner loop. *)
Definition emit_file (w : World) (sc : ScanState) (st : AggState) (file : Path)
  : result AggState :=
  if bool_decide (file_name file ∈ in_chain sc) then Ok st
  else
    st <- (if bool_decide ("Locomotive_Steam" ∈ file) then
             let engine_company_name := rsplit_0 (stem file) in
             match st.1 !! engine_company_name with
             | Some tender_file =>
                 nml_file <- copy_file w tender_file st.2 ;;
                 Ok (delete engine_company_name st.1, nml_file)
             | None => Ok st
             end
           else Ok st) ;;
    nml_file <- copy_file w file st.2 ;;
    nml_file <- (if bool_decide (file_name file ∈ SpecialOrderFiles.*1) then
                   match special_files sc !! file_name file with
                   | Some chain => copy_chain w chain nml_file
                   | None => Ok nml_file
                   end
                 else Ok nml_file) ;;
    Ok (st.1, nml_file).

Fixpoint emit_files (w : World) (sc : ScanState) (fl : list Path)
    (st : AggState) : result AggState :=
  match fl with
  | [] => Ok st
  | file :: rest =>
      st <- emit_file w sc st file ;;
      emit_files w sc rest st
  end.

(** Lines 296-299: the outer loop over [pnml_files.items()]. *)
Fixpoint emit_tiers (w : World) (sc : ScanState)
    (tiers : list (string * list Path)) (st : AggState) : result AggState :=
  match tiers with
  | [] => Ok st
  | (key, file_list) :: rest =>
      st <- emit_files w sc (sorted file_list) st ;;
      emit_tiers w sc rest st
  end.

(** ** [main] (lines 223-325)

    The collaborators called after [write_file] (the external compiler and
    the game launcher, lines 327-334) are outside the embedding: with
    neither [b_compile_grf] nor [b_run_game] set, [main] ends where the
    embedding ends. *)

Record Args : Type := mkArgs {
  grf_name : string;
  src_dir : string;
  lang_dir : string;
  gfx_dir : string;
  b_compile_grf : bool;
  b_run_game : bool
}.

Record Run : Type := mkRun {
  logged : list string;     (* WARNING records *)
  outcome : result unit;
  world : World
}.

(** Lines 237-322: the internal buffer [nml_file]. *)
Definition assemble (w : World) (src_directory : Path) : result string :=
  nml_file <- copy_key_files w src_directory KeyFiles.*1 "" ;;
  sc <- scan w src_directory (rglob w src_directory "*.pnml") scan_init ;;
  st <- emit_tiers w sc (items (pnml_files sc)) (tender_files sc, nml_file) ;;
  Ok st.2.

Definition main (a : Args) (w : World) : Run :=
  let src_directory := ["src"] in
  let lang_directory := ["lang"] in
  let gfx_directory := ["gfx"] in
  match check_project_structure w src_directory gfx_directory lang_directory with
  | (log, Err e) => mkRun log (Err e) w
  | (log, Ok has_lang_dir) =>
      match assemble w src_directory with
      | Err e => mkRun log (Err e) w
      | Ok nml_file =>
          let '(w', r) := write_file (grf_name a) nml_file w in
          mkRun log r w'
      end
  end.

(** ** [run_game]: the prompt for the newgrf directory (lines 177-184)

    The loop asks until the directory it holds exists. The answers of the
    user are a list, and without an answer left the loop waits for ever.
    Only the loop is embedded; the rest of [run_game] starts processes. *)

(** [s[-n:]]. *)
Definition slice_last (n : nat) (s : string) : string :=
  String.substring (String.length s - n) n s.

(** Lines 180-184: what the loop keeps of one answer. *)
Definition newgrf_answer (answer : string) : string :=
  if 6 <? String.length answer then "~/.openttd/newgrf"
  else if negb (String.eqb (slice_last 6 answer) "newgrf") then "~/.openttd/newgrf"
  else answer.

Fixpoint prompt_newgrf_dir (path_exists : string -> bool) (answers : list string)
    (newgrf_dir : string) {struct answers} : option (string * list string) :=
  if path_exists newgrf_dir then Some (newgrf_dir, answers)
  else
    match answers with
    | [] => None
    | answer :: rest => prompt_newgrf_dir path_exists rest (newgrf_answer answer)
    end.

(** * Reading the output

    The definitions of this part are not in the script: they name what its
    loops produce, so that the properties can be stated. Each is tied to
    the embedding by a lemma below. *)

(** The text [copy_file] appends for a file. *)
Definition block (w : World) (p : Path) : string :=
  "// " +:+ name p +:+ nl +:+ default "" (read w p) +:+ nl +:+ nl.

Definition render (w : World) (ps : list Path) : string :=
  foldr (fun p acc => block w p +:+ acc) "" ps.

(** The paths of the Required Fragment Set, in declared order. *)
Definition key_paths (src_directory : Path) : list Path :=
  (fun k => src_directory ++ [k]) <$> KeyFiles.*1.

Definition is_trigger (n : string) : bool :=
  match dict_get SpecialOrderFiles n with Some _ => true | None => false end.

Definition all_followers : list string := concat SpecialOrderFiles.*2.

(** The steam-locomotive path context and the prefix key of a stem. *)
Definition steam (file : Path) : bool := bool_decide ("Locomotive_Steam" ∈ file).
Definition company (file : Path) : string := rsplit_0 (stem file).

(** What one iteration of the inner loop emits: the fragment itself,
    the companion spliced in before it, the chain spliced in after it. *)
Record Group : Type := mkGroup {
  companion : option Path;
  primary : Path;
  chained : list Path
}.

#[global] Instance Group_eq_dec : EqDecision Group.
Proof. solve_decision. Defined.

Definition blocks_of (g : Group) : list Path :=
  match companion g with Some c => [c] | None => [] end
  ++ primary g :: chained g.

Definition group_of (sc : ScanState) (pending : gmap string Path) (file : Path)
  : Group :=
  {| companion := if steam file then pending !! company file else None;
     primary := file;
     chained := if is_trigger (name file)
                then default [] (special_files sc !! name file) else [] |}.

Definition pending_after (pending : gmap string Path) (file : Path)
  : gmap string Path :=
  if steam file then delete (company file) pending else pending.

(** The groups emitted for the files [fl] visited in this order, and the
    companions pending afterwards. *)
Fixpoint plan (sc : ScanState) (fl : list Path) (pending : gmap string Path)
  : list Group :=
  match fl with
  | [] => []
  | file :: rest =>
      if bool_decide (name file ∈ in_chain sc) then plan sc rest pending
      else group_of sc pending file :: plan sc rest (pending_after pending file)
  end.

Fixpoint pending_end (sc : ScanState) (fl : list Path)
    (pending : gmap string Path) : gmap string Path :=
  match fl with
  | [] => pending
  | file :: rest =>
      if bool_decide (name file ∈ in_chain sc) then pending_end sc rest pending
      else pending_end sc rest (pending_after pending file)
  end.

(** The order in which the two loops visit the tiered files. *)
Definition visit_order (sc : ScanState) : list Path :=
  sorted (Top_level (pnml_files sc)) ++ sorted (Priority (pnml_files sc))
  ++ sorted (Normal (pnml_files sc)) ++ sorted (Append (pnml_files sc)).

Definition groups (sc : ScanState) : list Group :=
  plan sc (visit_order sc) (tender_files sc).

(** Every file copied to the buffer, in order. *)
Definition emission (src_directory : Path) (sc : ScanState) : list Path :=
  key_paths src_directory ++ flat_map blocks_of (groups sc).

(** The scan [main] runs. *)
Definition scanned (w : World) : result ScanState :=
  scan w ["src"] (rglob w ["src"] "*.pnml") scan_init.

(** The branch of lines 274-285 a file falls in, as far as its path
    decides it. *)
Inductive Class : Type := CTop | CPriority | CAppend | CTender | COther.

#[global] Instance Class_eq_dec : EqDecision Class.
Proof. solve_decision. Defined.

Definition classify (src_directory : Path) (file : Path) : Class :=
  let relative_path := drop (length src_directory) file in
  if length relative_path =? 1 then CTop
  else if bool_decide ("priority" ∈ relative_path) then CPriority
  else if bool_decide ("append" ∈ relative_path) then CAppend
  else if contains "Tenders" (stem file) then CTender
  else COther.

(** Looking up every follower of a chain, in declared order. *)
Fixpoint resolved (w : World) (src_directory : Path) (chain : list string)
  : result (list Path) :=
  match chain with
  | [] => Ok []
  | cf :: rest =>
      f <- find_special_file w cf src_directory ;;
      l <- resolved w src_directory rest ;;
      Ok (f :: l)
  end.

(** The resolved chain of a trigger name, when every follower resolves. *)
Definition chain_files (w : World) (src_directory : Path) (n : string)
  : option (list Path) :=
  match dict_get SpecialOrderFiles n with
  | Some chain =>
      match resolved w src_directory chain with
      | Ok l => Some l
      | Err _ => None
      end
  | None => None
  end.

(** A pattern without the wildcard of [fnmatch]. *)
Definition literal (pat : string) : bool :=
  match pat with String "*" _ => false | _ => true end.

(** The follower names a file marks in-chain when it is scanned. *)
Definition chain_of (file : Path) : list string :=
  default [] (dict_get SpecialOrderFiles (name file)).

Definition marked (fl : list Path) : gset string :=
  list_to_set (flat_map chain_of fl).

(** What scanning one file does to the state when its chain resolves. *)
Definition scan_mark (w : World) (src_directory : Path) (st : ScanState)
    (file : Path) : ScanState :=
  match dict_get SpecialOrderFiles (name file) with
  | Some chain =>
      {| pnml_files := pnml_files st;
         tender_files := tender_files st;
         special_files :=
           <[ name file := default [] (chain_files w src_directory (name file)) ]>
             (special_files st);
         in_chain := in_chain st ∪ list_to_set chain |}
  | None => st
  end.

Definition scan_step (w : World) (src_directory : Path) (st : ScanState)
    (file : Path) : ScanState :=
  scan_place src_directory (scan_mark w src_directory st file) file.

(** The files of [fl] of one class that no trigger of the tree marks. *)
Definition unmarked (ic : gset string) (Q : Path -> Prop)
    `{!forall f, Decision (Q f)} (fl : list Path) : list Path :=
  filter (fun f => (name f ∉ ic) /\ Q f) fl.

(** Every trigger among [fl] has a chain that resolves. *)
Definition resolvable (w : World) (src_directory : Path) (fl : list Path) : Prop :=
  forall f, f ∈ fl -> is_trigger (name f) = true ->
            is_Some (chain_files w src_directory (name f)).

(** No trigger name is marked in-chain. *)
Definition triggers_unmarked (ic : gset string) : Prop :=
  forall n, is_trigger n = true -> n ∉ ic.

(** The warning of line 40. *)
Definition lang_warning : string :=
  dq +:+ "lang" +:+ dq +:+
  " directory not found.  Assuming hard-coded strings (this is not best practice)".

(** The warnings logged before the required files are looked at. *)
Definition lang_warnings (w : World) (lang_directory : Path) : list string :=
  if exists_ w lang_directory then [] else [lang_warning].

(** The first file of a list that cannot be read. *)
Fixpoint first_missing (w : World) (l : list Path) : option Path :=
  match l with
  | [] => None
  | p :: rest =>
      match read w p with
      | None => Some p
      | Some _ => first_missing w rest
      end
  end.

(** The exception [copy_file] raises for a path that does not exist, and
    for any path it cannot read: what exists and has no text is a
    directory. *)
Definition missing_file (p : Path) : exn :=
  FileNotFoundError ("The file <" +:+ path_str p +:+ "> does not exist.").

Definition copy_error (w : World) (p : Path) : exn :=
  if exists_ w p then OSError EISDIR p else missing_file p.

(** The patterns the scan searches with: the extension of the fragments
    and the follower names of the chain table. *)
Definition scan_pattern (pat : string) : Prop :=
  pat = "*.pnml" \/ pat ∈ all_followers.

(** The file system [write_file] opens the artifact in. *)
Definition with_build (w : World) : World :=
  if negb (exists_ w ["build"]) then add_dir w ["build"] else w.


(** A tree as a file system has it: no path twice, no part named [..],
    and every entry in a directory. *)
Definition well_formed (w : World) : Prop :=
  NoDup (tree w).*1
  /\ Forall (fun e => (".." ∉ e.1)
                      /\ Forall (fun i => node_at w (take i e.1) = Some Dir)
                                (seq 0 (length e.1)))
            (tree w).

#[global] Instance well_formed_dec w : Decision (well_formed w).
Proof. unfold well_formed. apply _. Defined.

(** The files the Top-level branch and the Normal branch keep. *)
Definition top_file (src : Path) (f : Path) : Prop :=
  classify src f = CTop /\ in_KeyFiles (name f) = false.

Definition normal_file (src : Path) (f : Path) : Prop :=
  classify src f = COther /\ in_KeyFiles (name f) = false.

#[global] Instance top_file_dec src f : Decision (top_file src f).
Proof. unfold top_file. apply _. Defined.

#[global] Instance normal_file_dec src f : Decision (normal_file src f).
Proof. unfold normal_file. apply _. Defined.

(** What two walks must agree on for the buffers to agree. *)
Definition walks_agree (w1 w2 : World) : Prop :=
  (forall p, read w1 p = read w2 p)
  /\ tender_files (foldl (scan_step w1 ["src"]) scan_init
                         (rglob w1 ["src"] "*.pnml"))
     = tender_files (foldl (scan_step w2 ["src"]) scan_init
                           (rglob w2 ["src"] "*.pnml")).

(** Two walks of one tree: the same working directory, the same
    directories and files, met in any order. *)
Definition same_tree (w1 w2 : World) : Prop :=
  cwd w1 = cwd w2 /\ file_limit w1 = file_limit w2 /\ tree w1 ≡ₚ tree w2.

(** A tree as a file system has it, no path twice, in which no two
    companion files share a prefix key. *)
Definition valid_tree (w : World) : Prop :=
  NoDup (tree w).*1
  /\ forall f g, f ∈ rglob w ["src"] "*.pnml" -> g ∈ rglob w ["src"] "*.pnml" ->
       classify ["src"] f = CTender -> classify ["src"] g = CTender ->
       company f = company g -> f = g.

(** [a] directly followed by [b] somewhere in [l]. *)
Fixpoint adjacent_in (a b : Path) (l : list Path) : bool :=
  match l with
  | x :: (y :: _) as t =>
      (bool_decide (x = a) && bool_decide (y = b)) || adjacent_in a b t
  | _ => false
  end.

(** How many blocks of the buffer copy the file [f]. *)
Definition occurrences (f : Path) (l : list Path) : nat :=
  length (filter (fun p => p = f) l).

(** * Example trees *)

Definition required_files : list (Path * string) :=
  [ (["src"; "grf.pnml"], "grf { }");
    (["src"; "railtypes.pnml"], "railtypetable { }");
    (["src"; "sounds.pnml"], "sounds");
    (["src"; "templates_shared.pnml"], "shared");
    (["src"; "templates_trains.pnml"], "trains") ].

Definition default_args : Args := mkArgs "brtrains" "src" "lang" "gfx" false false.

Definition home : Path := ["home"; "dev"; "BRTrains2"].

(** The directories above a path, from the working directory down. *)
Definition parents (p : Path) : list Path :=
  (fun i => take i p) <$> seq 1 (length p - 1).

(** A project in [home]: the directories [dirs], the directories above
    them and above the files, and the files, in this order. *)
Definition project (dirs : list Path) (files : list (Path * string)) : World :=
  {| cwd := home;
     tree := ((fun d => (home ++ d, Dir))
                <$> sorted (remove_dups (dirs ++ flat_map parents (dirs ++ files.*1))))
             ++ ((fun e => (home ++ e.1, File e.2)) <$> files);
     file_limit := None |}.

(** The same project, walked in the opposite order. *)
Definition reversed (w : World) : World :=
  {| cwd := cwd w; tree := reverse (tree w); file_limit := file_limit w |}.

(** The same project under a file size limit. *)
Definition limited (n : nat) (w : World) : World :=
  {| cwd := cwd w; tree := tree w; file_limit := Some n |}.

Definition top_dirs : list Path := [["src"]; ["gfx"]; ["lang"]].

(** The five required files and nothing else. *)
Definition complete_tree : World := project top_dirs required_files.

(** Only the two fatal entries of the Required Fragment Set. *)
Definition minimal_tree : World := project top_dirs (take 2 required_files).

(** A complete project kept under [pack/] instead of [src/]. *)
Definition relocated_tree : World :=
  project [["pack"]; ["gfx"]; ["lang"]]
    ((fun '(p, c) => ("pack" :: drop 1 p, c)) <$> required_files).

Definition relocated_args : Args := mkArgs "brtrains" "pack" "lang" "gfx" false false.

(** A file named like a required fragment inside [src/priority/]. *)
Definition shadowed_tree : World :=
  project top_dirs
    (required_files ++ [ (["src"; "priority"; "sounds.pnml"], "other sounds") ]).

(** The Midland chain, its tender file and one more Midland engine. *)
Definition midland_tree : World :=
  project top_dirs
    (required_files ++
     [ (["src"; "Locomotive_Steam"; "LMS_4F.pnml"], "4F");
       (["src"; "Tenders"; "MR_Tenders.pnml"], "tenders");
       (["src"; "Locomotive_Steam"; "MR_3835.pnml"], "3835");
       (["src"; "Locomotive_Steam"; "LMS_Fowler_2P.pnml"], "2P");
       (["src"; "Locomotive_Steam"; "LMS_Fowler_4P.pnml"], "4P");
       (["src"; "Locomotive_Steam"; "MR_1F.pnml"], "1F") ]).

(** The Midland chain and its tender file, no other Midland engine. *)
Definition chain_tender_tree : World :=
  project top_dirs
    (required_files ++
     [ (["src"; "Locomotive_Steam"; "LMS_4F.pnml"], "4F");
       (["src"; "Tenders"; "MR_Tenders.pnml"], "tenders");
       (["src"; "Locomotive_Steam"; "MR_3835.pnml"], "3835");
       (["src"; "Locomotive_Steam"; "LMS_Fowler_2P.pnml"], "2P");
       (["src"; "Locomotive_Steam"; "LMS_Fowler_4P.pnml"], "4P") ]).

(** A steam engine, its tender, a wagon and a chain with both followers. *)
Definition small_tree : World :=
  project top_dirs
    (required_files ++
     [ (["src"; "Wagons"; "Containers_BR.pnml"], "containers");
       (["src"; "Locomotive_Steam"; "GWR_King.pnml"], "king");
       (["src"; "Tenders"; "GWR_Tenders.pnml"], "gwr tenders");
       (["src"; "Wagons"; "flat"; "BR_Conflat_P.pnml"], "conflat p");
       (["src"; "Wagons"; "BR_Conflat_A.pnml"], "conflat a");
       (["src"; "header.pnml"], "header");
       (["src"; "append"; "zz_last.pnml"], "last");
       (["src"; "priority"; "aa_first.pnml"], "first");
       (["src"; "Wagons"; "BR_Van.pnml"], "van") ]).

(** A tender file without an engine of its company. *)
Definition lonely_tender_tree : World :=
  project top_dirs
    (required_files ++
     [ (["src"; "Tenders"; "LNER_Tenders.pnml"], "lner tenders");
       (["src"; "Locomotive_Steam"; "GWR_King.pnml"], "king") ]).

(** The same tree with a directory in the place of the tender file. *)
Definition lonely_tender_dir_tree : World :=
  project (top_dirs ++ [["src"; "Tenders"; "LNER_Tenders.pnml"]])
    (required_files ++
     [ (["src"; "Locomotive_Steam"; "GWR_King.pnml"], "king") ]).

(** A complete project with a directory named like a fragment. *)
Definition fragment_dir_tree : World :=
  project (top_dirs ++ [["src"; "Wagons"; "BR_Van.pnml"]]) required_files.

(** [small_tree] after an artifact was written under another name. *)
Definition small_tree_after : World := (write_file "old" "text" small_tree).1.

(** The files of [small_tree] met in the opposite order. *)
Definition small_tree_reversed : World := reversed small_tree.

(** Two tender files of one company, and the same tree walked backwards. *)
Definition two_tenders_tree : World :=
  project top_dirs
    (required_files ++
     [ (["src"; "Tenders"; "GWR_Tenders.pnml"], "small tenders");
       (["src"; "Tenders"; "GWR_Tenders_large.pnml"], "large tenders");
       (["src"; "Locomotive_Steam"; "GWR_King.pnml"], "king") ]).

Definition two_tenders_tree_reversed : World := reversed two_tenders_tree.

(** A chain follower whose trigger is not in the tree. *)
Definition orphan_tree : World :=
  project top_dirs
    (required_files ++ [ (["src"; "Wagons"; "BR_Conflat_A.pnml"], "conflat a") ]).

(** A chain follower present in two subdirectories. *)
Definition duplicate_tree : World :=
  project top_dirs
    (required_files ++
     [ (["src"; "Wagons"; "Containers_BR.pnml"], "containers");
       (["src"; "Wagons"; "BR_Conflat_A.pnml"], "conflat a");
       (["src"; "Wagons"; "BR_Conflat_P.pnml"], "conflat p");
       (["src"; "Old"; "BR_Conflat_P.pnml"], "old conflat p") ]).

(** A chain trigger present in two subdirectories. *)
Definition two_triggers_tree : World :=
  project top_dirs
    (required_files ++
     [ (["src"; "Wagons"; "Containers_BR.pnml"], "containers");
       (["src"; "Old"; "Containers_BR.pnml"], "old containers");
       (["src"; "Wagons"; "BR_Conflat_A.pnml"], "conflat a");
       (["src"; "Wagons"; "BR_Conflat_P.pnml"], "conflat p") ]).


(** * Properties *)

#[global] Arguments KeyFiles : simpl never.
#[global] Arguments SpecialOrderFiles : simpl never.
#[global] Arguments key_paths : simpl never.
#[global] Arguments all_followers : simpl never.


(** ** Names *)

Lemma substring_all (s : string) : String.substring 0 (String.length s) s = s.
Proof. induction s as [|c s IH]; simpl; [done|]. by rewrite IH. Qed.

Lemma app_String (c : ascii) (s t : string) : String c s +:+ t = String c (s +:+ t).
Proof. reflexivity. Qed.

Lemma app_empty_l (t : string) : "" +:+ t = t.
Proof. reflexivity. Qed.

Lemma app_empty_r (s : string) : s +:+ "" = s.
Proof. induction s as [|c s IH]; [done|]. by rewrite app_String, IH. Qed.

Lemma app_assoc_s (s t u : string) : (s +:+ t) +:+ u = s +:+ (t +:+ u).
Proof. induction s as [|c s IH]; [done|]. by rewrite !app_String, IH. Qed.

Lemma substring_split (s : string) (i : nat) :
  i <= String.length s ->
  String.substring 0 i s +:+ String.substring i (String.length s - i) s = s.
Proof.
  revert i. induction s as [|c s IH]; intros [|i] Hi; simpl in *; try done.
  - by rewrite app_empty_l, substring_all.
  - rewrite app_String, IH; [done|lia].
Qed.

Lemma stem_suffix (n : string) : stem_of n +:+ suffix_of n = n.
Proof.
  unfold stem_of, suffix_of. destruct (rfind "." n) as [i|] eqn:Hi.
  - destruct ((0 <? i) && (i <? String.length n - 1)) eqn:Hc.
    + apply substring_split.
      apply andb_prop in Hc as [_ Hc]. apply Nat.ltb_lt in Hc. lia.
    + apply app_empty_r.
  - apply app_empty_r.
Qed.

(** [file.stem + file.suffix] is the file's name. *)
Lemma file_name_name (p : Path) : file_name p = name p.
Proof. apply stem_suffix. Qed.

(** ** The order on paths *)

Lemma path_leb_refl (p : Path) : path_leb p p = true.
Proof. induction p as [|a p IH]; simpl; [done|]. by rewrite String.eqb_refl. Qed.

#[global] Instance path_le_refl : Reflexive path_le.
Proof. intros p. apply path_leb_refl. Qed.

#[global] Instance path_le_total : Total path_le.
Proof.
  intros p. unfold path_le. induction p as [|a p IH]; intros [|b q]; simpl; auto.
  rewrite (String.eqb_sym b a).
  destruct (String.eqb_spec a b) as [->|Hne]; [apply IH|].
  apply String.leb_total.
Qed.

#[global] Instance path_le_antisym : AntiSymm (=) path_le.
Proof.
  intros p. unfold path_le. induction p as [|a p IH]; intros [|b q]; simpl; try done.
  rewrite (String.eqb_sym b a).
  destruct (String.eqb_spec a b) as [->|Hne].
  - intros H1 H2. f_equal. by apply IH.
  - intros H1 H2. destruct Hne. by apply String.leb_antisym.
Qed.

#[global] Instance path_le_trans : Transitive path_le.
Proof.
  intros p. unfold path_le.
  induction p as [|a p IH]; intros [|b q] [|c r]; simpl; try done.
  destruct (String.eqb_spec a b) as [->|Hab].
  - destruct (String.eqb_spec b c) as [->|Hbc]; [apply IH|done].
  - destruct (String.eqb_spec b c) as [->|Hbc].
    + destruct (String.eqb_spec a c); [by subst|done].
    + intros H1 H2.
      assert (String.le a c) as Hac.
      { transitivity b; unfold String.le; by apply Is_true_true. }
      destruct (String.eqb_spec a c) as [->|Hne].
      * destruct Hab. apply String.leb_antisym; done.
      * by apply Is_true_true.
Qed.

Lemma sorted_Sorted (l : list Path) : Sorted path_le (sorted l).
Proof. apply Sorted_merge_sort; apply _. Qed.

Lemma sorted_Permutation (l : list Path) : sorted l ≡ₚ l.
Proof. apply merge_sort_Permutation. Qed.

Lemma elem_of_sorted (l : list Path) (p : Path) : p ∈ sorted l ↔ p ∈ l.
Proof. by rewrite sorted_Permutation. Qed.

(** The order leaves no choice: two enumerations of the same files sort
    to the same list. *)
Lemma sorted_perm (l1 l2 : list Path) : l1 ≡ₚ l2 -> sorted l1 = sorted l2.
Proof.
  intros Hp. apply (Sorted_unique path_le); try apply sorted_Sorted.
  by rewrite !sorted_Permutation.
Qed.

Lemma Sorted_filter (P : Path -> Prop) `{!forall p, Decision (P p)} (l : list Path) :
  Sorted path_le l -> Sorted path_le (filter P l).
Proof.
  intros Hs. apply Sorted_StronglySorted in Hs; [|apply _].
  apply StronglySorted_Sorted.
  induction Hs as [|x l Hs IH Hx]; [constructor|].
  rewrite filter_cons. case_decide; [|done].
  constructor; [done|].
  apply Forall_forall. intros y [_ Hy]%list_elem_of_filter.
  by eapply Forall_forall in Hx.
Qed.

Lemma filter_sorted (P : Path -> Prop) `{!forall p, Decision (P p)} (l : list Path) :
  filter P (sorted l) = sorted (filter P l).
Proof.
  apply (Sorted_unique path_le).
  - apply Sorted_filter, sorted_Sorted.
  - apply sorted_Sorted.
  - by rewrite !sorted_Permutation.
Qed.


(** ** Suffixes *)

Lemma length_app_s (s t : string) :
  String.length (s +:+ t) = String.length s + String.length t.
Proof. induction s as [|c s IH]; [done|]. rewrite app_String. simpl. by rewrite IH. Qed.

Lemma substring_app_r (pre suf : string) :
  String.substring (String.length pre) (String.length suf) (pre +:+ suf) = suf.
Proof.
  induction pre as [|c pre IH]; [apply substring_all|].
  rewrite app_String. simpl. apply IH.
Qed.

Lemma ends_with_spec (suf s : string) :
  ends_with suf s = true <-> exists pre, s = pre +:+ suf.
Proof.
  unfold ends_with. rewrite andb_true_iff, Nat.leb_le, String.eqb_eq. split.
  - intros [Hlen Heq].
    exists (String.substring 0 (String.length s - String.length suf) s).
    pose proof (substring_split s (String.length s - String.length suf)
                  ltac:(lia)) as Hsplit.
    replace (String.length s - (String.length s - String.length suf))
      with (String.length suf) in Hsplit by lia.
    by rewrite Heq in Hsplit.
  - intros [pre ->]. rewrite length_app_s. split; [lia|].
    replace (String.length pre + String.length suf - String.length suf)
      with (String.length pre) by lia.
    apply substring_app_r.
Qed.

Lemma app_inj_suffix (p1 p2 s1 s2 : string) :
  String.length s1 = String.length s2 -> p1 +:+ s1 = p2 +:+ s2 -> s1 = s2.
Proof.
  intros Hlen. revert p2. induction p1 as [|c p1 IH]; intros [|d p2] Heq.
  - done.
  - apply (f_equal String.length) in Heq.
    rewrite app_empty_l, app_String in Heq. simpl in Heq.
    rewrite length_app_s in Heq. lia.
  - apply (f_equal String.length) in Heq.
    rewrite app_empty_l, app_String in Heq. simpl in Heq.
    rewrite length_app_s in Heq. lia.
  - rewrite !app_String in Heq. injection Heq as _ Heq. by eapply IH.
Qed.

(** A name with the extension of the artifact is not a fragment name. *)
Lemma nml_not_pnml (s : string) :
  ends_with ".nml" s = true -> ends_with ".pnml" s = false.
Proof.
  intros [p1 ->]%ends_with_spec.
  destruct (ends_with ".pnml" (p1 +:+ ".nml")) eqn:H; [|done].
  apply ends_with_spec in H as [p2 H].
  change ".pnml" with ("." +:+ "pnml") in H. rewrite <- app_assoc_s in H.
  by apply app_inj_suffix in H.
Qed.

Lemma segments_nml (s : string) :
  exists init x, segments (s +:+ ".nml") = init ++ [x +:+ ".nml"].
Proof.
  induction s as [|c s (init & x & IH)].
  - by exists [], "".
  - rewrite app_String. cbn [segments]. rewrite IH.
    destruct (Ascii.eqb c "/").
    + by exists ("" :: init), x.
    + destruct init as [|i0 init]; simpl.
      * by exists [], (String c x).
      * by exists (String c i0 :: init), x.
Qed.

Lemma artifact_shape (filename : string) :
  exists mid x, artifact filename = "build" :: mid ++ [x +:+ ".nml"].
Proof.
  unfold artifact, parts.
  destruct (segments_nml filename) as (init & x & Hs).
  exists (filter (fun c => c <> "" /\ c <> ".") init), x.
  change ("build/" +:+ filename +:+ ".nml")
    with (String "b" (String "u" (String "i" (String "l" (String "d"
            (String "/" (filename +:+ ".nml"))))))).
  cbn [segments Ascii.eqb Bool.eqb]. rewrite Hs.
  destruct init as [|i0 init]; cbn [app].
  - rewrite filter_cons_True by (split; [done|]; by destruct x).
    rewrite filter_cons_True; [done|].
    split; [by destruct x|]. destruct x as [|? [|? ?]]; done.
  - rewrite filter_cons_True by done.
    change (i0 :: init ++ [x +:+ ".nml"]) with ((i0 :: init) ++ [x +:+ ".nml"]).
    rewrite filter_app. do 2 f_equal. rewrite filter_cons_True; [done|].
    split; [by destruct x|]. destruct x as [|? [|? ?]]; done.
Qed.

Lemma artifact_name (filename : string) :
  ends_with ".nml" (name (artifact filename)) = true.
Proof.
  destruct (artifact_shape filename) as (mid & x & ->).
  unfold name. rewrite app_comm_cons, last_last.
  apply ends_with_spec. by exists x.
Qed.

(** ** The file system *)

Lemma read_write_fs {A} (fs : list (Path * A)) (p q : Path) (c : A) :
  read_fs (write_fs fs p c) q = if decide (p = q) then Some c else read_fs fs q.
Proof.
  induction fs as [|[r c'] fs IH]; simpl.
  - by case_decide.
  - destruct (decide (r = p)) as [->|Hrp]; simpl.
    + by repeat case_decide.
    + rewrite IH. repeat case_decide; congruence.
Qed.

Lemma write_fs_twice {A} (fs : list (Path * A)) (p : Path) (c1 c2 : A) :
  write_fs (write_fs fs p c1) p c2 = write_fs fs p c2.
Proof.
  induction fs as [|[q c'] fs IH]; simpl.
  - by rewrite decide_True.
  - destruct (decide (q = p)) as [->|Hq]; simpl.
    + by rewrite decide_True.
    + rewrite decide_False by done. by rewrite IH.
Qed.

Lemma write_fs_id {A} (fs : list (Path * A)) (p : Path) (c : A) :
  read_fs fs p = Some c -> write_fs fs p c = fs.
Proof.
  induction fs as [|[q c'] fs IH]; simpl; [done|].
  case_decide as Hq; [by intros [= ->]|]. intros Hr. by rewrite IH.
Qed.

Lemma write_fs_paths {A} (fs : list (Path * A)) (p : Path) (c : A) :
  (write_fs fs p c).*1 = if bool_decide (p ∈ fs.*1) then fs.*1 else fs.*1 ++ [p].
Proof.
  induction fs as [|[q c'] fs IH]; cbn [write_fs].
  - rewrite bool_decide_eq_false_2; [done|]. by intros ?%elem_of_nil.
  - rewrite (fmap_cons fst). cbn [fst].
    destruct (decide (q = p)) as [->|Hq].
    + rewrite fmap_cons. cbn [fst]. rewrite bool_decide_eq_true_2; [done|]. by left.
    + rewrite fmap_cons, IH. cbn [fst]. case_bool_decide as Hin.
      * rewrite bool_decide_eq_true_2; [done|]. by right.
      * rewrite bool_decide_eq_false_2; [done|].
        intros [?|?]%elem_of_cons; [by subst|done].
Qed.

Lemma read_fs_is_Some {A} (fs : list (Path * A)) (p : Path) :
  is_Some (read_fs fs p) <-> p ∈ fs.*1.
Proof.
  induction fs as [|[q c] fs IH]; simpl.
  - split; [by intros [? ?]|by intros ?%elem_of_nil].
  - rewrite elem_of_cons. case_decide as Hq.
    + subst. split; [by left|by eexists].
    + rewrite IH. split; [by right|]. intros [->|?]; [done|done].
Qed.

Lemma read_fs_elem {A} (fs : list (Path * A)) (p : Path) (c : A) :
  read_fs fs p = Some c -> (p, c) ∈ fs.
Proof.
  induction fs as [|[q c'] fs IH]; simpl; [done|].
  case_decide as Hq.
  - intros [= ->]. subst. by left.
  - intros ?. right. by apply IH.
Qed.

Lemma elem_read_fs {A} (fs : list (Path * A)) (p : Path) (c : A) :
  NoDup fs.*1 -> (p, c) ∈ fs -> read_fs fs p = Some c.
Proof.
  induction fs as [|[q c'] fs IH]; simpl.
  { by intros _ ?%elem_of_nil. }
  intros [Hq Hnd]%NoDup_cons [[= -> ->]|Hin]%elem_of_cons.
  - by rewrite decide_True.
  - rewrite decide_False; [by apply IH|].
    intros ->. apply Hq. apply list_elem_of_fmap. by exists (p, c).
Qed.

Lemma read_fs_app {A} (fs1 fs2 : list (Path * A)) (p : Path) :
  read_fs (fs1 ++ fs2) p
  = match read_fs fs1 p with Some c => Some c | None => read_fs fs2 p end.
Proof.
  induction fs1 as [|[q c] fs1 IH]; simpl; [done|]. by case_decide.
Qed.

Lemma read_fs_perm {A} (fs1 fs2 : list (Path * A)) (p : Path) :
  NoDup fs1.*1 -> fs1 ≡ₚ fs2 -> read_fs fs1 p = read_fs fs2 p.
Proof.
  intros Hnd Hp. apply option_eq. intros c.
  assert (NoDup fs2.*1) as Hnd2 by by rewrite <- Hp.
  split; intros Hr%read_fs_elem; apply elem_read_fs; try done.
  - by rewrite <- Hp.
  - by rewrite Hp.
Qed.

Lemma name_app (d p : Path) : p <> [] -> name (d ++ p) = name p.
Proof.
  intros Hp. unfold name. induction d as [|c d IH]; [done|].
  simpl. destruct (d ++ p) eqn:Hdp; [|done].
  by apply app_eq_nil in Hdp as [_ ?].
Qed.

Lemma is_prefix_app (p q : Path) : is_prefix p (p ++ q) = true.
Proof. apply bool_decide_eq_true. by rewrite take_app_length. Qed.

Lemma is_prefix_length (p q : Path) : is_prefix p q = true -> length p <= length q.
Proof.
  intros H%bool_decide_eq_true.
  rewrite <- H at 1. rewrite length_take. lia.
Qed.

Lemma is_prefix_spec (p q : Path) :
  is_prefix p q = true <-> exists r, q = p ++ r.
Proof.
  split.
  - intros H%bool_decide_eq_true. exists (drop (length p) q).
    rewrite <- H at 1. by rewrite take_drop.
  - intros [r ->]. apply is_prefix_app.
Qed.

(** Below the working directory there is what the tree lists. *)
Lemma node_at_below (w : World) (p : Path) :
  p <> [] -> node_at w (cwd w ++ p) = read_fs (tree w) (cwd w ++ p).
Proof.
  intros Hp. unfold node_at.
  destruct (is_prefix (cwd w ++ p) (cwd w)) eqn:Hpre; [|done].
  apply is_prefix_length in Hpre. rewrite length_app in Hpre.
  destruct p; [done|]. simpl in Hpre. lia.
Qed.

Lemma node_at_cwd (w : World) : node_at w (cwd w) = Some Dir.
Proof.
  unfold node_at, is_prefix. rewrite bool_decide_eq_true_2; [done|].
  by rewrite firstn_all.
Qed.

Lemma node_at_set_node (w : World) (t : Path) (n : Node) (q : Path) :
  node_at w t <> Some Dir ->
  node_at (set_node w t n) q = if decide (t = q) then Some n else node_at w q.
Proof.
  intros Ht. unfold node_at in *. cbn [set_node cwd tree].
  rewrite read_write_fs.
  destruct (is_prefix q (cwd w)) eqn:Hq; [|done].
  case_decide as Heq; [|done]. subst. by rewrite Hq in Ht.
Qed.

Lemma node_at_add_dir (w : World) (d : Path) (q : Path) :
  d <> [] -> node_at w (cwd w ++ d) = None ->
  node_at (add_dir w d) q
  = if decide (cwd w ++ d = q) then Some Dir else node_at w q.
Proof.
  intros Hd Hn. unfold node_at in *. cbn [add_dir cwd tree].
  rewrite read_fs_app. simpl.
  destruct (is_prefix q (cwd w)) eqn:Hq.
  - by destruct (decide (cwd w ++ d = q)).
  - destruct (is_prefix (cwd w ++ d) (cwd w)) eqn:Hpre; [done|].
    destruct (decide (cwd w ++ d = q)) as [Heq|Heq].
    + subst. rewrite Hn. by rewrite decide_True.
    + rewrite decide_False by done. by destruct (read_fs (tree w) q).
Qed.

(** A path without [..] is resolved to itself. *)
Lemma walk_plain (w : World) (cur p q : Path) :
  ".." ∉ p -> walk w cur p = inr q -> q = cur ++ p.
Proof.
  revert cur. induction p as [|c p IH]; intros cur Hp; simpl.
  - intros [= <-]. by rewrite app_nil_r.
  - apply not_elem_of_cons in Hp as [Hc Hp].
    destruct (node_at w cur) as [[|t]|]; try done.
    unfold step. destruct (String.eqb_spec c ".."); [done|].
    intros Hw%IH; [|done]. by rewrite <- (assoc_L (++)) in Hw.
Qed.

(** Every directory the resolution of a path goes through. *)
Lemma walk_dirs (w : World) (cur p q : Path) (i : nat) :
  ".." ∉ p -> walk w cur p = inr q -> i < length p ->
  node_at w (cur ++ take i p) = Some Dir.
Proof.
  revert cur i. induction p as [|c p IH]; intros cur i Hp; simpl; [lia|].
  apply not_elem_of_cons in Hp as [Hc Hp].
  destruct (node_at w cur) as [[|t]|] eqn:Hcur; try done.
  unfold step. destruct (String.eqb_spec c ".."); [done|].
  intros Hw Hi. destruct i as [|i]; simpl.
  - by rewrite app_nil_r.
  - replace (cur ++ c :: take i p) with ((cur ++ [c]) ++ take i p)
      by by rewrite <- (assoc_L (++)).
    apply IH; [done..|simpl in Hi; lia].
Qed.

(** Two file systems that agree on the directories a path goes through
    resolve it alike. *)
Lemma walk_agree (w1 w2 : World) (cur p : Path) :
  ".." ∉ p ->
  (forall i, i < length p ->
     (node_at w1 (cur ++ take i p) = Some Dir
      <-> node_at w2 (cur ++ take i p) = Some Dir)) ->
  match walk w1 cur p, walk w2 cur p with
  | inr q1, inr q2 => q1 = q2
  | inl _, inl _ => True
  | _, _ => False
  end.
Proof.
  revert cur. induction p as [|c p IH]; intros cur Hp Hag; simpl; [done|].
  apply not_elem_of_cons in Hp as [Hc Hp].
  pose proof (Hag 0 ltac:(simpl; lia)) as H0. simpl in H0.
  rewrite app_nil_r in H0.
  assert (forall i, i < length p ->
            node_at w1 ((cur ++ [c]) ++ take i p) = Some Dir
            <-> node_at w2 ((cur ++ [c]) ++ take i p) = Some Dir) as Hag'.
  { intros i Hi. rewrite <- !(assoc_L (++)).
    apply (Hag (S i)). simpl. lia. }
  unfold step. destruct (String.eqb_spec c ".."); [done|].
  destruct (node_at w1 cur) as [[|t1]|] eqn:H1;
    destruct (node_at w2 cur) as [[|t2]|] eqn:H2; try done;
    try (by apply IH);
    try (destruct H0 as [H0 H0']; by (discriminate H0 || discriminate H0')).
Qed.

Lemma walk_ext (w1 w2 : World) (cur p : Path) :
  (forall x, node_at w1 x = node_at w2 x) -> walk w1 cur p = walk w2 cur p.
Proof.
  intros Hx. revert cur. induction p as [|c p IH]; intros cur; simpl; [done|].
  rewrite Hx. destruct (node_at w2 cur) as [[|t]|]; [apply IH|done..].
Qed.

Lemma stat_ext (w1 w2 : World) (p : Path) :
  cwd w1 = cwd w2 -> (forall x, node_at w1 x = node_at w2 x) ->
  stat w1 p = stat w2 p.
Proof.
  intros Hc Hx. unfold stat. rewrite Hc, (walk_ext w1 w2) by done.
  by destruct (walk w2 (cwd w2) p).
Qed.

(** [stat] of a path without [..] that stays clear of what differs. *)
Lemma stat_agree (w1 w2 : World) (p : Path) :
  cwd w1 = cwd w2 -> ".." ∉ p ->
  (forall i, i < length p ->
     (node_at w1 (cwd w1 ++ take i p) = Some Dir
      <-> node_at w2 (cwd w1 ++ take i p) = Some Dir)) ->
  node_at w1 (cwd w1 ++ p) = node_at w2 (cwd w1 ++ p) ->
  stat w1 p = stat w2 p.
Proof.
  intros Hc Hp Hdirs Hlast. unfold stat. rewrite <- Hc.
  pose proof (walk_agree w1 w2 (cwd w1) p Hp Hdirs) as Hw.
  destruct (walk w1 (cwd w1) p) as [e1|q1] eqn:H1;
    destruct (walk w2 (cwd w1) p) as [e2|q2] eqn:H2; try done.
  subst q2. apply walk_plain in H1; [|done]. by subst.
Qed.

Lemma stat_plain (w : World) (p : Path) (n : Node) :
  ".." ∉ p -> stat w p = Some n -> node_at w (cwd w ++ p) = Some n.
Proof.
  intros Hp. unfold stat.
  destruct (walk w (cwd w) p) as [e|q] eqn:Hw; [done|].
  apply walk_plain in Hw; [|done]. by subst.
Qed.

Lemma relative_to_Some (d q p : Path) :
  relative_to d q = Some p <-> q = d ++ p.
Proof.
  unfold relative_to. destruct (is_prefix d q) eqn:Hpre.
  - apply is_prefix_spec in Hpre as [r ->]. rewrite drop_app_length.
    split; [by intros [= ->]|]. by intros ->%(inj (app d)).
  - split; [done|]. intros ->. by rewrite is_prefix_app in Hpre.
Qed.

Lemma relative_entry_app (d p : Path) (n : Node) :
  relative_entry d (d ++ p, n) = Some (p, n).
Proof.
  unfold relative_entry. cbn [fst snd].
  assert (relative_to d (d ++ p) = Some p) as -> by by apply relative_to_Some.
  done.
Qed.

Lemma relative_entry_Some (d : Path) (e e' : Path * Node) :
  relative_entry d e = Some e' <-> e = (d ++ e'.1, e'.2).
Proof.
  destruct e as [q n], e' as [p m]. unfold relative_entry. cbn [fst snd].
  destruct (relative_to d q) as [r|] eqn:Hr.
  - apply relative_to_Some in Hr. subst q. split.
    + by intros [= -> ->].
    + by intros [= ->%(inj (app d)) ->].
  - split; [done|]. intros [= -> ->].
    assert (relative_to d (d ++ p) = Some p) by by apply relative_to_Some.
    congruence.
Qed.

Lemma elem_of_entries (w : World) (p : Path) (n : Node) :
  (p, n) ∈ entries w <-> (cwd w ++ p, n) ∈ tree w.
Proof.
  unfold entries. rewrite list_elem_of_omap. split.
  - intros (e & Hin & ->%relative_entry_Some). done.
  - intros Hin. exists (cwd w ++ p, n). split; [done|].
    apply relative_entry_app.
Qed.

Lemma entries_paths (w : World) (p : Path) :
  p ∈ (entries w).*1 <-> cwd w ++ p ∈ (tree w).*1.
Proof.
  rewrite !list_elem_of_fmap. split.
  - intros ([q n] & -> & Hin). exists (cwd w ++ q, n).
    split; [done|]. by apply elem_of_entries.
  - intros ([q n] & Hq & Hin). simpl in Hq. subst q.
    exists (p, n). split; [done|]. by apply elem_of_entries.
Qed.

(** What [stat] finds at a path without [..] is an entry of the tree. *)
Lemma stat_entry (w : World) (p : Path) (n : Node) :
  ".." ∉ p -> p <> [] -> stat w p = Some n -> p ∈ (entries w).*1.
Proof.
  intros Hp Hne Hs. apply stat_plain in Hs; [|done].
  rewrite node_at_below in Hs by done.
  apply entries_paths. apply read_fs_is_Some. by eexists.
Qed.

Lemma read_Some_stat (w : World) (p : Path) (t : string) :
  read w p = Some t <-> stat w p = Some (File t).
Proof.
  unfold read. destruct (stat w p) as [[|t']|]; naive_solver.
Qed.

Lemma read_exists (w : World) (p : Path) :
  is_Some (read w p) -> exists_ w p = true.
Proof.
  intros [t Ht%read_Some_stat]. unfold exists_. by rewrite Ht.
Qed.

Lemma rglob_elem (w : World) (d : Path) (pat : string) (p : Path) :
  p ∈ rglob w d pat <->
  p ∈ (entries w).*1 /\ under d p = true /\ fnmatch pat (name p) = true.
Proof.
  unfold rglob. rewrite list_elem_of_filter, andb_true_iff. naive_solver.
Qed.

Lemma entries_NoDup (w : World) : NoDup (tree w).*1 -> NoDup (entries w).*1.
Proof.
  unfold entries. induction (tree w) as [|e l IH]; simpl; [constructor|].
  intros [Hq Hnd]%NoDup_cons.
  destruct (relative_entry (cwd w) e) as [e'|] eqn:Hr; simpl; [|by apply IH].
  apply relative_entry_Some in Hr. subst e.
  constructor; [|by apply IH].
  intros (e2 & Hp & (e1 & Hin & ->%relative_entry_Some)%list_elem_of_omap)%list_elem_of_fmap.
  apply Hq. apply list_elem_of_fmap. eexists. split; [|exact Hin].
  simpl. by rewrite Hp.
Qed.

Lemma rglob_NoDup (w : World) (d : Path) (pat : string) :
  NoDup (tree w).*1 -> NoDup (rglob w d pat).
Proof. intros Hnd. by apply NoDup_filter, entries_NoDup. Qed.
(** ** Blocks *)

Lemma copy_file_read (w : World) (p : Path) (nml : string) (t : string) :
  read w p = Some t -> copy_file w p nml = Ok (nml +:+ block w p).
Proof.
  intros Hr. unfold copy_file, block.
  rewrite (read_exists w p) by by rewrite Hr. rewrite Hr. simpl.
  do 3 f_equal. fold (file_name p). unfold stem, suffix.
  by rewrite <- app_assoc_s, stem_suffix.
Qed.

Lemma copy_file_None (w : World) (p : Path) (nml : string) :
  read w p = None -> copy_file w p nml = Err (copy_error w p).
Proof.
  intros Hr. unfold copy_file, copy_error. rewrite Hr.
  by destruct (exists_ w p).
Qed.

Lemma copy_file_Ok (w : World) (p : Path) (nml out : string) :
  copy_file w p nml = Ok out <-> is_Some (read w p) /\ out = nml +:+ block w p.
Proof.
  split.
  - intros H. destruct (read w p) as [t|] eqn:Hr.
    + rewrite (copy_file_read _ _ _ t Hr) in H. naive_solver.
    + by rewrite copy_file_None in H.
  - intros [[t Hr] ->]. by apply copy_file_read with t.
Qed.

Lemma copy_chain_app (w : World) (l1 l2 : list Path) (nml : string) :
  copy_chain w (l1 ++ l2) nml = (x <- copy_chain w l1 nml ;; copy_chain w l2 x).
Proof.
  revert nml. induction l1 as [|p l1 IH]; intros nml; simpl; [done|].
  destruct (copy_file w p nml); simpl; [apply IH|done].
Qed.

Lemma copy_chain_Ok (w : World) (l : list Path) (nml out : string) :
  copy_chain w l nml = Ok out <->
  Forall (fun p => is_Some (read w p)) l /\ out = nml +:+ render w l.
Proof.
  revert nml. induction l as [|p l IH]; intros nml; simpl.
  - rewrite app_empty_r. split; [by intros [= ->]|by intros [_ ->]].
  - rewrite Forall_cons. destruct (copy_file w p nml) as [x|e] eqn:Hc; simpl.
    + apply copy_file_Ok in Hc as [Hr ->]. rewrite IH, app_assoc_s.
      split; [by intros [? ->]|by intros [[_ ?] ->]].
    + split; [done|]. intros [[Hr _] _].
      assert (copy_file w p nml = Ok (nml +:+ block w p)) by by apply copy_file_Ok.
      congruence.
Qed.

Lemma copy_key_files_chain (w : World) (src : Path) (keys : list string) (nml : string) :
  copy_key_files w src keys nml
  = copy_chain w ((fun k => src ++ [k]) <$> keys) nml.
Proof.
  revert nml. induction keys as [|k keys IH]; intros nml; simpl; [done|].
  destruct (copy_file w (src ++ [k]) nml); simpl; [apply IH|done].
Qed.

Lemma render_app (w : World) (l1 l2 : list Path) :
  render w (l1 ++ l2) = render w l1 +:+ render w l2.
Proof.
  induction l1 as [|p l1 IH]; simpl; [done|]. by rewrite IH, app_assoc_s.
Qed.

(** ** The aggregation loops emit the planned groups *)

Lemma dict_get_Some_elem {V} (d : list (string * V)) (k : string) :
  k ∈ d.*1 <-> is_Some (dict_get d k).
Proof.
  induction d as [|[k' v] d IH]; simpl.
  - split; [by intros ?%elem_of_nil|by intros [? ?]].
  - rewrite elem_of_cons. destruct (String.eqb_spec k' k) as [->|Hne].
    + split; [by eexists|by left].
    + rewrite IH. split; [intros [?|?]; [congruence|done]|by right].
Qed.

Lemma dict_get_elem {V} (d : list (string * V)) (k : string) (v : V) :
  dict_get d k = Some v -> (k, v) ∈ d.
Proof.
  induction d as [|[k' x] d IH]; simpl; [done|].
  destruct (String.eqb_spec k' k) as [->|Hne].
  - intros [= ->]. by left.
  - intros ?. right. by apply IH.
Qed.

Lemma is_trigger_decide (n : string) :
  bool_decide (n ∈ SpecialOrderFiles.*1) = is_trigger n.
Proof.
  unfold is_trigger. destruct (dict_get SpecialOrderFiles n) eqn:Hg.
  - apply bool_decide_eq_true. apply dict_get_Some_elem. by rewrite Hg.
  - apply bool_decide_eq_false. rewrite dict_get_Some_elem, Hg. by intros [? ?].
Qed.

Lemma emit_file_group (w : World) (sc : ScanState) (tf : gmap string Path)
    (nml : string) (file : Path) :
  emit_file w sc (tf, nml) file =
  if bool_decide (name file ∈ in_chain sc) then Ok (tf, nml)
  else (nml' <- copy_chain w (blocks_of (group_of sc tf file)) nml ;;
        Ok (pending_after tf file, nml')).
Proof.
  unfold emit_file. rewrite file_name_name, is_trigger_decide.
  case_bool_decide; [done|].
  unfold blocks_of, group_of, pending_after, steam, company; simpl fst; simpl snd.
  assert (forall x : string,
    (if is_trigger (name file)
     then match special_files sc !! name file with
          | Some chain => copy_chain w chain x
          | None => Ok x
          end
     else Ok x)
    = copy_chain w (if is_trigger (name file)
                    then default [] (special_files sc !! name file) else []) x)
    as Hch.
  { intros x. destruct (is_trigger (name file)); [|done].
    by destruct (special_files sc !! name file). }
  case_bool_decide as Hs; simpl.
  - destruct (tf !! rsplit_0 (stem file)) as [tender_file|] eqn:Ht; simpl.
    + destruct (copy_file w tender_file nml) as [x|]; simpl; [|done].
      destruct (copy_file w file x) as [y|]; simpl; [|done].
      rewrite Hch. by destruct (copy_chain w _ y).
    + destruct (copy_file w file nml) as [y|]; simpl; [|done].
      rewrite Hch, (delete_id _ _ Ht). by destruct (copy_chain w _ y).
  - destruct (copy_file w file nml) as [y|]; simpl; [|done].
    rewrite Hch. by destruct (copy_chain w _ y).
Qed.

Lemma emit_files_plan (w : World) (sc : ScanState) (fl : list Path)
    (tf : gmap string Path) (nml : string) :
  emit_files w sc fl (tf, nml) =
  (nml' <- copy_chain w (flat_map blocks_of (plan sc fl tf)) nml ;;
   Ok (pending_end sc fl tf, nml')).
Proof.
  revert tf nml. induction fl as [|file fl IH]; intros tf nml; [done|].
  cbn [emit_files plan pending_end]. rewrite emit_file_group.
  case_bool_decide; simpl; [apply IH|].
  rewrite copy_chain_app.
  destruct (copy_chain w (blocks_of _) nml) as [x|]; simpl; [apply IH|done].
Qed.

Lemma plan_app (sc : ScanState) (l1 l2 : list Path) (tf : gmap string Path) :
  plan sc (l1 ++ l2) tf = plan sc l1 tf ++ plan sc l2 (pending_end sc l1 tf).
Proof.
  revert tf. induction l1 as [|f l1 IH]; intros tf; simpl; [done|].
  case_bool_decide; simpl; by rewrite IH.
Qed.

Lemma pending_end_app (sc : ScanState) (l1 l2 : list Path) (tf : gmap string Path) :
  pending_end sc (l1 ++ l2) tf = pending_end sc l2 (pending_end sc l1 tf).
Proof.
  revert tf. induction l1 as [|f l1 IH]; intros tf; simpl; [done|].
  case_bool_decide; simpl; by rewrite IH.
Qed.

Lemma emit_tiers_plan (w : World) (sc : ScanState) (t : Tiers)
    (tf : gmap string Path) (nml : string) :
  emit_tiers w sc (items t) (tf, nml) =
  (nml' <- copy_chain w
             (flat_map blocks_of
                (plan sc (sorted (Top_level t) ++ sorted (Priority t)
                          ++ sorted (Normal t) ++ sorted (Append t)) tf)) nml ;;
   Ok (pending_end sc (sorted (Top_level t) ++ sorted (Priority t)
                       ++ sorted (Normal t) ++ sorted (Append t)) tf, nml')).
Proof.
  unfold items. cbn [emit_tiers].
  rewrite !plan_app, !flat_map_app, !pending_end_app.
  rewrite emit_files_plan, copy_chain_app.
  destruct (copy_chain w _ nml) as [x1|]; simpl; [|done].
  rewrite emit_files_plan, copy_chain_app.
  destruct (copy_chain w _ x1) as [x2|]; simpl; [|done].
  rewrite emit_files_plan, copy_chain_app.
  destruct (copy_chain w _ x2) as [x3|]; simpl; [|done].
  rewrite emit_files_plan.
  by destruct (copy_chain w _ x3) as [x4|].
Qed.

(** The buffer [main] assembles is the rendering of the emission. *)
Lemma assemble_emission (w : World) (src : Path) :
  assemble w src =
  (nml <- copy_chain w (key_paths src) "" ;;
   sc <- scan w src (rglob w src "*.pnml") scan_init ;;
   copy_chain w (flat_map blocks_of (groups sc)) nml).
Proof.
  unfold assemble. rewrite copy_key_files_chain. fold (key_paths src).
  destruct (copy_chain w (key_paths src) "") as [nml|]; cbn [bind]; [|done].
  destruct (scan w src _ scan_init) as [sc|]; cbn [bind]; [|done].
  rewrite emit_tiers_plan. unfold groups, visit_order.
  by destruct (copy_chain w _ nml).
Qed.

Lemma assemble_Ok (w : World) (src : Path) (buf : string) :
  assemble w src = Ok buf <->
  exists sc, scan w src (rglob w src "*.pnml") scan_init = Ok sc
    /\ Forall (fun p => is_Some (read w p)) (emission src sc)
    /\ buf = render w (emission src sc).
Proof.
  rewrite assemble_emission. unfold emission. split.
  - destruct (copy_chain w (key_paths src) "") as [nml|] eqn:Hk; cbn [bind]; [|done].
    destruct (scan w src _ scan_init) as [sc|]; cbn [bind]; [|done].
    apply copy_chain_Ok in Hk as [Hk ->].
    intros [Hg ->]%copy_chain_Ok. exists sc. split; [done|].
    rewrite Forall_app, render_app. by rewrite app_empty_l.
  - intros (sc & -> & [Hk Hg]%Forall_app & ->).
    assert (copy_chain w (key_paths src) "" = Ok (render w (key_paths src))) as ->.
    { apply copy_chain_Ok. by rewrite app_empty_l. }
    cbn [bind]. apply copy_chain_Ok. by rewrite render_app.
Qed.

(** ** Lists *)

Lemma elem_of_flat_map {A B} (f : A -> list B) (l : list A) (y : B) :
  y ∈ flat_map f l <-> exists x, x ∈ l /\ y ∈ f x.
Proof.
  rewrite list_elem_of_In, in_flat_map.
  by setoid_rewrite list_elem_of_In.
Qed.

Lemma elem_of_concat {A} (ls : list (list A)) (y : A) :
  y ∈ concat ls <-> exists l, l ∈ ls /\ y ∈ l.
Proof.
  rewrite list_elem_of_In, in_concat.
  by setoid_rewrite list_elem_of_In.
Qed.

(** ** Facts about the two tables *)

Lemma trigger_not_follower (n : string) :
  is_trigger n = true -> n ∉ all_followers.
Proof.
  intros Ht.
  assert (n ∈ SpecialOrderFiles.*1) as Hn.
  { apply dict_get_Some_elem. unfold is_trigger in Ht.
    by destruct (dict_get SpecialOrderFiles n). }
  assert (Forall (fun t => t ∉ all_followers) SpecialOrderFiles.*1) as Hall.
  { apply (bool_decide_unpack _). by vm_compute. }
  by eapply Forall_forall in Hall.
Qed.

Lemma trigger_not_key (n : string) : is_trigger n = true -> in_KeyFiles n = false.
Proof.
  intros Ht.
  assert (n ∈ SpecialOrderFiles.*1) as Hn.
  { apply dict_get_Some_elem. unfold is_trigger in Ht.
    by destruct (dict_get SpecialOrderFiles n). }
  assert (Forall (fun t => in_KeyFiles t = false) SpecialOrderFiles.*1) as Hall.
  { apply (bool_decide_unpack _). by vm_compute. }
  by eapply Forall_forall in Hall.
Qed.

Lemma trigger_not_tender (n : string) :
  is_trigger n = true -> contains "Tenders" (stem_of n) = false.
Proof.
  intros Ht.
  assert (n ∈ SpecialOrderFiles.*1) as Hn.
  { apply dict_get_Some_elem. unfold is_trigger in Ht.
    by destruct (dict_get SpecialOrderFiles n). }
  assert (Forall (fun t => contains "Tenders" (stem_of t) = false)
                 SpecialOrderFiles.*1) as Hall.
  { apply (bool_decide_unpack _). by vm_compute. }
  by eapply Forall_forall in Hall.
Qed.

Lemma chain_in_followers (n : string) (chain : list string) (f : string) :
  dict_get SpecialOrderFiles n = Some chain -> f ∈ chain -> f ∈ all_followers.
Proof.
  intros Hg Hf. apply dict_get_elem in Hg.
  unfold all_followers. apply elem_of_concat. exists chain. split; [|done].
  apply list_elem_of_fmap. by exists (n, chain).
Qed.

(** A follower name is a literal pattern: it matches its own name only. *)
Lemma follower_fnmatch (f n : string) :
  f ∈ all_followers -> fnmatch f n = String.eqb f n.
Proof.
  intros Hf.
  assert (Forall (fun f => literal f = true) all_followers) as Hall.
  { apply (bool_decide_unpack _). by vm_compute. }
  eapply Forall_forall in Hall; [|done].
  unfold fnmatch, literal in *. destruct f as [|c f]; [done|].
  destruct c as [[] [] [] [] [] [] [] []]; done.
Qed.

Lemma follower_is_pnml (F : string) :
  F ∈ all_followers -> fnmatch "*.pnml" F = true.
Proof.
  intros HF.
  assert (Forall (fun F => fnmatch "*.pnml" F = true) all_followers) as Hall.
  { apply (bool_decide_unpack _). by vm_compute. }
  by eapply Forall_forall in Hall.
Qed.

Lemma key_is_pnml (k : string) : k ∈ KeyFiles.*1 -> fnmatch "*.pnml" k = true.
Proof.
  intros Hk.
  assert (Forall (fun k => fnmatch "*.pnml" k = true) KeyFiles.*1) as Hall.
  { apply (bool_decide_unpack _). by vm_compute. }
  by eapply Forall_forall in Hall.
Qed.

Lemma key_not_tender (n : string) :
  in_KeyFiles n = true -> contains "Tenders" (stem_of n) = false.
Proof.
  intros Hk. apply bool_decide_eq_true in Hk.
  assert (Forall (fun t => contains "Tenders" (stem_of t) = false) KeyFiles.*1) as Hall.
  { apply (bool_decide_unpack _). by vm_compute. }
  by eapply Forall_forall in Hall.
Qed.

(** ** The scan *)

Lemma resolve_chain_resolved (w : World) (src : Path) (chain : list string)
    (ic : gset string) (acc : list Path) :
  resolve_chain w src chain ic acc =
  (l <- resolved w src chain ;; Ok (ic ∪ list_to_set chain, acc ++ l)).
Proof.
  revert ic acc. induction chain as [|cf chain IH]; intros ic acc; simpl.
  - by rewrite app_nil_r, (right_id_L ∅ (∪)).
  - destruct (find_special_file w cf src) as [f|]; simpl; [|done].
    rewrite IH. destruct (resolved w src chain) as [l|]; simpl; [|done].
    rewrite <- (assoc_L (++)). simpl. do 2 f_equal. set_solver.
Qed.


Lemma scan_file_Ok (w : World) (src : Path) (st st1 : ScanState) (file : Path) :
  triggers_unmarked (in_chain st) ->
  scan_file w src st file = Ok st1 <->
  (is_trigger (name file) = true -> is_Some (chain_files w src (name file)))
  /\ st1 = scan_step w src st file.
Proof.
  intros Hinv. unfold scan_file, scan_chain, scan_step, scan_mark, chain_files.
  rewrite file_name_name. unfold is_trigger.
  destruct (dict_get SpecialOrderFiles (name file)) as [chain|] eqn:Hg.
  - rewrite bool_decide_eq_false_2.
    2:{ apply Hinv. unfold is_trigger. by rewrite Hg. }
    rewrite resolve_chain_resolved.
    destruct (resolved w src chain) as [l|]; simpl.
    + split; [intros [= <-]; by eauto|by intros [_ ->]].
    + split; [done|]. intros [Hs _]. by destruct Hs.
  - simpl. split; [intros [= <-]; split; done|by intros [_ ->]].
Qed.

Lemma scan_place_in_chain (src : Path) (st : ScanState) (file : Path) :
  in_chain (scan_place src st file) = in_chain st.
Proof. unfold scan_place, add_tier. by repeat case_match. Qed.

Lemma scan_place_special (src : Path) (st : ScanState) (file : Path) :
  special_files (scan_place src st file) = special_files st.
Proof. unfold scan_place, add_tier. by repeat case_match. Qed.

Lemma scan_step_in_chain (w : World) (src : Path) (st : ScanState) (file : Path) :
  in_chain (scan_step w src st file) = in_chain st ∪ list_to_set (chain_of file).
Proof.
  unfold scan_step. rewrite scan_place_in_chain. unfold scan_mark, chain_of.
  destruct (dict_get SpecialOrderFiles (name file)); simpl; [done|].
  by rewrite (right_id_L ∅ (∪)).
Qed.

Lemma triggers_unmarked_step (w : World) (src : Path) (st : ScanState) (file : Path) :
  triggers_unmarked (in_chain st) ->
  triggers_unmarked (in_chain (scan_step w src st file)).
Proof.
  intros Hinv n Hn. rewrite scan_step_in_chain, elem_of_union.
  intros [?|Hf]; [by eapply Hinv|].
  apply elem_of_list_to_set in Hf. unfold chain_of in Hf.
  destruct (dict_get SpecialOrderFiles (name file)) as [chain|] eqn:Hg;
    simpl in Hf; [|by apply elem_of_nil in Hf].
  eapply trigger_not_follower; [done|]. by eapply chain_in_followers.
Qed.

Lemma triggers_unmarked_init : triggers_unmarked (in_chain scan_init).
Proof. intros n _. simpl. set_solver. Qed.

(** The scan succeeds exactly when every chain it meets resolves, and
    then it is the fold of [scan_step]. *)
Lemma scan_Ok (w : World) (src : Path) (fl : list Path) (st st' : ScanState) :
  triggers_unmarked (in_chain st) ->
  scan w src fl st = Ok st' <->
  resolvable w src fl /\ st' = foldl (scan_step w src) st fl.
Proof.
  revert st. induction fl as [|file fl IH]; intros st Hinv; simpl.
  - split; [intros [= <-]; split; [|done]|by intros [_ ->]].
    intros f Hf. by apply elem_of_nil in Hf.
  - destruct (scan_file w src st file) as [st1|e] eqn:Hs; simpl.
    + apply scan_file_Ok in Hs as [Hr ->]; [|done].
      rewrite IH by by apply triggers_unmarked_step.
      split; intros [Hres ->]; (split; [|done]).
      * intros f [->|Hf]%elem_of_cons; [done|by apply Hres].
      * intros f Hf. apply Hres. by right.
    + split; [done|]. intros [Hres _].
      assert (scan_file w src st file = Ok (scan_step w src st file)) as Hok.
      { apply scan_file_Ok; [done|]. split; [|done]. apply Hres. by left. }
      congruence.
Qed.

(** *** What the scan leaves in each field *)

Lemma scan_place_classify (src : Path) (st : ScanState) (file : Path) :
  scan_place src st file =
  match classify src file with
  | CTop =>
      if in_KeyFiles (name file) then st
      else add_tier (fun t => mkTiers (Top_level t ++ [file]) (Priority t)
                                      (Normal t) (Append t)) st
  | CPriority =>
      add_tier (fun t => mkTiers (Top_level t) (Priority t ++ [file])
                                 (Normal t) (Append t)) st
  | CAppend =>
      add_tier (fun t => mkTiers (Top_level t) (Priority t)
                                 (Normal t) (Append t ++ [file])) st
  | CTender =>
      {| pnml_files := pnml_files st;
         tender_files := <[ company file := file ]> (tender_files st);
         special_files := special_files st;
         in_chain := in_chain st |}
  | COther =>
      if in_KeyFiles (name file) then st
      else if bool_decide (name file ∈ in_chain st) then st
      else add_tier (fun t => mkTiers (Top_level t) (Priority t)
                                      (Normal t ++ [file]) (Append t)) st
  end.
Proof.
  unfold scan_place, classify. rewrite file_name_name.
  destruct (length (drop (length src) file) =? 1).
  { by destruct (in_KeyFiles (name file)). }
  repeat (case_bool_decide; [done|]).
  destruct (contains "Tenders" (stem file)); [done|].
  destruct (in_KeyFiles (name file)); [done|]. simpl.
  by case_bool_decide.
Qed.

Lemma scan_mark_fields (w : World) (src : Path) (st : ScanState) (file : Path) :
  pnml_files (scan_mark w src st file) = pnml_files st
  /\ tender_files (scan_mark w src st file) = tender_files st
  /\ in_chain (scan_mark w src st file) = in_chain st ∪ list_to_set (chain_of file).
Proof.
  unfold scan_mark, chain_of.
  destruct (dict_get SpecialOrderFiles (name file)); simpl; [done|].
  by rewrite (right_id_L ∅ (∪)).
Qed.

Lemma foldl_field {S : Type} (step : S -> Path -> S) (F : S -> list Path)
    (P : Path -> Prop) `{!forall p, Decision (P p)} :
  (forall st f, F (step st f) = F st ++ if decide (P f) then [f] else []) ->
  forall fl st, F (foldl step st fl) = F st ++ filter P fl.
Proof.
  intros Hstep fl. induction fl as [|f fl IH]; intros st; simpl.
  - by rewrite app_nil_r.
  - rewrite IH, Hstep, filter_cons, <- (assoc_L (++)). by case_decide.
Qed.

Ltac step_cases w src st file :=
  unfold scan_step; rewrite scan_place_classify;
  destruct (scan_mark_fields w src st file) as (Hpf & Htf & Hic);
  destruct (classify src file) eqn:Hclass;
  try destruct (in_KeyFiles (name file)) eqn:Hkey;
  try case_bool_decide; simpl; rewrite ?Hpf, ?Htf, ?Hic.

Lemma scan_Top_level (w : World) (src : Path) (fl : list Path) (st : ScanState) :
  Top_level (pnml_files (foldl (scan_step w src) st fl))
  = Top_level (pnml_files st) ++ filter (top_file src) fl.
Proof.
  apply (foldl_field _ (fun st => Top_level (pnml_files st))).
  clear. intros st file. unfold top_file. case_decide as HP.
  all: step_cases w src st file; rewrite ?app_nil_r; naive_solver.
Qed.

Lemma scan_Priority (w : World) (src : Path) (fl : list Path) (st : ScanState) :
  Priority (pnml_files (foldl (scan_step w src) st fl))
  = Priority (pnml_files st) ++ filter (fun f => classify src f = CPriority) fl.
Proof.
  apply (foldl_field _ (fun st => Priority (pnml_files st))).
  clear. intros st file. case_decide as HP.
  all: step_cases w src st file; rewrite ?app_nil_r; naive_solver.
Qed.

Lemma scan_Append (w : World) (src : Path) (fl : list Path) (st : ScanState) :
  Append (pnml_files (foldl (scan_step w src) st fl))
  = Append (pnml_files st) ++ filter (fun f => classify src f = CAppend) fl.
Proof.
  apply (foldl_field _ (fun st => Append (pnml_files st))).
  clear. intros st file. case_decide as HP.
  all: step_cases w src st file; rewrite ?app_nil_r; naive_solver.
Qed.

Lemma scan_in_chain (w : World) (src : Path) (fl : list Path) (st : ScanState) :
  in_chain (foldl (scan_step w src) st fl) = in_chain st ∪ marked fl.
Proof.
  revert st. induction fl as [|f fl IH]; intros st; simpl.
  - unfold marked. simpl. by rewrite (right_id_L ∅ (∪)).
  - rewrite IH, scan_step_in_chain. unfold marked. simpl.
    rewrite list_to_set_app_L. by rewrite (assoc_L (∪)).
Qed.

Lemma scan_tender_files (w : World) (src : Path) (fl : list Path) (st : ScanState) :
  tender_files (foldl (scan_step w src) st fl)
  = foldl (fun m f => <[ company f := f ]> m) (tender_files st)
          (filter (fun f => classify src f = CTender) fl).
Proof.
  revert st. induction fl as [|file fl IH]; intros st; simpl; [done|].
  rewrite IH, filter_cons. clear IH. case_decide as HP.
  all: step_cases w src st file; naive_solver.
Qed.

Lemma scan_special_files (w : World) (src : Path) (fl : list Path)
    (st : ScanState) (n : string) :
  special_files (foldl (scan_step w src) st fl) !! n
  = if bool_decide (n ∈ name <$> fl) && is_trigger n
    then Some (default [] (chain_files w src n))
    else special_files st !! n.
Proof.
  revert st. induction fl as [|file fl IH]; intros st; [done|].
  cbn [foldl]. rewrite IH, fmap_cons. clear IH.
  destruct (bool_decide (n ∈ name <$> fl) && is_trigger n) eqn:Hin.
  - apply andb_prop in Hin as [Hin ->]. apply bool_decide_eq_true in Hin.
    rewrite bool_decide_eq_true_2; [done|]. by right.
  - unfold scan_step. rewrite scan_place_special. unfold scan_mark, is_trigger in *.
    destruct (decide (name file = n)) as [<-|Hne].
    + rewrite bool_decide_eq_true_2 by by left.
      destruct (dict_get SpecialOrderFiles (name file)); simpl; [|done].
      by rewrite lookup_insert_eq.
    + assert (bool_decide (n ∈ name file :: (name <$> fl))
              = bool_decide (n ∈ name <$> fl)) as ->.
      { apply bool_decide_ext. rewrite elem_of_cons. naive_solver. }
      rewrite Hin.
      destruct (dict_get SpecialOrderFiles (name file)); simpl; [|done].
      by rewrite lookup_insert_ne.
Qed.

Lemma scan_in_chain_mono (w : World) (src : Path) (fl : list Path) (st : ScanState) :
  in_chain st ⊆ in_chain (foldl (scan_step w src) st fl).
Proof. rewrite scan_in_chain. set_solver. Qed.

(** A follower scanned before its trigger is still in the Normal list;
    the skip of line 302 removes it, so after that skip the Normal tier
    holds the ordinary files that no trigger of the tree marks. *)
Lemma scan_Normal (w : World) (src : Path) (fl : list Path) (st : ScanState)
    (ic : gset string) :
  in_chain (foldl (scan_step w src) st fl) ⊆ ic ->
  filter (fun f => name f ∉ ic) (Normal (pnml_files (foldl (scan_step w src) st fl)))
  = filter (fun f => name f ∉ ic) (Normal (pnml_files st))
    ++ filter (fun f => normal_file src f /\ name f ∉ ic) fl.
Proof.
  revert st. induction fl as [|file fl IH]; intros st Hic; cbn [foldl] in *.
  - by rewrite filter_nil, app_nil_r.
  - rewrite IH by done. clear IH.
    pose proof (scan_in_chain_mono w src fl (scan_step w src st file)) as Hm.
    assert (in_chain (scan_step w src st file) ⊆ ic) as Hic1 by set_solver.
    clear Hm Hic. rewrite scan_step_in_chain in Hic1.
    assert (filter (fun f => name f ∉ ic)
                   (Normal (pnml_files (scan_step w src st file)))
            = filter (fun f => name f ∉ ic) (Normal (pnml_files st))
              ++ if decide (normal_file src file /\ name file ∉ ic)
                 then [file] else []) as ->.
    { unfold normal_file. case_decide as HP.
      all: step_cases w src st file;
        rewrite ?filter_app, ?filter_cons, ?filter_nil, ?app_nil_r.
      all: try reflexivity.
      all: try (destruct HP as [[? ?] ?]; discriminate).
      all: try case_decide; try reflexivity.
      all: try (destruct HP as [_ HP]; set_solver).
      all: try (destruct HP; by split).
      all: by rewrite app_nil_r. }
    rewrite filter_cons, <- (assoc_L (++)). by case_decide.
Qed.

Lemma scan_Normal_elem (w : World) (src : Path) (fl : list Path) (st : ScanState)
    (f : Path) :
  f ∈ Normal (pnml_files (foldl (scan_step w src) st fl)) ->
  f ∈ Normal (pnml_files st) \/ (f ∈ fl /\ normal_file src f).
Proof.
  revert st. induction fl as [|file fl IH]; intros st; cbn [foldl]; [by left|].
  intros [Hf|[Hf Hn]]%IH; [|right; split; [by right|done]].
  revert Hf. unfold normal_file.
  step_cases w src st file; rewrite ?elem_of_app, ?list_elem_of_singleton;
    intros Hf; try (by left).
  destruct Hf as [?| ->]; [by left|]. right. split; [by left|done].
Qed.

(** ** The groups of a plan *)

Lemma plan_primaries (sc : ScanState) (fl : list Path) (tf : gmap string Path) :
  primary <$> plan sc fl tf = filter (fun f => name f ∉ in_chain sc) fl.
Proof.
  revert tf. induction fl as [|f fl IH]; intros tf; simpl; [done|].
  rewrite filter_cons. case_bool_decide; case_decide; try done.
  simpl. by rewrite IH.
Qed.

(** ** The writer *)

Lemma step_plain (cur : Path) (c : string) : c <> ".." -> step cur c = cur ++ [c].
Proof. intros Hc. unfold step. by destruct (String.eqb_spec c ".."). Qed.

Lemma stat_single (w : World) (c : string) :
  c <> ".." -> stat w [c] = node_at w (cwd w ++ [c]).
Proof.
  intros Hc. unfold stat. cbn [walk]. by rewrite node_at_cwd, step_plain.
Qed.

Lemma walk_snoc (w : World) (cur p : Path) (c : string) (q : Path) :
  c <> ".." -> walk w cur (p ++ [c]) = inr q ->
  exists q', q = q' ++ [c] /\ walk w cur p = inr q' /\ node_at w q' = Some Dir.
Proof.
  intros Hc. revert cur. induction p as [|d p IH]; intros cur; simpl.
  - destruct (node_at w cur) as [[|t]|] eqn:Hcur; try done.
    rewrite step_plain by done. intros [= <-]. by exists cur.
  - destruct (node_at w cur) as [[|t]|]; try done. apply IH.
Qed.

Lemma walk_set_node (w : World) (t : Path) (n : Node) (cur p q : Path) :
  node_at w t <> Some Dir -> walk w cur p = inr q ->
  walk (set_node w t n) cur p = inr q.
Proof.
  intros Ht. revert cur. induction p as [|c p IH]; intros cur; simpl; [done|].
  rewrite node_at_set_node by done.
  destruct (node_at w cur) as [[|t']|] eqn:Hcur; try done.
  rewrite decide_False by congruence. apply IH.
Qed.

Lemma open_w_inr (w : World) (p q : Path) :
  open_w w p = inr q <-> walk w (cwd w) p = inr q /\ node_at w q <> Some Dir.
Proof.
  unfold open_w. destruct (walk w (cwd w) p) as [e|q']; [naive_solver|].
  destruct (node_at w q') as [[|t]|] eqn:Hq; naive_solver.
Qed.

Lemma open_w_set_node (w : World) (p q : Path) (t : string) :
  open_w w p = inr q -> open_w (set_node w q (File t)) p = inr q.
Proof.
  intros [Hw Hq]%open_w_inr. apply open_w_inr. split.
  - by apply walk_set_node.
  - rewrite node_at_set_node by done. by rewrite decide_True.
Qed.

Lemma open_w_ext (w1 w2 : World) (p : Path) :
  cwd w1 = cwd w2 -> (forall x, node_at w1 x = node_at w2 x) ->
  open_w w1 p = open_w w2 p.
Proof.
  intros Hc Hx. unfold open_w. rewrite Hc, (walk_ext w1 w2) by done.
  destruct (walk w2 (cwd w2) p); [done|]. by rewrite Hx.
Qed.

Lemma node_at_with_build (w : World) (x : Path) :
  node_at (with_build w) x
  = if exists_ w ["build"] then node_at w x
    else if decide (cwd w ++ ["build"] = x) then Some Dir else node_at w x.
Proof.
  unfold with_build. destruct (exists_ w ["build"]) eqn:He; simpl; [done|].
  apply node_at_add_dir; [done|].
  unfold exists_ in He. rewrite stat_single in He by done.
  by destruct (node_at w (cwd w ++ ["build"])).
Qed.

Lemma with_build_exists (w : World) : exists_ (with_build w) ["build"] = true.
Proof.
  unfold exists_. rewrite stat_single by done.
  replace (cwd (with_build w)) with (cwd w)
    by (unfold with_build; by destruct (exists_ w ["build"])).
  rewrite node_at_with_build.
  destruct (exists_ w ["build"]) eqn:He.
  - unfold exists_ in He. rewrite stat_single in He by done.
    by destruct (node_at w (cwd w ++ ["build"])).
  - by rewrite decide_True.
Qed.

Lemma with_build_id (w : World) : exists_ w ["build"] = true -> with_build w = w.
Proof. intros He. unfold with_build. by rewrite He. Qed.

Lemma with_build_cwd (w : World) : cwd (with_build w) = cwd w.
Proof. unfold with_build. by destruct (exists_ w ["build"]). Qed.

Lemma with_build_limit (w : World) : file_limit (with_build w) = file_limit w.
Proof. unfold with_build. by destruct (exists_ w ["build"]). Qed.

(** [write_file], step by step. *)
Lemma write_file_eq (n buf : string) (w : World) :
  write_file n buf w
  = match open_w (with_build w) (artifact n) with
    | inl e => (with_build w, Err (OSError e (artifact n)))
    | inr q =>
        (set_node (with_build w) q (File (written (file_limit w) buf).1),
         if (written (file_limit w) buf).2 then Ok ()
         else Err (OSError EFBIG (artifact n)))
    end.
Proof.
  unfold write_file. change (parts "build/") with ["build"]. fold (with_build w).
  destruct (open_w (with_build w) (artifact n)); [done|].
  rewrite with_build_limit. by destruct (written (file_limit w) buf).
Qed.

Lemma write_file_cwd (n buf : string) (w : World) :
  cwd (write_file n buf w).1 = cwd w.
Proof.
  rewrite write_file_eq.
  destruct (open_w (with_build w) (artifact n)); simpl; apply with_build_cwd.
Qed.

Lemma write_file_limit (n buf : string) (w : World) :
  file_limit (write_file n buf w).1 = file_limit w.
Proof.
  rewrite write_file_eq.
  destruct (open_w (with_build w) (artifact n)); simpl; apply with_build_limit.
Qed.

(** The file [open] returns for the artifact is named like the artifact. *)
Lemma open_w_artifact (w : World) (n : string) (q : Path) :
  open_w w (artifact n) = inr q ->
  ends_with ".nml" (name q) = true /\ name q = name (artifact n).
Proof.
  intros [Hw _]%open_w_inr.
  pose proof (artifact_name n) as Hn.
  destruct (artifact_shape n) as (mid & x & Hs). rewrite Hs in *.
  rewrite app_comm_cons in Hw, Hn |- *. apply walk_snoc in Hw as (q' & -> & _).
  - unfold name in *. by rewrite !last_last in *.
  - by destruct x as [|? [|? [|? ?]]].
Qed.

Lemma written_complete (limit : option nat) (buf : string) :
  (written limit buf).2 = true -> (written limit buf).1 = buf.
Proof.
  unfold written. destruct limit as [l|]; [|done].
  by destruct (l <? String.length buf).
Qed.


(** A run of [write_file] that returns has written the whole text. *)
Lemma write_file_Ok_read (n buf : string) (w : World) :
  (write_file n buf w).2 = Ok () ->
  read (write_file n buf w).1 (artifact n) = Some buf.
Proof.
  rewrite write_file_eq.
  destruct (open_w (with_build w) (artifact n)) as [e|q] eqn:Ho; [done|].
  cbn [fst snd].
  destruct (written (file_limit w) buf).2 eqn:Hc; [|done]. intros _.
  rewrite written_complete by done.
  pose proof (open_w_set_node _ _ _ buf Ho) as [Hw Hq]%open_w_inr.
  apply open_w_inr in Ho as [_ Hdir].
  apply read_Some_stat. unfold stat.
  replace (cwd (set_node (with_build w) q (File buf))) with (cwd (with_build w))
    in * by done.
  rewrite Hw, node_at_set_node by done. by rewrite decide_True.
Qed.

(** The text of the first of two writes under one name leaves no trace. *)
Lemma write_file_again (n buf1 buf2 : string) (w : World) :
  write_file n buf2 (write_file n buf1 w).1 = write_file n buf2 w.
Proof.
  rewrite (write_file_eq n buf2 (write_file n buf1 w).1), write_file_limit.
  rewrite (write_file_eq n buf1 w), (write_file_eq n buf2 w).
  destruct (open_w (with_build w) (artifact n)) as [e|q] eqn:Ho; cbn [fst].
  - rewrite (with_build_id (with_build w)) by apply with_build_exists.
    by rewrite Ho.
  - assert (with_build (set_node (with_build w) q
                          (File (written (file_limit w) buf1).1))
            = set_node (with_build w) q (File (written (file_limit w) buf1).1))
      as ->.
    { apply with_build_id. unfold exists_.
      rewrite stat_single by done. cbn [set_node cwd].
      pose proof (with_build_exists w) as He. unfold exists_ in He.
      rewrite stat_single in He by done.
      apply open_w_inr in Ho as [_ Hdir].
      rewrite node_at_set_node by done.
      case_decide; [done|].
      by destruct (node_at (with_build w) (cwd (with_build w) ++ ["build"])). }
    rewrite (open_w_set_node _ _ _ _ Ho).
    unfold set_node. cbn [cwd tree file_limit]. by rewrite write_fs_twice.
Qed.

(** [write_file] changes what is at two places at most: [build] is made
    when nothing is there, and the file it opens, whose name ends in
    [.nml], gets a text. *)
Lemma write_file_node_at (n buf : string) (w : World) (x : Path) :
  node_at (write_file n buf w).1 x = node_at w x
  \/ (x = cwd w ++ ["build"] /\ node_at w x = None
      /\ node_at (write_file n buf w).1 x = Some Dir)
  \/ (ends_with ".nml" (name x) = true /\ node_at w x <> Some Dir
      /\ exists t, node_at (write_file n buf w).1 x = Some (File t)).
Proof.
  assert (node_at (with_build w) x = node_at w x
          \/ (x = cwd w ++ ["build"] /\ node_at w x = None
              /\ node_at (with_build w) x = Some Dir)) as Hb.
  { rewrite node_at_with_build. destruct (exists_ w ["build"]) eqn:He; [by left|].
    case_decide as Hx; [|by left]. right. subst x. split_and!; [done| |done].
    unfold exists_ in He. rewrite stat_single in He by done.
    by destruct (node_at w (cwd w ++ ["build"])). }
  rewrite write_file_eq.
  destruct (open_w (with_build w) (artifact n)) as [e|q] eqn:Ho; cbn [fst].
  { destruct Hb as [?|?]; [by left|by right; left]. }
  pose proof (open_w_artifact _ _ _ Ho) as [Hname _].
  apply open_w_inr in Ho as [_ Hdir].
  rewrite node_at_set_node by done.
  case_decide as Hx.
  - subst x. right; right. split_and!; [done| |by eexists].
    destruct Hb as [<-|(_ & _ & ?)]; done.
  - destruct Hb as [?|?]; [by left|by right; left].
Qed.

(** The paths [write_file] leaves alone: those that do not lead through
    [build] or [..] and whose name does not end in [.nml]. *)
Lemma stat_write_file (n buf : string) (w : World) (p : Path) :
  ".." ∉ p -> p <> [] -> head p <> Some "build" ->
  ends_with ".nml" (name p) = false ->
  stat (write_file n buf w).1 p = stat w p.
Proof.
  intros Hdots Hne Hhead Hname.
  assert (forall i, cwd w ++ take i p <> cwd w ++ ["build"]) as Hnb.
  { intros i [=Heq%(inj (app (cwd w)))].
    destruct p as [|c p]; [done|]. destruct i; [done|].
    simpl in Heq, Hhead. congruence. }
  apply stat_agree; [apply write_file_cwd|done| |].
  - intros i Hi. rewrite write_file_cwd.
    destruct (write_file_node_at n buf w (cwd w ++ take i p))
      as [->|[(Heq & _)|(_ & Hnd & t & Ht)]]; [done|by apply Hnb in Heq|].
    rewrite Ht. naive_solver.
  - rewrite write_file_cwd.
    destruct (write_file_node_at n buf w (cwd w ++ p))
      as [->|[(Heq & _)|(Hn & _)]]; [done| |].
    + rewrite <- (take_ge p (length p)) in Heq at 1 by lia. by apply Hnb in Heq.
    + rewrite name_app in Hn by done. congruence.
Qed.

Lemma scan_pattern_nml (pat n : string) :
  scan_pattern pat -> ends_with ".nml" n = true -> fnmatch pat n = false.
Proof.
  intros [->|HF] Hn.
  - by apply nml_not_pnml.
  - rewrite follower_fnmatch by done.
    destruct (String.eqb_spec pat n) as [->|]; [|done].
    apply nml_not_pnml in Hn.
    pose proof (follower_is_pnml n HF) as Hp. simpl in Hp. congruence.
Qed.

Lemma rglob_add_dir (w : World) (d c : string) (pat : string) :
  c <> d -> rglob (add_dir w [c]) [d] pat = rglob w [d] pat.
Proof.
  intros Hc. unfold rglob, entries. cbn [add_dir cwd tree].
  rewrite omap_app, fmap_app, filter_app. cbn [omap list_omap].
  rewrite relative_entry_app. cbn [fmap list_fmap fst].
  rewrite filter_cons_False, filter_nil, app_nil_r; [done|].
  unfold under. cbn [length take]. rewrite bool_decide_eq_false_2 by congruence.
  by rewrite andb_false_r.
Qed.

Lemma rglob_set_node (w : World) (q : Path) (n : Node) (d : Path) (pat : string) :
  fnmatch pat (name q) = false ->
  rglob (set_node w q n) d pat = rglob w d pat.
Proof.
  intros Hq. unfold rglob, entries. cbn [set_node cwd tree].
  induction (tree w) as [|[r m] l IH]; cbn [write_fs].
  - cbn [omap list_omap].
    destruct (relative_entry (cwd w) (q, n)) as [[p n']|] eqn:Hr;
      cbn [fmap list_fmap fst]; [|done].
    rewrite filter_cons_False; [done|].
    apply relative_entry_Some in Hr. injection Hr as -> _. cbn [fst].
    destruct (decide (p = [])) as [->|Hp].
    { unfold under. destruct d; cbn; by rewrite ?andb_false_l. }
    rewrite name_app in Hq by done. by rewrite Hq, andb_false_r.
  - destruct (decide (r = q)) as [->|Hne]; cbn [omap list_omap].
    + unfold relative_entry. cbn [fst snd].
      by destruct (relative_to (cwd w) q).
    + destruct (relative_entry (cwd w) (r, m)) as [[p n']|];
        cbn [fmap list_fmap fst]; [|apply IH].
      rewrite !filter_cons. by rewrite IH.
Qed.

(** The searches of the scan find after [write_file] what they found
    before. *)
Lemma rglob_write_file (n buf : string) (w : World) (pat : string) :
  scan_pattern pat ->
  rglob (write_file n buf w).1 ["src"] pat = rglob w ["src"] pat.
Proof.
  intros Hpat.
  assert (rglob (with_build w) ["src"] pat = rglob w ["src"] pat) as Hb.
  { unfold with_build. destruct (exists_ w ["build"]); [done|].
    by apply rglob_add_dir. }
  rewrite write_file_eq.
  destruct (open_w (with_build w) (artifact n)) as [e|q] eqn:Ho; cbn [fst]; [done|].
  rewrite rglob_set_node; [done|].
  apply scan_pattern_nml; [done|]. by apply open_w_artifact in Ho as [? _].
Qed.

(** ** The file system after [main] *)

Lemma main_eq (a : Args) (w : World) :
  main a w
  = match check_project_structure w ["src"] ["gfx"] ["lang"] with
    | (log, Err e) => mkRun log (Err e) w
    | (log, Ok _) =>
        match assemble w ["src"] with
        | Err e => mkRun log (Err e) w
        | Ok buf => mkRun log (write_file (grf_name a) buf w).2
                          (write_file (grf_name a) buf w).1
        end
    end.
Proof.
  unfold main.
  destruct (check_project_structure w ["src"] ["gfx"] ["lang"]) as [log [hl|e]];
    [|done].
  destruct (assemble w ["src"]) as [buf|e]; [|done].
  by destruct (write_file (grf_name a) buf w).
Qed.

Lemma main_Ok (a : Args) (w : World) :
  outcome (main a w) = Ok () ->
  exists buf, assemble w ["src"] = Ok buf
    /\ (write_file (grf_name a) buf w).2 = Ok ()
    /\ world (main a w) = (write_file (grf_name a) buf w).1.
Proof.
  rewrite main_eq.
  destruct (check_project_structure w ["src"] ["gfx"] ["lang"]) as [log [hl|e]];
    [|done].
  destruct (assemble w ["src"]) as [buf|e]; [|done]. by exists buf.
Qed.

(** A run that raises before the writer leaves the file system as it
    found it. *)
Lemma main_unassembled (a : Args) (w : World) :
  (forall buf, assemble w ["src"] <> Ok buf) ->
  exists e, outcome (main a w) = Err e /\ world (main a w) = w.
Proof.
  intros Hno. rewrite main_eq.
  destruct (check_project_structure w ["src"] ["gfx"] ["lang"]) as [log [hl|e]];
    [|by exists e].
  destruct (assemble w ["src"]) as [buf|e]; [|by exists e]. by destruct (Hno buf).
Qed.

Lemma main_emission (a : Args) (w : World) :
  outcome (main a w) = Ok () ->
  exists sc, scanned w = Ok sc
    /\ Forall (fun p => is_Some (read w p)) (emission ["src"] sc)
    /\ read (world (main a w)) (artifact (grf_name a))
       = Some (render w (emission ["src"] sc)).
Proof.
  intros (buf & (sc & Hsc & Hr & ->)%assemble_Ok & Hw & ->)%main_Ok.
  exists sc. split_and!; [done..|]. by apply write_file_Ok_read.
Qed.

Lemma scanned_Ok (w : World) (sc : ScanState) :
  scanned w = Ok sc <->
  resolvable w ["src"] (rglob w ["src"] "*.pnml")
  /\ sc = foldl (scan_step w ["src"]) scan_init (rglob w ["src"] "*.pnml").
Proof. apply scan_Ok, triggers_unmarked_init. Qed.

(** ** Chains *)

Lemma rglob_literal (w : World) (src : Path) (F : string) :
  F ∈ all_followers ->
  rglob w src F
  = filter (fun p => under src p = true /\ name p = F) (entries w).*1.
Proof.
  intros HF. unfold rglob. apply list_filter_iff. intros p.
  rewrite (follower_fnmatch F (name p) HF), andb_true_iff, String.eqb_eq.
  naive_solver.
Qed.

Lemma find_special_file_Ok (w : World) (src : Path) (F : string) (p : Path) :
  find_special_file w F src = Ok p <-> rglob w src F = [p].
Proof.
  unfold find_special_file.
  destruct (rglob w src F) as [|m [|m' ms]]; naive_solver.
Qed.

Lemma resolved_Ok (w : World) (src : Path) (chain : list string) (l : list Path) :
  resolved w src chain = Ok l <->
  Forall2 (fun F p => rglob w src F = [p]) chain l.
Proof.
  revert l. induction chain as [|F chain IH]; intros l; simpl.
  - split; [intros [= <-]; constructor|by intros ->%Forall2_nil_inv_l].
  - destruct (find_special_file w F src) as [p|e] eqn:Hf; simpl.
    + apply find_special_file_Ok in Hf.
      destruct (resolved w src chain) as [l'|e] eqn:Hr; simpl.
      * split.
        -- intros [= <-]. constructor; [done|]. by apply IH.
        -- intros (p' & l'' & Hp & Hl & ->)%Forall2_cons_inv_l.
           apply IH in Hl. congruence.
      * split; [done|].
        intros (p' & l'' & Hp & Hl & ->)%Forall2_cons_inv_l.
        by apply IH in Hl.
    + split; [done|].
      intros (p' & l'' & Hp & Hl & ->)%Forall2_cons_inv_l.
      apply find_special_file_Ok in Hp. congruence.
Qed.

Lemma chain_files_Some (w : World) (src : Path) (n : string) (l : list Path) :
  chain_files w src n = Some l <->
  exists chain, dict_get SpecialOrderFiles n = Some chain
    /\ Forall2 (fun F p => rglob w src F = [p]) chain l.
Proof.
  unfold chain_files. destruct (dict_get SpecialOrderFiles n) as [chain|].
  - destruct (resolved w src chain) as [l'|e] eqn:Hr.
    + split.
      * intros [= <-]. exists chain. split; [done|]. by apply resolved_Ok.
      * intros (? & [= <-] & Hl). apply resolved_Ok in Hl. congruence.
    + split; [done|]. intros (? & [= <-] & Hl).
      apply resolved_Ok in Hl. congruence.
  - split; [done|]. by intros (? & ? & _).
Qed.

(** After a scan that returns, the chain recorded for a trigger of the
    tree is the list of the unique files named by its followers, in
    declared order. *)
Lemma scanned_chain (w : World) (sc : ScanState) (T : Path) (chain : list string) :
  scanned w = Ok sc ->
  T ∈ rglob w ["src"] "*.pnml" ->
  dict_get SpecialOrderFiles (name T) = Some chain ->
  exists l, special_files sc !! name T = Some l
    /\ Forall2 (fun F p => rglob w ["src"] F = [p]) chain l.
Proof.
  intros [Hres ->]%scanned_Ok HT Hg.
  assert (is_trigger (name T) = true) as Ht by (unfold is_trigger; by rewrite Hg).
  destruct (Hres T HT Ht) as [l Hl]. exists l.
  rewrite scan_special_files, Ht, bool_decide_eq_true_2, Hl.
  2:{ by apply list_elem_of_fmap_2. }
  split; [done|].
  apply chain_files_Some in Hl as (chain' & Hg' & Hl). congruence.
Qed.

(** ** Groups, companions and what is pending *)

Lemma plan_filter (sc : ScanState) (fl : list Path) (tf : gmap string Path) :
  plan sc (filter (fun f => name f ∉ in_chain sc) fl) tf = plan sc fl tf.
Proof.
  revert tf. induction fl as [|f fl IH]; intros tf; [done|].
  rewrite filter_cons. simpl.
  destruct (decide (name f ∈ in_chain sc)) as [Hf|Hf].
  - rewrite decide_False by (intros Hn; by apply Hn).
    rewrite bool_decide_eq_true_2 by done. apply IH.
  - rewrite decide_True by done. simpl.
    rewrite bool_decide_eq_false_2 by done. by rewrite IH.
Qed.

Lemma pending_end_filter (sc : ScanState) (fl : list Path) (tf : gmap string Path) :
  pending_end sc (filter (fun f => name f ∉ in_chain sc) fl) tf
  = pending_end sc fl tf.
Proof.
  revert tf. induction fl as [|f fl IH]; intros tf; [done|].
  rewrite filter_cons. simpl.
  destruct (decide (name f ∈ in_chain sc)) as [Hf|Hf].
  - rewrite decide_False by (intros Hn; by apply Hn).
    rewrite bool_decide_eq_true_2 by done. apply IH.
  - rewrite decide_True by done. simpl.
    rewrite bool_decide_eq_false_2 by done. by rewrite IH.
Qed.

(** The group of a fragment that is reached with [pre] before it. *)
Lemma plan_split (sc : ScanState) (pre post : list Path) (f : Path)
    (tf : gmap string Path) :
  name f ∉ in_chain sc ->
  plan sc (pre ++ f :: post) tf
  = plan sc pre tf
    ++ group_of sc (pending_end sc pre tf) f
    :: plan sc post (pending_after (pending_end sc pre tf) f).
Proof.
  intros Hf. rewrite plan_app. simpl. by rewrite bool_decide_eq_false_2.
Qed.

Lemma pending_after_lookup (tf : gmap string Path) (f : Path) (k : string) (c : Path) :
  pending_after tf f !! k = Some c -> tf !! k = Some c.
Proof.
  unfold pending_after. destruct (steam f); [|done].
  by intros [_ ?]%lookup_delete_Some.
Qed.

(** Nothing is ever added to the pending companions. *)
Lemma pending_end_lookup (sc : ScanState) (fl : list Path) (tf : gmap string Path)
    (k : string) (c : Path) :
  pending_end sc fl tf !! k = Some c -> tf !! k = Some c.
Proof.
  revert tf. induction fl as [|f fl IH]; intros tf; simpl; [done|].
  case_bool_decide; [apply IH|].
  intros Hp%IH. by eapply pending_after_lookup.
Qed.

(** A companion is spliced from the pending map, under the key of its
    primary, and is no longer pending afterwards. *)
Lemma plan_companion (sc : ScanState) (fl : list Path) (tf : gmap string Path)
    (g : Group) (c : Path) :
  g ∈ plan sc fl tf -> companion g = Some c ->
  steam (primary g) = true
  /\ tf !! company (primary g) = Some c
  /\ pending_end sc fl tf !! company (primary g) = None.
Proof.
  revert tf. induction fl as [|f fl IH]; intros tf; simpl.
  { by intros ?%elem_of_nil. }
  case_bool_decide; [apply IH|].
  intros [->|Hg]%elem_of_cons Hc.
  - simpl in *. destruct (steam f) eqn:Hs; [|done]. split_and!; [done..|].
    destruct (pending_end sc fl (pending_after tf f) !! company f) as [c'|] eqn:Hp;
      [|done].
    apply pending_end_lookup in Hp. unfold pending_after in Hp.
    rewrite Hs in Hp. by rewrite lookup_delete_eq in Hp.
  - destruct (IH _ Hg Hc) as (Hs & Hl & Hp). split_and!; [done| |done].
    by eapply pending_after_lookup.
Qed.

Lemma plan_chained (sc : ScanState) (fl : list Path) (tf : gmap string Path)
    (g : Group) :
  g ∈ plan sc fl tf ->
  primary g ∈ fl /\ (name (primary g) ∉ in_chain sc)
  /\ chained g = if is_trigger (name (primary g))
                 then default [] (special_files sc !! name (primary g)) else [].
Proof.
  revert tf. induction fl as [|f fl IH]; intros tf; simpl.
  { by intros ?%elem_of_nil. }
  case_bool_decide as Hf.
  - intros (? & ? & ?)%IH. split_and!; [by right|done..].
  - intros [->|(? & ? & ?)%IH]%elem_of_cons.
    + simpl. split_and!; [by left|done..].
    + split_and!; [by right|done..].
Qed.

(** The companions the scan registers are tender-class files of the
    tree, each under the key of its own stem. *)
Lemma foldl_insert_lookup (l : list Path) (m : gmap string Path)
    (k : string) (c : Path) :
  foldl (fun m f => <[ company f := f ]> m) m l !! k = Some c ->
  m !! k = Some c \/ (c ∈ l /\ company c = k).
Proof.
  revert m. induction l as [|f l IH]; intros m; simpl; [by left|].
  intros [Hm|[Hc Hk]]%IH.
  - apply lookup_insert_Some in Hm as [[<- <-]|[_ Hm]]; [|by left].
    right. split; [by left|done].
  - right. split; [by right|done].
Qed.

Lemma scanned_tender (w : World) (sc : ScanState) (k : string) (c : Path) :
  scanned w = Ok sc -> tender_files sc !! k = Some c ->
  c ∈ rglob w ["src"] "*.pnml" /\ classify ["src"] c = CTender /\ company c = k.
Proof.
  intros [_ ->]%scanned_Ok. rewrite scan_tender_files. simpl.
  intros [Hm|[[Hcl Hc]%list_elem_of_filter Hk]]%foldl_insert_lookup; [|done].
  by rewrite lookup_empty in Hm.
Qed.

(** The class of the files the two loops visit. *)
Lemma visited_class (w : World) (sc : ScanState) (f : Path) :
  scanned w = Ok sc -> f ∈ visit_order sc ->
  f ∈ rglob w ["src"] "*.pnml" /\ classify ["src"] f <> CTender.
Proof.
  intros [_ ->]%scanned_Ok. unfold visit_order.
  rewrite !elem_of_app, !elem_of_sorted.
  rewrite scan_Top_level, scan_Priority, scan_Append. simpl.
  intros [Hf|[Hf|[Hf|Hf]]].
  - apply list_elem_of_filter in Hf as [[Hc _] ?]. split; [done|congruence].
  - apply list_elem_of_filter in Hf as [Hc ?]. split; [done|congruence].
  - apply scan_Normal_elem in Hf as [Hf|[? [Hc _]]].
    + by apply elem_of_nil in Hf.
    + split; [done|congruence].
  - apply list_elem_of_filter in Hf as [Hc ?]. split; [done|congruence].
Qed.

Lemma marked_followers (fl : list Path) (n : string) :
  n ∈ marked fl -> n ∈ all_followers.
Proof.
  unfold marked. rewrite elem_of_list_to_set, elem_of_flat_map.
  intros (f & _ & Hn). unfold chain_of in Hn.
  destruct (dict_get SpecialOrderFiles (name f)) as [chain|] eqn:Hg; simpl in Hn.
  - by eapply chain_in_followers.
  - by apply elem_of_nil in Hn.
Qed.

Lemma marked_chain (fl : list Path) (T : Path) (chain : list string) (F : string) :
  T ∈ fl -> dict_get SpecialOrderFiles (name T) = Some chain -> F ∈ chain ->
  F ∈ marked fl.
Proof.
  intros HT Hg HF. unfold marked. rewrite elem_of_list_to_set, elem_of_flat_map.
  exists T. split; [done|]. unfold chain_of. by rewrite Hg.
Qed.

Lemma scanned_in_chain (w : World) (sc : ScanState) :
  scanned w = Ok sc -> in_chain sc = marked (rglob w ["src"] "*.pnml").
Proof.
  intros [_ ->]%scanned_Ok. rewrite scan_in_chain. simpl.
  by rewrite (left_id_L ∅ (∪)).
Qed.

Lemma classify_tender (src : Path) (f : Path) :
  classify src f = CTender -> contains "Tenders" (stem f) = true.
Proof.
  unfold classify. repeat case_match; congruence.
Qed.

(** A trigger of the tree is visited by the loops and is not skipped. *)
Lemma trigger_visited (w : World) (sc : ScanState) (T : Path) :
  scanned w = Ok sc -> T ∈ rglob w ["src"] "*.pnml" ->
  is_trigger (name T) = true ->
  T ∈ visit_order sc /\ (name T ∉ in_chain sc).
Proof.
  intros Hsc HT Ht.
  assert (name T ∉ in_chain sc) as Hnot.
  { rewrite (scanned_in_chain w sc Hsc). intros Hm%marked_followers.
    by eapply trigger_not_follower. }
  split; [|done].
  pose proof (trigger_not_key _ Ht) as Hkey.
  pose proof (trigger_not_tender _ Ht) as Hten.
  apply scanned_Ok in Hsc as [_ Hfold].
  unfold visit_order. rewrite !elem_of_app, !elem_of_sorted.
  destruct (classify ["src"] T) eqn:Hc.
  - left. rewrite Hfold, scan_Top_level. simpl.
    apply list_elem_of_filter. by split.
  - right; left. rewrite Hfold, scan_Priority. simpl.
    apply list_elem_of_filter. by split.
  - do 3 right. rewrite Hfold, scan_Append. simpl.
    apply list_elem_of_filter. by split.
  - apply classify_tender in Hc. unfold stem in Hc. congruence.
  - right; right; left.
    assert (T ∈ filter (fun f => name f ∉ in_chain sc) (Normal (pnml_files sc)))
      as HN; [|by apply list_elem_of_filter in HN as [_ ?]].
    pose proof (scan_Normal w ["src"] (rglob w ["src"] "*.pnml") scan_init
                  (in_chain sc)) as HNf.
    rewrite <- Hfold in HNf. rewrite HNf by done. simpl.
    apply list_elem_of_filter. split; [|done]. by split.
Qed.

Lemma adjacent_in_app (a b : Path) (X Y : list Path) :
  adjacent_in a b (X ++ a :: b :: Y) = true.
Proof.
  induction X as [|x X IH]; simpl.
  - by rewrite !bool_decide_eq_true_2 by done.
  - destruct (X ++ a :: b :: Y) as [|y t] eqn:Ht.
    + by destruct X.
    + rewrite IH. apply orb_true_r.
Qed.

Lemma render_cons (w : World) (p : Path) (l : list Path) :
  render w (p :: l) = block w p +:+ render w l.
Proof. reflexivity. Qed.

Lemma filter_none {A} (P : A -> Prop) `{!forall x, Decision (P x)} (l : list A) :
  (forall x, x ∈ l -> ~ P x) -> filter P l = [].
Proof.
  induction l as [|x l IH]; intros Hall; [done|].
  rewrite filter_cons_False by (apply Hall; by left).
  apply IH. intros y Hy. apply Hall. by right.
Qed.

Lemma key_paths_class (p : Path) :
  p ∈ key_paths ["src"] -> classify ["src"] p = CTop.
Proof.
  unfold key_paths. intros (k & -> & _)%list_elem_of_fmap. reflexivity.
Qed.

(** The files of a recorded chain carry follower names, and these are
    marked in-chain. *)
Lemma scanned_chain_names (w : World) (sc : ScanState) (n : string)
    (l : list Path) (p : Path) :
  scanned w = Ok sc -> special_files sc !! n = Some l -> p ∈ l ->
  name p ∈ in_chain sc.
Proof.
  intros Hsc Hl Hp. rewrite (scanned_in_chain w sc Hsc).
  apply scanned_Ok in Hsc as [_ ->]. rewrite scan_special_files in Hl.
  destruct (bool_decide (n ∈ name <$> rglob w ["src"] "*.pnml") && is_trigger n)
    eqn:Hn; [|cbn [scan_init special_files] in Hl; by rewrite lookup_empty in Hl].
  apply andb_prop in Hn as [Hin Ht]. apply bool_decide_eq_true in Hin.
  apply list_elem_of_fmap in Hin as (T & -> & HT).
  injection Hl as <-.
  destruct (chain_files w ["src"] (name T)) as [l|] eqn:Hcf; simpl in Hp;
    [|by apply elem_of_nil in Hp].
  apply chain_files_Some in Hcf as (chain & Hg & Hres).
  apply list_elem_of_lookup in Hp as [i Hi].
  destruct (Forall2_lookup_r _ _ _ _ _ Hres Hi) as (F & HF & Hm).
  apply list_elem_of_lookup_2 in HF.
  assert (p ∈ rglob w ["src"] F) as Hpm by (rewrite Hm; by left).
  rewrite rglob_literal in Hpm by by eapply chain_in_followers.
  apply list_elem_of_filter in Hpm as [[_ ->] _].
  by eapply marked_chain.
Qed.

(** The files of a recorded chain are the unique matches of follower
    names. *)
Lemma scanned_chain_elem (w : World) (sc : ScanState) (n : string)
    (l : list Path) (p : Path) :
  scanned w = Ok sc -> special_files sc !! n = Some l -> p ∈ l ->
  exists F, F ∈ all_followers /\ rglob w ["src"] F = [p].
Proof.
  intros [_ ->]%scanned_Ok Hl Hp. rewrite scan_special_files in Hl.
  destruct (bool_decide (n ∈ name <$> rglob w ["src"] "*.pnml") && is_trigger n)
    eqn:Hn; [|cbn [scan_init special_files] in Hl; by rewrite lookup_empty in Hl].
  injection Hl as <-.
  destruct (chain_files w ["src"] n) as [l|] eqn:Hcf; simpl in Hp;
    [|by apply elem_of_nil in Hp].
  apply chain_files_Some in Hcf as (chain & Hg & Hres).
  apply list_elem_of_lookup in Hp as [i Hi].
  destruct (Forall2_lookup_r _ _ _ _ _ Hres Hi) as (F & HF & Hm).
  apply list_elem_of_lookup_2 in HF.
  exists F. split; [by eapply chain_in_followers|done].
Qed.

(** Every file of a group is a fragment of the tree. *)
Lemma groups_from_tree (w : World) (sc : ScanState) (p : Path) :
  scanned w = Ok sc -> p ∈ flat_map blocks_of (groups sc) ->
  p ∈ rglob w ["src"] "*.pnml".
Proof.
  intros Hsc (g & Hg & Hp)%elem_of_flat_map.
  unfold blocks_of in Hp. apply elem_of_app in Hp as [Hp|Hp].
  - destruct (companion g) as [c|] eqn:Hc; [|by apply elem_of_nil in Hp].
    apply list_elem_of_singleton in Hp as ->.
    destruct (plan_companion _ _ _ _ _ Hg Hc) as (_ & Htf & _).
    by destruct (scanned_tender w sc _ _ Hsc Htf) as (? & _).
  - destruct (plan_chained _ _ _ _ Hg) as (Hv & _ & Hch).
    apply elem_of_cons in Hp as [->|Hp].
    + by destruct (visited_class w sc _ Hsc Hv) as [? _].
    + rewrite Hch in Hp.
      destruct (is_trigger (name (primary g))); [|by apply elem_of_nil in Hp].
      destruct (special_files sc !! name (primary g)) as [l|] eqn:Hl;
        simpl in Hp; [|by apply elem_of_nil in Hp].
      destruct (scanned_chain_elem w sc _ _ _ Hsc Hl Hp) as (F & HF & Hm).
      assert (p ∈ rglob w ["src"] F) as Hin by (rewrite Hm; by left).
      rewrite rglob_literal in Hin by done.
      apply list_elem_of_filter in Hin as [[Hu Hn] Hfiles].
      apply rglob_elem. split_and!; [done..|].
      rewrite Hn. by apply follower_is_pnml.
Qed.



(** The fragments the loops reach and do not skip, tier by tier. *)
Lemma visited_unmarked (w : World) (sc : ScanState) :
  scanned w = Ok sc ->
  filter (fun f => name f ∉ in_chain sc) (visit_order sc)
  = sorted (unmarked (in_chain sc) (top_file ["src"]) (rglob w ["src"] "*.pnml"))
    ++ sorted (unmarked (in_chain sc) (fun f => classify ["src"] f = CPriority)
                        (rglob w ["src"] "*.pnml"))
    ++ sorted (unmarked (in_chain sc) (normal_file ["src"])
                        (rglob w ["src"] "*.pnml"))
    ++ sorted (unmarked (in_chain sc) (fun f => classify ["src"] f = CAppend)
                        (rglob w ["src"] "*.pnml")).
Proof.
  intros [_ Hfold]%scanned_Ok.
  set (fl := rglob w ["src"] "*.pnml") in *.
  unfold visit_order, unmarked. rewrite !filter_app, !filter_sorted.
  pose proof (scan_Normal w ["src"] fl scan_init (in_chain sc)) as HN.
  rewrite <- Hfold in HN. rewrite HN by done.
  assert (Top_level (pnml_files sc) = filter (top_file ["src"]) fl) as ->
    by (rewrite Hfold; by rewrite scan_Top_level).
  assert (Priority (pnml_files sc)
          = filter (fun f => classify ["src"] f = CPriority) fl) as ->
    by (rewrite Hfold; by rewrite scan_Priority).
  assert (Append (pnml_files sc)
          = filter (fun f => classify ["src"] f = CAppend) fl) as ->
    by (rewrite Hfold; by rewrite scan_Append).
  cbn [scan_init pnml_files Normal]. rewrite filter_nil, app_nil_l.
  rewrite !list_filter_filter.
  rewrite (list_filter_iff (fun f => normal_file ["src"] f /\ name f ∉ in_chain sc)
             (fun f => (name f ∉ in_chain sc) /\ normal_file ["src"] f))
    by naive_solver.
  done.
Qed.

Lemma primaries_unmarked (w : World) (sc : ScanState) (f : Path) :
  scanned w = Ok sc ->
  f ∈ primary <$> groups sc <->
  f ∈ rglob w ["src"] "*.pnml" /\ (name f ∉ in_chain sc)
  /\ (top_file ["src"] f \/ classify ["src"] f = CPriority
      \/ normal_file ["src"] f \/ classify ["src"] f = CAppend).
Proof.
  intros Hsc. unfold groups.
  rewrite plan_primaries, (visited_unmarked w sc Hsc). unfold unmarked.
  rewrite !elem_of_app, !elem_of_sorted, !list_elem_of_filter. naive_solver.
Qed.

Lemma top_level_path (f : Path) :
  under ["src"] f = true -> classify ["src"] f = CTop -> f = ["src"; name f].
Proof.
  unfold under, classify. intros [Hlen Ht%bool_decide_eq_true]%andb_prop.
  destruct f as [|x [|y [|z f]]]; cbn in *; try done.
  - intros _. injection Ht as ->. done.
  - repeat case_match; done.
Qed.

Lemma occurrences_app (f : Path) (l1 l2 : list Path) :
  occurrences f (l1 ++ l2) = occurrences f l1 + occurrences f l2.
Proof. unfold occurrences. by rewrite filter_app, length_app. Qed.

Lemma occurrences_notin (f : Path) (l : list Path) :
  f ∉ l -> occurrences f l = 0.
Proof.
  intros Hf. unfold occurrences. rewrite filter_none; [done|].
  intros x Hx ->. done.
Qed.

Lemma occurrences_NoDup (f : Path) (l : list Path) :
  NoDup l -> f ∈ l -> occurrences f l = 1.
Proof.
  induction 1 as [|x l Hx Hl IH]; [by intros ?%elem_of_nil|].
  change (x :: l) with ([x] ++ l). rewrite occurrences_app.
  intros [->|Hf]%elem_of_cons.
  - rewrite (occurrences_notin _ l) by done. unfold occurrences.
    by rewrite filter_cons_True.
  - rewrite IH by done. unfold occurrences.
    rewrite filter_cons_False; [done|]. by intros ->.
Qed.

(** A file that is no companion and no chain member is copied where it
    is a primary, and nowhere else. *)
Lemma occurrences_blocks (f : Path) (gs : list Group) :
  (forall g, g ∈ gs -> companion g <> Some f /\ f ∉ chained g) ->
  occurrences f (flat_map blocks_of gs) = occurrences f (primary <$> gs).
Proof.
  induction gs as [|g gs IH]; intros Hall; [done|].
  cbn [flat_map]. rewrite fmap_cons.
  change (primary g :: (primary <$> gs)) with ([primary g] ++ (primary <$> gs)).
  rewrite !occurrences_app, IH by (intros g' Hg'; apply Hall; by right).
  f_equal. destruct (Hall g) as [Hc Hch]; [by left|].
  unfold blocks_of.
  change (primary g :: chained g) with ([primary g] ++ chained g).
  rewrite !occurrences_app, (occurrences_notin f (chained g)) by done.
  rewrite (occurrences_notin f (match companion g with Some c => [c] | None => [] end)).
  - lia.
  - destruct (companion g) as [c|]; [|by intros ?%elem_of_nil].
    intros ->%list_elem_of_singleton. done.
Qed.

Lemma primaries_NoDup (w : World) (sc : ScanState) :
  NoDup (tree w).*1 -> scanned w = Ok sc -> NoDup (primary <$> groups sc).
Proof.
  intros Hnd Hsc. unfold groups.
  rewrite plan_primaries, (visited_unmarked w sc Hsc). unfold unmarked.
  assert (NoDup (rglob w ["src"] "*.pnml")) as Hfl by by apply rglob_NoDup.
  repeat (apply NoDup_app; split_and!;
          [ rewrite sorted_Permutation; by apply NoDup_filter
          | intros x; rewrite ?elem_of_app, ?elem_of_sorted, ?list_elem_of_filter;
            unfold top_file, normal_file; naive_solver congruence
          | ]).
  rewrite sorted_Permutation. by apply NoDup_filter.
Qed.

Lemma key_paths_NoDup : NoDup (key_paths ["src"]).
Proof. apply (bool_decide_unpack _). by vm_compute. Qed.

Lemma key_paths_under (p : Path) : p ∈ key_paths ["src"] -> under ["src"] p = true.
Proof. unfold key_paths. by intros (k & -> & _)%list_elem_of_fmap. Qed.


(** ** Two walks of one tree *)

Lemma node_at_same_tree (w1 w2 : World) (x : Path) :
  same_tree w1 w2 -> NoDup (tree w1).*1 -> node_at w1 x = node_at w2 x.
Proof.
  intros (Hc & _ & Hp) Hnd. unfold node_at. rewrite Hc.
  by rewrite (read_fs_perm (tree w1) (tree w2)).
Qed.

Lemma stat_same_tree (w1 w2 : World) (p : Path) :
  same_tree w1 w2 -> NoDup (tree w1).*1 -> stat w1 p = stat w2 p.
Proof.
  intros Hs Hnd. apply stat_ext; [by destruct Hs|].
  intros x. by apply node_at_same_tree.
Qed.

Lemma read_same_tree (w1 w2 : World) (p : Path) :
  same_tree w1 w2 -> NoDup (tree w1).*1 -> read w1 p = read w2 p.
Proof. intros Hs Hnd. unfold read. by rewrite (stat_same_tree w1 w2). Qed.

Lemma exists_same_tree (w1 w2 : World) (p : Path) :
  same_tree w1 w2 -> NoDup (tree w1).*1 -> exists_ w1 p = exists_ w2 p.
Proof. intros Hs Hnd. unfold exists_. by rewrite (stat_same_tree w1 w2). Qed.

Lemma rglob_same_tree (w1 w2 : World) (d : Path) (pat : string) :
  same_tree w1 w2 -> rglob w1 d pat ≡ₚ rglob w2 d pat.
Proof.
  intros (Hc & _ & Hp). unfold rglob, entries. by rewrite Hc, Hp.
Qed.

Lemma render_ext (w1 w2 : World) (l : list Path) :
  (forall p, p ∈ l -> read w1 p = read w2 p) -> render w1 l = render w2 l.
Proof.
  induction l as [|p l IH]; intros Hr; simpl; [done|].
  unfold block. rewrite IH, (Hr p); [done|by left|].
  intros q Hq. apply Hr. by right.
Qed.

Lemma render_same_tree (w1 w2 : World) (l : list Path) :
  (forall p, read w1 p = read w2 p) -> render w1 l = render w2 l.
Proof. intros Hr. apply render_ext. intros p _. apply Hr. Qed.

Lemma check_key_files_ext (w1 w2 : World) (src : Path)
    (items : list (string * string)) (log : list string) :
  (forall k, k ∈ items.*1 -> exists_ w1 (src ++ [k]) = exists_ w2 (src ++ [k])) ->
  check_key_files w1 src items log = check_key_files w2 src items log.
Proof.
  revert log. induction items as [|[file error] items IH];
    intros log Hr; simpl; [done|].
  rewrite (Hr file) by by left.
  assert (forall k, k ∈ items.*1 ->
            exists_ w1 (src ++ [k]) = exists_ w2 (src ++ [k])) as Hr'
    by (intros k Hk; apply Hr; by right).
  destruct (exists_ w2 (src ++ [file])); simpl; [by apply IH|].
  destruct (String.eqb file "grf.pnml" || String.eqb file "railtypes.pnml");
    [done|by apply IH].
Qed.

Lemma check_project_structure_ext (w1 w2 : World) (s g l : Path) :
  exists_ w1 s = exists_ w2 s -> exists_ w1 g = exists_ w2 g ->
  exists_ w1 l = exists_ w2 l ->
  (forall k, k ∈ KeyFiles.*1 -> exists_ w1 (s ++ [k]) = exists_ w2 (s ++ [k])) ->
  check_project_structure w1 s g l = check_project_structure w2 s g l.
Proof.
  intros Hs Hg Hl Hk. unfold check_project_structure. rewrite Hs, Hg, Hl.
  destruct (exists_ w2 s); cbn [negb]; [|done].
  destruct (exists_ w2 g); cbn [negb]; [|done].
  destruct (exists_ w2 l); cbn [negb]; cbv beta iota zeta;
    by rewrite (check_key_files_ext w1 w2).
Qed.

Lemma chain_files_same_tree (w1 w2 : World) (src : Path) (n : string) :
  same_tree w1 w2 -> chain_files w1 src n = chain_files w2 src n.
Proof.
  intros Hp. apply option_eq. intros l. rewrite !chain_files_Some.
  split; intros (chain & Hg & Hl); exists chain; (split; [done|]);
    eapply Forall2_impl; try done; simpl; intros F p Hm.
  - apply Permutation_singleton_r. rewrite <- Hm.
    symmetry. by apply rglob_same_tree.
  - apply Permutation_singleton_r. rewrite <- Hm.
    by apply rglob_same_tree.
Qed.

Lemma marked_perm (fl1 fl2 : list Path) : fl1 ≡ₚ fl2 -> marked fl1 = marked fl2.
Proof. intros Hp. unfold marked. by rewrite Hp. Qed.

Lemma foldl_insert_keep (l : list Path) (m : gmap string Path) (k : string) :
  k ∉ company <$> l ->
  foldl (fun m f => <[ company f := f ]> m) m l !! k = m !! k.
Proof.
  revert m. induction l as [|f l IH]; intros m Hk; simpl; [done|].
  rewrite fmap_cons, not_elem_of_cons in Hk. destruct Hk as [Hne Hk].
  rewrite IH by done. by rewrite lookup_insert_ne.
Qed.

Lemma foldl_insert_distinct (l : list Path) (m : gmap string Path) (c : Path) :
  (forall f g, f ∈ l -> g ∈ l -> company f = company g -> f = g) ->
  c ∈ l ->
  foldl (fun m f => <[ company f := f ]> m) m l !! company c = Some c.
Proof.
  revert m. induction l as [|f l IH]; intros m Hd Hc; simpl.
  { by apply elem_of_nil in Hc. }
  destruct (decide (c ∈ l)) as [Hin|Hnin].
  - apply IH; [|done]. intros x y Hx Hy. apply Hd; by right.
  - apply elem_of_cons in Hc as [->|?]; [|done].
    rewrite foldl_insert_keep; [by rewrite lookup_insert_eq|].
    intros (g & Hk & Hg)%list_elem_of_fmap.
    assert (f = g) as -> by (apply Hd; [by left|by right|done]). done.
Qed.

(** With distinct prefix keys the pending map does not depend on the
    order in which the companions were met. *)
Lemma tender_files_perm (w1 w2 : World) (src : Path) (fl1 fl2 : list Path) :
  fl1 ≡ₚ fl2 ->
  (forall f g, f ∈ fl1 -> g ∈ fl1 ->
     classify src f = CTender -> classify src g = CTender ->
     company f = company g -> f = g) ->
  tender_files (foldl (scan_step w1 src) scan_init fl1)
  = tender_files (foldl (scan_step w2 src) scan_init fl2).
Proof.
  intros Hp Hd. rewrite !scan_tender_files. simpl.
  set (t1 := filter (fun f => classify src f = CTender) fl1).
  set (t2 := filter (fun f => classify src f = CTender) fl2).
  assert (t1 ≡ₚ t2) as Ht by (unfold t1, t2; by rewrite Hp).
  assert (forall f g, f ∈ t1 -> g ∈ t1 -> company f = company g -> f = g) as Hd1.
  { intros f g [? ?]%list_elem_of_filter [? ?]%list_elem_of_filter. by apply Hd. }
  assert (forall f g, f ∈ t2 -> g ∈ t2 -> company f = company g -> f = g) as Hd2.
  { intros f g Hf Hg. rewrite <- Ht in Hf, Hg. by apply Hd1. }
  apply map_eq. intros k. apply option_eq. intros c. split.
  - intros [Hm|[Hc <-]]%foldl_insert_lookup; [by rewrite lookup_empty in Hm|].
    apply foldl_insert_distinct; [done|]. by rewrite <- Ht.
  - intros [Hm|[Hc <-]]%foldl_insert_lookup; [by rewrite lookup_empty in Hm|].
    apply foldl_insert_distinct; [done|]. by rewrite Ht.
Qed.

Lemma plan_ext (sc sc' : ScanState) (fl : list Path) (tf : gmap string Path) :
  in_chain sc = in_chain sc' -> special_files sc = special_files sc' ->
  plan sc fl tf = plan sc' fl tf.
Proof.
  intros Hic Hsf. revert tf. induction fl as [|f fl IH]; intros tf; simpl; [done|].
  rewrite Hic, IH. unfold group_of. by rewrite Hsf, IH.
Qed.

Lemma special_files_perm (w1 w2 : World) (src : Path) (fl1 fl2 : list Path) :
  same_tree w1 w2 -> fl1 ≡ₚ fl2 ->
  special_files (foldl (scan_step w1 src) scan_init fl1)
  = special_files (foldl (scan_step w2 src) scan_init fl2).
Proof.
  intros Hw Hp. apply map_eq. intros n. rewrite !scan_special_files.
  rewrite (chain_files_same_tree w1 w2) by done.
  assert (bool_decide (n ∈ name <$> fl1) = bool_decide (n ∈ name <$> fl2)) as ->;
    [|done].
  apply bool_decide_ext. by rewrite Hp.
Qed.

(** The fragments the loops emit, in order, do not depend on the walk. *)
Lemma visited_perm (w1 w2 : World) (src : Path) (fl1 fl2 : list Path) :
  fl1 ≡ₚ fl2 ->
  let sc1 := foldl (scan_step w1 src) scan_init fl1 in
  let sc2 := foldl (scan_step w2 src) scan_init fl2 in
  filter (fun f => name f ∉ in_chain sc1) (visit_order sc1)
  = filter (fun f => name f ∉ in_chain sc2) (visit_order sc2).
Proof.
  intros Hp sc1 sc2.
  assert (in_chain sc1 = in_chain sc2) as Hic.
  { unfold sc1, sc2. rewrite !scan_in_chain. by rewrite (marked_perm _ _ Hp). }
  unfold visit_order. rewrite !filter_app, !filter_sorted.
  pose proof (scan_Normal w1 src fl1 scan_init (in_chain sc1)) as HN1.
  pose proof (scan_Normal w2 src fl2 scan_init (in_chain sc2)) as HN2.
  fold sc1 in HN1. fold sc2 in HN2. rewrite HN1, HN2 by done.
  assert (Top_level (pnml_files sc1) = filter (top_file src) fl1) as ->
    by (unfold sc1; by rewrite scan_Top_level).
  assert (Top_level (pnml_files sc2) = filter (top_file src) fl2) as ->
    by (unfold sc2; by rewrite scan_Top_level).
  assert (Priority (pnml_files sc1)
          = filter (fun f => classify src f = CPriority) fl1) as ->
    by (unfold sc1; by rewrite scan_Priority).
  assert (Priority (pnml_files sc2)
          = filter (fun f => classify src f = CPriority) fl2) as ->
    by (unfold sc2; by rewrite scan_Priority).
  assert (Append (pnml_files sc1)
          = filter (fun f => classify src f = CAppend) fl1) as ->
    by (unfold sc1; by rewrite scan_Append).
  assert (Append (pnml_files sc2)
          = filter (fun f => classify src f = CAppend) fl2) as ->
    by (unfold sc2; by rewrite scan_Append).
  rewrite Hic. cbn [scan_init pnml_files Normal]. rewrite !filter_nil, !app_nil_l.
  f_equal; [|f_equal; [|f_equal]]; apply sorted_perm; by rewrite Hp.
Qed.

Lemma groups_perm (w1 w2 : World) (fl1 fl2 : list Path) :
  same_tree w1 w2 -> fl1 ≡ₚ fl2 ->
  tender_files (foldl (scan_step w1 ["src"]) scan_init fl1)
  = tender_files (foldl (scan_step w2 ["src"]) scan_init fl2) ->
  groups (foldl (scan_step w1 ["src"]) scan_init fl1)
  = groups (foldl (scan_step w2 ["src"]) scan_init fl2).
Proof.
  intros Hw Hp Htf. unfold groups.
  rewrite <- (plan_filter (foldl (scan_step w1 ["src"]) scan_init fl1)).
  rewrite <- (plan_filter (foldl (scan_step w2 ["src"]) scan_init fl2)).
  rewrite (visited_perm w1 w2 ["src"] fl1 fl2 Hp), Htf.
  apply plan_ext.
  - rewrite !scan_in_chain. by rewrite (marked_perm _ _ Hp).
  - by apply special_files_perm.
Qed.

Lemma valid_tree_agree (w1 w2 : World) :
  valid_tree w1 -> same_tree w1 w2 -> walks_agree w1 w2.
Proof.
  intros [Hnd Hd] Hs. split.
  - intros p. by apply read_same_tree.
  - apply tender_files_perm; [by apply rglob_same_tree|done].
Qed.

Lemma assemble_same_tree (w1 w2 : World) (buf : string) :
  same_tree w1 w2 -> walks_agree w1 w2 ->
  assemble w1 ["src"] = Ok buf -> assemble w2 ["src"] = Ok buf.
Proof.
  intros Hs [Hr Htf].
  pose proof (rglob_same_tree w1 w2 ["src"] "*.pnml" Hs) as Hfl.
  rewrite !assemble_Ok.
  intros (sc1 & [Hres ->]%(scan_Ok _ _ _ _ _ triggers_unmarked_init) & Hread & ->).
  exists (foldl (scan_step w2 ["src"]) scan_init (rglob w2 ["src"] "*.pnml")).
  assert (emission ["src"]
            (foldl (scan_step w2 ["src"]) scan_init (rglob w2 ["src"] "*.pnml"))
          = emission ["src"]
              (foldl (scan_step w1 ["src"]) scan_init (rglob w1 ["src"] "*.pnml")))
    as ->.
  { unfold emission. f_equal. f_equal. symmetry. by apply groups_perm. }
  split_and!.
  - apply scan_Ok; [apply triggers_unmarked_init|]. split; [|done].
    intros f Hf Ht. rewrite <- (chain_files_same_tree w1 w2) by done.
    apply Hres; [|done]. by rewrite Hfl.
  - eapply Forall_impl; [done|]. simpl. intros p Hp.
    by rewrite <- Hr.
  - apply render_same_tree. intros p. by apply Hr.
Qed.

(** What [write_file] does depends on what is at the paths, not on the
    order of the walk. *)
Lemma write_file_outcome_ext (w1 w2 : World) (n buf : string) :
  cwd w1 = cwd w2 -> file_limit w1 = file_limit w2 ->
  (forall x, node_at w1 x = node_at w2 x) ->
  (write_file n buf w1).2 = (write_file n buf w2).2.
Proof.
  intros Hc Hl Hx. rewrite !write_file_eq.
  assert (exists_ w1 ["build"] = exists_ w2 ["build"]) as He
    by (unfold exists_; by rewrite (stat_ext w1 w2)).
  assert (open_w (with_build w1) (artifact n) = open_w (with_build w2) (artifact n))
    as ->.
  { apply open_w_ext; [by rewrite !with_build_cwd|].
    intros x. by rewrite !node_at_with_build, He, Hc, Hx. }
  rewrite Hl. by destruct (open_w (with_build w2) (artifact n)).
Qed.

(** ** Two file systems with the same sources *)

Lemma copy_chain_ext (w1 w2 : World) (l : list Path) (nml_file : string) :
  (forall p, p ∈ l -> stat w1 p = stat w2 p) ->
  copy_chain w1 l nml_file = copy_chain w2 l nml_file.
Proof.
  revert nml_file. induction l as [|p l IH]; intros nml_file Hall; [done|].
  cbn [copy_chain]. unfold copy_file, exists_, read. rewrite (Hall p) by by left.
  destruct (stat w2 p) as [[|t]|]; cbn [negb bind]; try done.
  apply IH. intros q Hq. apply Hall. by right.
Qed.

Section SourceTree.

(** Two file systems in which the searches of the scan find the same
    entries in the same order. *)
Variables w1 w2 : World.
Hypothesis Hglob :
  forall pat, scan_pattern pat -> rglob w1 ["src"] pat = rglob w2 ["src"] pat.

Lemma find_special_file_agree (filename : string) :
  filename ∈ all_followers ->
  find_special_file w1 filename ["src"] = find_special_file w2 filename ["src"].
Proof. intros HF. unfold find_special_file. rewrite Hglob; [done|by right]. Qed.

Lemma resolve_chain_agree (chain : list string) (ic : gset string)
    (file_chain : list Path) :
  Forall (fun F => F ∈ all_followers) chain ->
  resolve_chain w1 ["src"] chain ic file_chain
  = resolve_chain w2 ["src"] chain ic file_chain.
Proof.
  revert ic file_chain. induction chain as [|cf chain IH]; intros ic fc Hall;
    [done|].
  apply Forall_cons in Hall as [Hcf Hall].
  cbn [resolve_chain]. rewrite find_special_file_agree by done.
  destruct (find_special_file w2 cf ["src"]); cbn [bind]; [by apply IH|done].
Qed.

Lemma scan_agree (fl : list Path) (st : ScanState) :
  scan w1 ["src"] fl st = scan w2 ["src"] fl st.
Proof.
  revert st. induction fl as [|file fl IH]; intros st; [done|].
  cbn [scan]. unfold scan_file, scan_chain.
  destruct (dict_get SpecialOrderFiles (file_name file)) as [chain|] eqn:Hg;
    cbn [bind]; [|apply IH].
  case_bool_decide; cbn [bind]; [apply IH|].
  rewrite resolve_chain_agree.
  2:{ apply Forall_forall. intros F HF. by eapply chain_in_followers. }
  destruct (resolve_chain w2 ["src"] _ _ _); cbn [bind]; [apply IH|done].
Qed.

Lemma scanned_agree : scanned w1 = scanned w2.
Proof. unfold scanned. rewrite Hglob by by left. apply scan_agree. Qed.

(** The buffers agree when the two file systems agree on the required
    files and on the fragments the walk finds. *)
Lemma assemble_agree :
  (forall p, p ∈ key_paths ["src"] \/ p ∈ rglob w2 ["src"] "*.pnml" ->
             stat w1 p = stat w2 p) ->
  assemble w1 ["src"] = assemble w2 ["src"].
Proof.
  intros Hstat. rewrite !assemble_emission.
  rewrite (copy_chain_ext w1 w2 (key_paths ["src"]))
    by (intros p Hp; apply Hstat; by left).
  destruct (copy_chain w2 (key_paths ["src"]) "") as [nml|]; cbn [bind]; [|done].
  fold (scanned w1) (scanned w2). rewrite scanned_agree.
  destruct (scanned w2) as [sc|] eqn:Hsc; cbn [bind]; [|done].
  apply copy_chain_ext. intros p Hp. apply Hstat. right.
  by apply (groups_from_tree w2 sc p Hsc).
Qed.

(** A buffer assembled on the first is assembled on the second when the
    files that were read read the same. *)
Lemma assemble_transfer (buf : string) :
  (forall p t, p ∈ key_paths ["src"] \/ p ∈ rglob w1 ["src"] "*.pnml" ->
               read w1 p = Some t -> read w2 p = Some t) ->
  assemble w1 ["src"] = Ok buf -> assemble w2 ["src"] = Ok buf.
Proof.
  intros Hread. rewrite !assemble_Ok. fold (scanned w1) (scanned w2).
  rewrite <- scanned_agree.
  intros (sc & Hsc & Hr & ->). exists sc. split; [done|].
  assert (forall p, p ∈ emission ["src"] sc ->
            p ∈ key_paths ["src"] \/ p ∈ rglob w1 ["src"] "*.pnml") as Hem.
  { intros p [?|?]%elem_of_app; [by left|right].
    by apply (groups_from_tree w1 sc p Hsc). }
  rewrite Forall_forall in Hr. split.
  - apply Forall_forall. intros p Hp. destruct (Hr p Hp) as [t Ht].
    exists t. apply Hread; [by apply Hem|done].
  - apply render_ext. intros p Hp. destruct (Hr p Hp) as [t Ht].
    rewrite Ht. symmetry. apply Hread; [by apply Hem|done].
Qed.

End SourceTree.

(** * The claims of the specification *)

(** ** Required fragments *)

(** C1. On a tree that holds only [grf.pnml] and [railtypes.pnml] the
    validator logs the three warnings and returns, but the run does not
    continue to completion: the loop of lines 238-239 copies every entry
    of [KeyFiles], [copy_file] raises [FileNotFoundError] at
    [src/sounds.pnml], and no artifact is written. *)
Theorem missing_optional_fragment_aborts :
  check_project_structure minimal_tree ["src"] ["gfx"] ["lang"]
  = (drop 2 KeyFiles.*2, Ok true)
  /\ main default_args minimal_tree
     = mkRun (drop 2 KeyFiles.*2)
             (Err (FileNotFoundError "The file <src/sounds.pnml> does not exist."))
             minimal_tree.
Proof. split; vm_compute; reflexivity. Qed.

(** The same holds on every tree: an entry of [KeyFiles] that cannot be
    read makes [main] raise, whatever the validator decided. *)
Lemma absent_key_file_aborts (a : Args) (w : World) (k : string) :
  k ∈ KeyFiles.*1 -> read w ["src"; k] = None ->
  exists e, outcome (main a w) = Err e /\ world (main a w) = w.
Proof.
  intros Hk Hr. apply main_unassembled.
  intros buf (sc & _ & Hread & _)%assemble_Ok.
  rewrite Forall_forall in Hread.
  destruct (Hread ["src"; k]) as [t Ht]; [|congruence].
  unfold emission. apply elem_of_app. left.
  unfold key_paths. apply list_elem_of_fmap. by exists k.
Qed.

(** C2. [main] receives the three directory arguments and never reads
    them: lines 227-229 bind the literals. A complete project kept under
    [pack/] and built with [--src pack] aborts because [src] is missing,
    although the same files under [src/] build. *)
Theorem directory_overrides_ignored :
  main relocated_args relocated_tree
  = mkRun [] (Err (FileNotFoundError
                     (dq +:+ "src" +:+ dq +:+ " directory not found.  Aborting")))
          relocated_tree
  /\ outcome (main default_args complete_tree) = Ok ().
Proof. split; vm_compute; reflexivity. Qed.

Lemma main_ignores_directories (n s l g : string) (c r : bool) (w : World) :
  main (mkArgs n s l g c r) w = main (mkArgs n "src" "lang" "gfx" c r) w.
Proof. reflexivity. Qed.

(** C7. A file named like a required fragment is kept out of the
    Top-level and Normal tiers only. Under [src/priority/] it is placed in
    the Priority tier and its block is emitted there, after the required
    blocks. *)
Theorem key_named_file_in_priority_tier :
  in_KeyFiles "sounds.pnml" = true
  /\ (sc <- scanned shadowed_tree ;;
      Ok (Priority (pnml_files sc), emission ["src"] sc))
     = Ok ([["src"; "priority"; "sounds.pnml"]],
           key_paths ["src"] ++ [["src"; "priority"; "sounds.pnml"]])
  /\ outcome (main default_args shadowed_tree) = Ok ()
  /\ read (world (main default_args shadowed_tree)) (artifact "brtrains")
     = Some (render shadowed_tree
               (key_paths ["src"] ++ [["src"; "priority"; "sounds.pnml"]])).
Proof. split_and!; vm_compute; reflexivity. Qed.

(** ** The writer *)





(** The three ways in which a run ends. *)
Lemma main_cases (a : Args) (w : World) :
  ((exists e, outcome (main a w) = Err e) /\ world (main a w) = w
   /\ forall buf, assemble w ["src"] <> Ok buf
                  \/ exists e, (check_project_structure w ["src"] ["gfx"] ["lang"]).2
                               = Err e)
  \/ exists buf,
       (exists b, (check_project_structure w ["src"] ["gfx"] ["lang"]).2 = Ok b)
       /\ assemble w ["src"] = Ok buf
       /\ outcome (main a w) = (write_file (grf_name a) buf w).2
       /\ world (main a w) = (write_file (grf_name a) buf w).1.
Proof.
  rewrite main_eq.
  destruct (check_project_structure w ["src"] ["gfx"] ["lang"]) as [log [hl|e]];
    cbn [snd].
  - destruct (assemble w ["src"]) as [buf|e].
    + right. exists buf. split_and!; [by eexists|done..].
    + left. split_and!; [by eexists|done|]. intros buf. by left.
  - left. split_and!; [by eexists|done|]. intros buf. right. by eexists.
Qed.




(** The other way in which the writer raises: a name with a directory
    that [build] does not hold. [build] has been made, nothing is written. *)
Example writer_raises_after_makedirs :
  main (mkArgs "out/brtrains" "src" "lang" "gfx" false false) complete_tree
  = mkRun [] (Err (OSError ENOENT ["build"; "out"; "brtrains.nml"]))
          (add_dir complete_tree ["build"]).
Proof. vm_compute. reflexivity. Qed.

(** And a name that leads out of [build]: the artifact is written below
    [src]. *)
Example writer_follows_dots :
  artifact "../src/x" = ["build"; ".."; "src"; "x.nml"]
  /\ outcome (main (mkArgs "../src/x" "src" "lang" "gfx" false false) complete_tree)
     = Ok ()
  /\ is_Some (read (world (main (mkArgs "../src/x" "src" "lang" "gfx" false false)
                             complete_tree))
                   ["src"; "x.nml"]).
Proof.
  split_and!; [vm_compute; reflexivity..|].
  apply (bool_decide_unpack _). vm_compute. reflexivity.
Qed.

(** ** The order of the buffer *)



(** ** Chains *)

(** C8. A follower name matches the files of that exact name anywhere
    below [src]; [find_special_file] returns the match when there is
    exactly one, raises [FileNotFoundError] when there is none and
    [RuntimeError] when there are several. When a trigger is in the tree
    and one of its followers does not resolve to one file, the run raises
    and leaves the file system untouched; when the run returns, the
    chain recorded for the trigger lists the resolved files in declared
    order. *)
Theorem chain_members_resolve_uniquely
    (a : Args) (w : World) (T : Path) (chain : list string) :
  T ∈ rglob w ["src"] "*.pnml" ->
  dict_get SpecialOrderFiles (name T) = Some chain ->
  (forall F, F ∈ chain ->
     rglob w ["src"] F
     = filter (fun p => under ["src"] p = true /\ name p = F) (entries w).*1
     /\ match rglob w ["src"] F with
        | [] => find_special_file w F ["src"]
                = Err (FileNotFoundError ("No file named '" +:+ F +:+ "' found"))
        | [p] => find_special_file w F ["src"] = Ok p
        | ms => find_special_file w F ["src"] = Err (RuntimeError F ms)
        end)
  /\ ((exists F, F ∈ chain /\ length (rglob w ["src"] F) <> 1) ->
      exists e, outcome (main a w) = Err e /\ world (main a w) = w)
  /\ (outcome (main a w) = Ok () ->
      exists sc l, scanned w = Ok sc
        /\ special_files sc !! name T = Some l
        /\ Forall2 (fun F p => rglob w ["src"] F = [p]) chain l).
Proof.
  intros HT Hg. split_and!.
  - intros F HF. split.
    + apply rglob_literal. by eapply chain_in_followers.
    + unfold find_special_file. by destruct (rglob w ["src"] F) as [|? [|? ?]].
  - intros (F & HF & Hlen). apply main_unassembled.
    intros buf (sc & Hsc & _)%assemble_Ok.
    destruct (scanned_chain w sc T chain Hsc HT Hg) as (l & _ & Hl).
    apply list_elem_of_lookup in HF as [i Hi].
    destruct (Forall2_lookup_l _ _ _ _ _ Hl Hi) as (p & _ & Hp).
    by rewrite Hp in Hlen.
  - intros (sc & Hsc & _)%main_emission.
    destruct (scanned_chain w sc T chain Hsc HT Hg) as (l & ? & ?).
    by exists sc, l.
Qed.

Lemma chain_members_resolve_uniquely_witness :
  (["src"; "Wagons"; "Containers_BR.pnml"] ∈ rglob small_tree ["src"] "*.pnml"
   /\ ["src"; "Wagons"; "Containers_BR.pnml"] ∈ rglob duplicate_tree ["src"] "*.pnml"
   /\ dict_get SpecialOrderFiles (name ["src"; "Wagons"; "Containers_BR.pnml"])
      = Some ["BR_Conflat_A.pnml"; "BR_Conflat_P.pnml"])
  /\ (exists sc l, scanned small_tree = Ok sc
        /\ special_files sc !! name ["src"; "Wagons"; "Containers_BR.pnml"] = Some l
        /\ Forall2 (fun F p => rglob small_tree ["src"] F = [p])
                   ["BR_Conflat_A.pnml"; "BR_Conflat_P.pnml"] l)
  /\ (exists e, outcome (main default_args duplicate_tree) = Err e
        /\ world (main default_args duplicate_tree) = duplicate_tree).
Proof.
  assert (["src"; "Wagons"; "Containers_BR.pnml"]
          ∈ rglob small_tree ["src"] "*.pnml") as HT.
  { apply (bool_decide_unpack _). vm_compute. reflexivity. }
  assert (["src"; "Wagons"; "Containers_BR.pnml"]
          ∈ rglob duplicate_tree ["src"] "*.pnml") as HT'.
  { apply (bool_decide_unpack _). vm_compute. reflexivity. }
  assert (dict_get SpecialOrderFiles (name ["src"; "Wagons"; "Containers_BR.pnml"])
          = Some ["BR_Conflat_A.pnml"; "BR_Conflat_P.pnml"]) as Hg
    by (vm_compute; reflexivity).
  split; [by split_and!|]. split.
  - apply (chain_members_resolve_uniquely default_args small_tree _ _ HT Hg).
    vm_compute. reflexivity.
  - apply (chain_members_resolve_uniquely default_args duplicate_tree _ _ HT' Hg).
    exists "BR_Conflat_P.pnml". split.
    + apply (bool_decide_unpack _). vm_compute. reflexivity.
    + vm_compute. discriminate.
Defined.

(** The scenario of the specification: a follower present in two
    subdirectories. *)
Example duplicated_follower_aborts :
  main default_args duplicate_tree
  = mkRun [] (Err (RuntimeError "BR_Conflat_P.pnml"
                     [ ["src"; "Wagons"; "BR_Conflat_P.pnml"];
                       ["src"; "Old"; "BR_Conflat_P.pnml"] ]))
          duplicate_tree.
Proof. vm_compute. reflexivity. Qed.

(** Three facts of the two tables: a required fragment is no follower, a
    follower is declared in one chain, and once in it. *)
Lemma key_not_follower (k : string) : k ∈ KeyFiles.*1 -> k ∉ all_followers.
Proof.
  intros Hk.
  assert (Forall (fun k => k ∉ all_followers) KeyFiles.*1) as Hall.
  { apply (bool_decide_unpack _). by vm_compute. }
  by eapply Forall_forall in Hall.
Qed.

Lemma follower_one_chain (n1 n2 : string) (c1 c2 : list string) (F : string) :
  dict_get SpecialOrderFiles n1 = Some c1 ->
  dict_get SpecialOrderFiles n2 = Some c2 ->
  F ∈ c1 -> F ∈ c2 -> n1 = n2.
Proof.
  intros H1%dict_get_elem H2%dict_get_elem HF1 HF2.
  assert (Forall (fun e1 : string * list string =>
            Forall (fun e2 : string * list string =>
              Forall (fun F => F ∈ e2.2 -> e1.1 = e2.1) e1.2)
              SpecialOrderFiles) SpecialOrderFiles) as Hall.
  { apply (bool_decide_unpack _). by vm_compute. }
  rewrite Forall_forall in Hall. specialize (Hall _ H1).
  rewrite Forall_forall in Hall. specialize (Hall _ H2).
  rewrite Forall_forall in Hall. by apply (Hall F).
Qed.

Lemma chain_NoDup (n : string) (chain : list string) :
  dict_get SpecialOrderFiles n = Some chain -> NoDup chain.
Proof.
  intros H%dict_get_elem.
  assert (Forall (fun e : string * list string => NoDup e.2) SpecialOrderFiles)
    as Hall.
  { apply (bool_decide_unpack _). by vm_compute. }
  rewrite Forall_forall in Hall. by apply (Hall _ H).
Qed.

(** The files of a chain that resolves are as distinct as their names. *)
Lemma resolved_NoDup (w : World) (chain : list string) (l : list Path) :
  (forall F, F ∈ chain -> F ∈ all_followers) -> NoDup chain ->
  Forall2 (fun F p => rglob w ["src"] F = [p]) chain l ->
  NoDup l /\ forall p, p ∈ l -> name p ∈ chain.
Proof.
  intros Hfol Hnd Hres.
  assert (chain = name <$> l) as ->.
  { clear Hnd. induction Hres as [|F p chain l Hp _ IH]; [done|].
    assert (p ∈ rglob w ["src"] F) as Hin by (rewrite Hp; by left).
    rewrite rglob_literal in Hin by (apply Hfol; by left).
    apply list_elem_of_filter in Hin as [[_ <-] _].
    rewrite fmap_cons. f_equal. apply IH. intros F' HF'. apply Hfol. by right. }
  split.
  - by eapply NoDup_fmap_1.
  - intros p Hp. by apply list_elem_of_fmap_2.
Qed.

(** A recorded chain belongs to a trigger of the tree, and its files are
    named by the followers this trigger declares. *)
Lemma scanned_chain_trigger (w : World) (sc : ScanState) (n : string)
    (l : list Path) (p : Path) :
  scanned w = Ok sc -> special_files sc !! n = Some l -> p ∈ l ->
  exists chain, dict_get SpecialOrderFiles n = Some chain /\ name p ∈ chain.
Proof.
  intros [_ ->]%scanned_Ok Hl Hp. rewrite scan_special_files in Hl.
  destruct (bool_decide (n ∈ name <$> rglob w ["src"] "*.pnml") && is_trigger n)
    eqn:Hn; [|cbn [scan_init special_files] in Hl; by rewrite lookup_empty in Hl].
  injection Hl as <-.
  destruct (chain_files w ["src"] n) as [l|] eqn:Hcf; simpl in Hp;
    [|by apply elem_of_nil in Hp].
  apply chain_files_Some in Hcf as (chain & Hg & Hres).
  exists chain. split; [done|].
  eapply resolved_NoDup; [| |exact Hres|exact Hp].
  - intros F HF. by eapply chain_in_followers.
  - by eapply chain_NoDup.
Qed.

(** Where a file of the chain of [T] can stand in a group: as the
    companion, when it is a [Tenders] file, or in the chain of a file
    that is named like [T]. *)
Lemma follower_in_group (w : World) (sc : ScanState) (T : Path)
    (chain : list string) (F : Path) (g : Group) :
  scanned w = Ok sc ->
  dict_get SpecialOrderFiles (name T) = Some chain ->
  T ∈ rglob w ["src"] "*.pnml" ->
  name F ∈ chain -> g ∈ groups sc ->
  primary g <> F
  /\ (companion g = Some F -> classify ["src"] F = CTender)
  /\ (F ∈ chained g -> name (primary g) = name T).
Proof.
  intros Hsc Hg HT HF Hin. split_and!.
  - intros <-. apply plan_chained in Hin as (_ & Hnot & _). apply Hnot.
    rewrite (scanned_in_chain w sc Hsc). by eapply marked_chain.
  - intros Hc. destruct (plan_companion _ _ _ _ _ Hin Hc) as (_ & Htf & _).
    by destruct (scanned_tender w sc _ _ Hsc Htf) as (_ & ? & _).
  - intros Hch. apply plan_chained in Hin as (_ & _ & Heq).
    rewrite Heq in Hch.
    destruct (is_trigger (name (primary g))); [|by apply elem_of_nil in Hch].
    destruct (special_files sc !! name (primary g)) as [l'|] eqn:Hl';
      simpl in Hch; [|by apply elem_of_nil in Hch].
    destruct (scanned_chain_trigger w sc _ l' F Hsc Hl' Hch) as (chain' & Hg' & HF').
    by eapply follower_one_chain.
Qed.

(** C3, as the script has it. In a run that returns, every follower of a
    trigger [T] of the tree resolves to one file, each block of [T] is
    immediately followed by the blocks of its followers in declared
    order, and no file named like one of these followers is emitted at a
    tier position of its own: it may sit in a tier list, the loop skips
    it. The file of a follower is no required fragment and no primary;
    it is spliced in as a companion only when it is a [Tenders] file,
    and it stands in a chain only after a file named like [T]. So, on a
    file system, where no path is listed twice, and where no second file
    carries the name of [T], a follower that is no [Tenders] file has
    exactly one block in the output, the one in the chain of [T]. *)
Theorem chain_splicing (a : Args) (w : World) (T : Path) (chain : list string) :
  outcome (main a w) = Ok () ->
  T ∈ rglob w ["src"] "*.pnml" ->
  dict_get SpecialOrderFiles (name T) = Some chain ->
  exists sc l,
    scanned w = Ok sc
    /\ read (world (main a w)) (artifact (grf_name a))
       = Some (render w (emission ["src"] sc))
    /\ Forall2 (fun F p => rglob w ["src"] F = [p]) chain l
    /\ (exists X Y, emission ["src"] sc = X ++ T :: l ++ Y)
    /\ (forall g, g ∈ groups sc -> name (primary g) = name T -> chained g = l)
    /\ (forall g, g ∈ groups sc -> name (primary g) ∉ chain)
    /\ (forall F, F ∈ l ->
          (F ∉ key_paths ["src"])
          /\ forall g, g ∈ groups sc ->
               primary g <> F
               /\ (companion g = Some F -> classify ["src"] F = CTender)
               /\ (F ∈ chained g -> name (primary g) = name T))
    /\ (NoDup (tree w).*1 ->
        (forall T', T' ∈ rglob w ["src"] "*.pnml" -> name T' = name T -> T' = T) ->
        forall F, F ∈ l -> classify ["src"] F <> CTender ->
          occurrences F (emission ["src"] sc) = 1).
Proof.
  intros (sc & Hsc & _ & Hart)%main_emission HT Hg.
  destruct (scanned_chain w sc T chain Hsc HT Hg) as (l & Hl & Hres).
  assert (is_trigger (name T) = true) as Ht by (unfold is_trigger; by rewrite Hg).
  destruct (resolved_NoDup w chain l) as [Hndl Hnames]; [|by eapply chain_NoDup|done|].
  { intros F HF. by eapply chain_in_followers. }
  assert (forall F, F ∈ l -> F ∉ key_paths ["src"]) as Hkey.
  { intros F HF Hk. unfold key_paths in Hk.
    apply list_elem_of_fmap in Hk as (k & -> & Hk).
    apply (key_not_follower k Hk). eapply chain_in_followers; [done|].
    exact (Hnames _ HF). }
  destruct (trigger_visited w sc T Hsc HT Ht) as [Hv Hnot].
  exists sc, l. split_and!; [done..| | | | |].
  - apply list_elem_of_split in Hv as (pre & post & Hv).
    unfold emission, groups. rewrite Hv, plan_split by done.
    rewrite flat_map_app. cbn [flat_map]. unfold blocks_of at 2.
    cbn [companion primary chained group_of]. rewrite Ht, Hl. cbn [default].
    set (before := match (if steam T
                          then pending_end sc pre (tender_files sc) !! company T
                          else None)
                   with Some c => [c] | None => [] end).
    exists (key_paths ["src"]
            ++ flat_map blocks_of (plan sc pre (tender_files sc)) ++ before).
    eexists. rewrite <- !(assoc_L (++)). reflexivity.
  - intros g (_ & _ & Hch)%plan_chained Hn. rewrite Hch, Hn, Ht, Hl. done.
  - intros g (_ & Hnot' & _)%plan_chained HF. apply Hnot'.
    rewrite (scanned_in_chain w sc Hsc). by eapply marked_chain.
  - intros F HF. split; [by apply Hkey|].
    intros g Hin. eapply follower_in_group; eauto.
  - intros Hnd Huniq F HF Hcl.
    assert (T ∈ primary <$> groups sc) as HTp.
    { apply (primaries_unmarked w sc T Hsc).
      apply (visited_class w sc T Hsc) in Hv as Hv'. destruct Hv' as [_ Hc].
      split_and!; [done..|].
      unfold top_file, normal_file.
      pose proof (trigger_not_key _ Ht) as Hk.
      destruct (classify ["src"] T); naive_solver. }
    apply list_elem_of_fmap in HTp as (g0 & HT0 & Hg0).
    apply list_elem_of_split in Hg0 as (gpre & gpost & Hgs).
    pose proof (primaries_NoDup w sc Hnd Hsc) as Hpnd.
    rewrite Hgs, fmap_app, fmap_cons in Hpnd.
    apply NoDup_app in Hpnd as (_ & Hpre & Hpost).
    apply NoDup_cons in Hpost as [Hpost _].
    assert (forall gs, gs ⊆ groups sc -> (primary g0 ∉ primary <$> gs) ->
              occurrences F (flat_map blocks_of gs) = 0) as Hnone.
    { intros gs Hsub Hno. apply occurrences_notin.
      intros (g & Hgin & Hb)%elem_of_flat_map.
      destruct (follower_in_group w sc T chain F g Hsc Hg HT (Hnames _ HF)
                  (Hsub _ Hgin)) as (Hp & Hc & Hch).
      unfold blocks_of in Hb. rewrite elem_of_app, elem_of_cons in Hb.
      destruct Hb as [Hb|[Hb|Hb]].
      - destruct (companion g) as [c|]; [|by apply elem_of_nil in Hb].
        apply list_elem_of_singleton in Hb as ->. by apply Hcl, Hc.
      - done.
      - apply Hno. apply list_elem_of_fmap. exists g. split; [|done].
        rewrite <- HT0. symmetry. apply Huniq; [|by apply Hch].
        apply (primaries_unmarked w sc (primary g) Hsc).
        apply list_elem_of_fmap. exists g. split; [done|by apply Hsub]. }
    unfold emission. rewrite occurrences_app, (occurrences_notin F (key_paths _))
      by by apply Hkey.
    rewrite Hgs, flat_map_app, occurrences_app. cbn [flat_map].
    rewrite occurrences_app, !Hnone.
    + destruct (follower_in_group w sc T chain F g0 Hsc Hg HT (Hnames _ HF))
        as (Hp & Hc & _).
      { rewrite Hgs. apply elem_of_app. right. by left. }
      unfold blocks_of.
      change (primary g0 :: chained g0) with ([primary g0] ++ chained g0).
      rewrite !occurrences_app.
      rewrite (occurrences_notin F (match companion g0 with
                                    | Some c => [c] | None => [] end)).
      2:{ destruct (companion g0) as [c|]; [|by intros ?%elem_of_nil].
          intros ->%list_elem_of_singleton. by apply Hcl, Hc. }
      rewrite (occurrences_notin F [primary g0]).
      2:{ by intros ->%list_elem_of_singleton. }
      assert (chained g0 = l) as ->.
      { assert (g0 ∈ groups sc) as Hin0
          by (rewrite Hgs; apply elem_of_app; right; by left).
        apply plan_chained in Hin0 as (_ & _ & Hch).
        by rewrite Hch, <- HT0, Ht, Hl. }
      by rewrite (occurrences_NoDup F l).
    + intros g Hgin. rewrite Hgs. apply elem_of_app. right. by right.
    + intros Hin. by apply Hpost.
    + intros g Hgin. rewrite Hgs. apply elem_of_app. by left.
    + intros Hin. apply (Hpre (primary g0)); [done|by left].
Qed.

Lemma chain_splicing_witness :
  (outcome (main default_args small_tree) = Ok ()
   /\ ["src"; "Wagons"; "Containers_BR.pnml"] ∈ rglob small_tree ["src"] "*.pnml"
   /\ dict_get SpecialOrderFiles (name ["src"; "Wagons"; "Containers_BR.pnml"])
      = Some ["BR_Conflat_A.pnml"; "BR_Conflat_P.pnml"])
  /\ exists sc l,
       scanned small_tree = Ok sc
       /\ l = [ ["src"; "Wagons"; "BR_Conflat_A.pnml"];
                ["src"; "Wagons"; "flat"; "BR_Conflat_P.pnml"] ]
       /\ (exists X Y, emission ["src"] sc
                       = X ++ ["src"; "Wagons"; "Containers_BR.pnml"] :: l ++ Y)
       /\ (forall g, g ∈ groups sc ->
             name (primary g) ∉ ["BR_Conflat_A.pnml"; "BR_Conflat_P.pnml"])
       /\ (forall F, F ∈ l -> occurrences F (emission ["src"] sc) = 1).
Proof.
  assert (outcome (main default_args small_tree) = Ok ()) as Hok
    by (vm_compute; reflexivity).
  assert (["src"; "Wagons"; "Containers_BR.pnml"]
          ∈ rglob small_tree ["src"] "*.pnml") as HT.
  { apply (bool_decide_unpack _). vm_compute. reflexivity. }
  assert (dict_get SpecialOrderFiles (name ["src"; "Wagons"; "Containers_BR.pnml"])
          = Some ["BR_Conflat_A.pnml"; "BR_Conflat_P.pnml"]) as Hg
    by (vm_compute; reflexivity).
  split; [by split_and!|].
  destruct (chain_splicing default_args small_tree _ _ Hok HT Hg)
    as (sc & l & Hsc & _ & Hl & Hem & _ & Hno & _ & Honce).
  exists sc, l.
  assert (l = [ ["src"; "Wagons"; "BR_Conflat_A.pnml"];
                ["src"; "Wagons"; "flat"; "BR_Conflat_P.pnml"] ]) as Hleq.
  { apply Forall2_cons_inv_l in Hl as (p1 & l1 & H1 & Hl & ->).
    apply Forall2_cons_inv_l in Hl as (p2 & l2 & H2 & Hl & ->).
    apply Forall2_nil_inv_l in Hl as ->.
    vm_compute in H1. vm_compute in H2.
    injection H1 as <-. injection H2 as <-. reflexivity. }
  split_and!; [exact Hsc|exact Hleq|exact Hem|exact Hno|].
  intros F HF. apply Honce.
  - apply (bool_decide_unpack _). vm_compute. reflexivity.
  - assert (Forall (fun T' => name T' = name ["src"; "Wagons"; "Containers_BR.pnml"]
                              -> T' = ["src"; "Wagons"; "Containers_BR.pnml"])
                   (rglob small_tree ["src"] "*.pnml")) as Hall.
    { apply (bool_decide_unpack _). vm_compute. reflexivity. }
    intros T' HT'. rewrite Forall_forall in Hall. by apply Hall.
  - exact HF.
  - rewrite Hleq in HF.
    assert (Forall (fun F => classify ["src"] F <> CTender)
                   [ ["src"; "Wagons"; "BR_Conflat_A.pnml"];
                     ["src"; "Wagons"; "flat"; "BR_Conflat_P.pnml"] ]) as Hall.
    { apply (bool_decide_unpack _). vm_compute. reflexivity. }
    rewrite Forall_forall in Hall. by apply Hall.
Defined.

(** The sentence of C3 that fails: a follower whose trigger is not in the
    tree is an ordinary fragment, placed in the Normal tier. *)
Lemma follower_without_trigger_is_tiered :
  ~ (forall (w : World) (sc : ScanState) (f : Path),
       scanned w = Ok sc -> name f ∈ all_followers ->
       f ∉ Top_level (pnml_files sc) ++ Priority (pnml_files sc)
           ++ Normal (pnml_files sc) ++ Append (pnml_files sc)).
Proof.
  intros H.
  destruct (scanned orphan_tree) as [sc|e] eqn:Hsc; [|by vm_compute in Hsc].
  apply (H orphan_tree sc ["src"; "Wagons"; "BR_Conflat_A.pnml"] Hsc).
  - apply (bool_decide_unpack _). vm_compute. reflexivity.
  - assert (Normal (pnml_files sc) = [["src"; "Wagons"; "BR_Conflat_A.pnml"]])
      as ->.
    { vm_compute in Hsc. by injection Hsc as <-. }
    rewrite !elem_of_app, list_elem_of_singleton. auto.
Qed.

(** With one more Midland engine in the tree the tender file is emitted
    twice: as the companion of that engine and as a follower of the
    [LMS_4F.pnml] chain. The splice of lines 305-310 does not look at
    [in_chain]. *)
Example tender_follower_emitted_twice :
  (sc <- scanned midland_tree ;; Ok (emission ["src"] sc))
  = Ok (key_paths ["src"] ++
        [ ["src"; "Locomotive_Steam"; "LMS_4F.pnml"];
          ["src"; "Tenders"; "MR_Tenders.pnml"];
          ["src"; "Locomotive_Steam"; "MR_3835.pnml"];
          ["src"; "Locomotive_Steam"; "LMS_Fowler_2P.pnml"];
          ["src"; "Locomotive_Steam"; "LMS_Fowler_4P.pnml"];
          ["src"; "Tenders"; "MR_Tenders.pnml"];
          ["src"; "Locomotive_Steam"; "MR_1F.pnml"] ]).
Proof. vm_compute. reflexivity. Qed.

(** With two files named like a trigger the chain is spliced in after
    each of them: its followers are emitted twice. *)
Example duplicated_trigger_emits_chain_twice :
  (sc <- scanned two_triggers_tree ;; Ok (emission ["src"] sc))
  = Ok (key_paths ["src"] ++
        [ ["src"; "Old"; "Containers_BR.pnml"];
          ["src"; "Wagons"; "BR_Conflat_A.pnml"];
          ["src"; "Wagons"; "BR_Conflat_P.pnml"];
          ["src"; "Wagons"; "Containers_BR.pnml"];
          ["src"; "Wagons"; "BR_Conflat_A.pnml"];
          ["src"; "Wagons"; "BR_Conflat_P.pnml"] ])
  /\ outcome (main default_args two_triggers_tree) = Ok ().
Proof. split; vm_compute; reflexivity. Qed.

(** ** Companions *)

(** C6, as the script has it. A companion that is spliced in sits in
    no tier, shares the prefix key of its primary, which lies in the
    steam-locomotive context, and its block comes immediately before the
    block of the primary. *)
Theorem companion_precedes_primary (a : Args) (w : World) :
  outcome (main a w) = Ok () ->
  exists sc buf,
    scanned w = Ok sc
    /\ read (world (main a w)) (artifact (grf_name a)) = Some buf
    /\ forall g c, g ∈ groups sc -> companion g = Some c ->
         (c ∉ visit_order sc)
         /\ classify ["src"] c = CTender
         /\ steam (primary g) = true
         /\ company c = company (primary g)
         /\ exists X Y, buf = X +:+ block w c +:+ block w (primary g) +:+ Y.
Proof.
  intros (sc & Hsc & _ & Hart)%main_emission.
  exists sc, (render w (emission ["src"] sc)). split_and!; [done..|].
  intros g c Hg Hc.
  destruct (plan_companion _ _ _ _ _ Hg Hc) as (Hs & Htf & _).
  destruct (scanned_tender w sc _ _ Hsc Htf) as (Hfl & Hcl & Hk).
  split_and!; [|done..|].
  - intros Hv. by destruct (visited_class w sc c Hsc Hv) as [_ ?].
  - apply list_elem_of_split in Hg as (gpre & gpost & Hg).
    unfold emission. rewrite Hg, flat_map_app. cbn [flat_map].
    unfold blocks_of at 2. rewrite Hc.
    exists (render w (key_paths ["src"] ++ flat_map blocks_of gpre)),
      (render w (chained g ++ flat_map blocks_of gpost)).
    rewrite (assoc_L (++)), render_app, <- (assoc_L (++)), render_app.
    cbn [app]. by rewrite !render_cons, render_app, !app_assoc_s.
Qed.

Lemma companion_precedes_primary_witness :
  outcome (main default_args small_tree) = Ok ()
  /\ exists sc buf,
       scanned small_tree = Ok sc
       /\ read (world (main default_args small_tree)) (artifact "brtrains") = Some buf
       /\ mkGroup (Some ["src"; "Tenders"; "GWR_Tenders.pnml"])
                  ["src"; "Locomotive_Steam"; "GWR_King.pnml"] [] ∈ groups sc
       /\ exists X Y,
            buf = X +:+ block small_tree ["src"; "Tenders"; "GWR_Tenders.pnml"]
                    +:+ block small_tree ["src"; "Locomotive_Steam"; "GWR_King.pnml"]
                    +:+ Y.
Proof.
  assert (outcome (main default_args small_tree) = Ok ()) as Hok
    by (vm_compute; reflexivity).
  split; [exact Hok|].
  destruct (companion_precedes_primary default_args small_tree Hok)
    as (sc & buf & Hsc & Hart & Hall).
  exists sc, buf.
  assert (mkGroup (Some ["src"; "Tenders"; "GWR_Tenders.pnml"])
                  ["src"; "Locomotive_Steam"; "GWR_King.pnml"] [] ∈ groups sc)
    as Hg.
  { vm_compute in Hsc. injection Hsc as <-.
    apply (bool_decide_unpack _). vm_compute. reflexivity. }
  split_and!; [exact Hsc|exact Hart|exact Hg|].
  destruct (Hall _ _ Hg eq_refl) as (_ & _ & _ & _ & HXY).
  exact HXY.
Defined.

(** C6 as stated: the companion directly after its primary. In the
    example tree the tender file is emitted once, before the engine. *)
Lemma companion_not_after_primary :
  ~ (forall (w : World) (sc : ScanState) (g : Group) (c : Path),
       scanned w = Ok sc -> g ∈ groups sc -> companion g = Some c ->
       exists X Y, emission ["src"] sc = X ++ primary g :: c :: Y).
Proof.
  intros H.
  destruct (scanned small_tree) as [sc|e] eqn:Hsc; [|by vm_compute in Hsc].
  destruct (H small_tree sc
              (mkGroup (Some ["src"; "Tenders"; "GWR_Tenders.pnml"])
                       ["src"; "Locomotive_Steam"; "GWR_King.pnml"] [])
              ["src"; "Tenders"; "GWR_Tenders.pnml"] Hsc) as (X & Y & HXY).
  - vm_compute in Hsc. injection Hsc as <-.
    apply (bool_decide_unpack _). vm_compute. reflexivity.
  - reflexivity.
  - pose proof (adjacent_in_app ["src"; "Locomotive_Steam"; "GWR_King.pnml"]
                  ["src"; "Tenders"; "GWR_Tenders.pnml"] X Y) as Hadj.
    cbn [primary] in HXY. rewrite <- HXY in Hadj.
    vm_compute in Hsc. injection Hsc as <-.
    vm_compute in Hadj. discriminate.
Qed.

(** The prefix key of a stem is its text before the first underscore. *)
Lemma rsplit_0_spec (s : string) :
  exists rest, s = rsplit_0 s +:+ rest
    /\ contains "_" (rsplit_0 s) = false
    /\ (rest = "" \/ exists r, rest = "_" +:+ r).
Proof.
  induction s as [|c s (rest & Hs & Hno & Hrest)]; simpl.
  - exists "". split_and!; [done..|by left].
  - destruct (Ascii.eqb_spec c "_") as [->|Hne].
    + exists (String "_" s). split_and!; [done..|]. right. by exists s.
    + exists rest. rewrite app_String, <- Hs. split_and!; [done| |done].
      cbn [contains String.prefix]. rewrite Hno.
      destruct (ascii_dec "_" c) as [<-|_]; [done|].
      by destruct (Ascii.ascii_dec "_" c).
Qed.

(** How often a file stands in the groups when it is no primary and in
    no chain: once for every group that has it as its companion. *)
Lemma occurrences_companion (c : Path) (gs : list Group) :
  (forall g, g ∈ gs -> primary g <> c /\ c ∉ chained g) ->
  occurrences c (flat_map blocks_of gs)
  = length (filter (fun g => companion g = Some c) gs).
Proof.
  induction gs as [|g gs IH]; intros Hall; [done|].
  cbn [flat_map]. rewrite occurrences_app, IH.
  2:{ intros g' Hg'. apply Hall. by right. }
  destruct (Hall g) as [Hp Hch]; [by left|].
  unfold blocks_of.
  change (primary g :: chained g) with ([primary g] ++ chained g).
  rewrite !occurrences_app, (occurrences_notin c [primary g]),
    (occurrences_notin c (chained g)); [|done|by intros ->%list_elem_of_singleton].
  rewrite filter_cons. destruct (companion g) as [c'|] eqn:Hc.
  - destruct (decide (c' = c)) as [->|Hne].
    + rewrite decide_True by done. unfold occurrences.
      rewrite filter_cons_True by done. reflexivity.
    + rewrite decide_False by congruence.
      rewrite occurrences_notin; [done|]. by intros ->%list_elem_of_singleton.
  - rewrite decide_False by done. reflexivity.
Qed.

(** When the scan returns, the run copies the files of the emission and
    no other. *)
Lemma assemble_copies_emission (w : World) (sc : ScanState) :
  scanned w = Ok sc ->
  assemble w ["src"] = copy_chain w (emission ["src"] sc) "".
Proof.
  intros Hsc. rewrite assemble_emission. unfold scanned in Hsc.
  unfold emission. rewrite copy_chain_app.
  destruct (copy_chain w (key_paths ["src"]) "") as [nml|e]; simpl; [|done].
  by rewrite Hsc.
Qed.

(** C5, as the script has it. The prefix key of a file is the text of
    its stem before the first underscore. When the loop reaches a
    fragment of the steam-locomotive context whose prefix key has a
    pending companion, the companion has the same prefix key, it is
    emitted immediately before the fragment, it is no longer pending
    afterwards, it is spliced in as a companion exactly once in the run,
    and, unless a trigger of the tree marks its name as a follower, it
    has exactly one block in the output. A companion still pending at
    the end of the run, whose name no trigger of the tree marks as a
    follower, is not emitted; the run copies the files of the emission
    and no other, so this companion is never opened, and the buffer is
    assembled whenever the emitted files can be read. *)
Theorem companion_splicing (a : Args) (w : World) (sc : ScanState) :
  scanned w = Ok sc ->
  (forall f, exists rest,
      stem f = company f +:+ rest
      /\ contains "_" (company f) = false
      /\ (rest = "" \/ exists r, rest = "_" +:+ r))
  /\ assemble w ["src"] = copy_chain w (emission ["src"] sc) ""
  /\ (Forall (fun p => is_Some (read w p)) (emission ["src"] sc) ->
      assemble w ["src"] = Ok (render w (emission ["src"] sc)))
  /\ (outcome (main a w) = Ok () ->
      read (world (main a w)) (artifact (grf_name a))
      = Some (render w (emission ["src"] sc)))
  /\ (forall pre file post c,
        filter (fun f => name f ∉ in_chain sc) (visit_order sc)
        = pre ++ file :: post ->
        steam file = true ->
        pending_end sc pre (tender_files sc) !! company file = Some c ->
        company c = company file
        /\ (exists X Y, emission ["src"] sc = X ++ c :: file :: Y)
        /\ pending_end sc (pre ++ [file]) (tender_files sc) !! company file = None
        /\ length (filter (fun g => companion g = Some c) (groups sc)) = 1
        /\ (name c ∉ in_chain sc -> occurrences c (emission ["src"] sc) = 1))
  /\ (forall k c,
        tender_files sc !! k = Some c ->
        pending_end sc (visit_order sc) (tender_files sc) !! k = Some c ->
        name c ∉ in_chain sc ->
        c ∉ emission ["src"] sc).
Proof.
  intros Hsc. split_and!.
  - intros f. apply rsplit_0_spec.
  - by apply assemble_copies_emission.
  - intros Hread. apply assemble_Ok. by exists sc.
  - intros (sc' & Hsc' & _ & Hart)%main_emission. congruence.
  - intros pre file post c Hv Hs Hp.
    assert (name file ∉ in_chain sc) as Hnot.
    { assert (file ∈ filter (fun f => name f ∉ in_chain sc) (visit_order sc)) as Hf
        by (rewrite Hv; apply elem_of_app; right; by left).
      by apply list_elem_of_filter in Hf as [? _]. }
    assert (classify ["src"] c = CTender /\ company c = company file) as [Hcl Hkey].
    { apply pending_end_lookup in Hp.
      by destruct (scanned_tender w sc _ _ Hsc Hp) as (_ & ? & ?). }
    assert (groups sc
            = plan sc pre (tender_files sc)
              ++ group_of sc (pending_end sc pre (tender_files sc)) file
              :: plan sc post
                   (pending_after (pending_end sc pre (tender_files sc)) file))
      as Hg.
    { unfold groups. by rewrite <- plan_filter, Hv, plan_split. }
    assert (length (filter (fun g => companion g = Some c) (groups sc)) = 1)
      as Hone.
    { rewrite Hg, filter_app, filter_cons.
      rewrite (filter_none _ (plan sc pre _)).
      2:{ intros g' Hg' Hc'.
          destruct (plan_companion _ _ _ _ _ Hg' Hc') as (_ & Htf & Hnone).
          destruct (scanned_tender w sc _ _ Hsc Htf) as (_ & _ & Hk').
          rewrite <- Hk', Hkey in Hnone. congruence. }
      rewrite (filter_none _ (plan sc post _)).
      2:{ intros g' Hg' Hc'.
          destruct (plan_companion _ _ _ _ _ Hg' Hc') as (_ & Htf & _).
          pose proof Htf as Htf'.
          apply pending_after_lookup, pending_end_lookup in Htf'.
          destruct (scanned_tender w sc _ _ Hsc Htf') as (_ & _ & Hk').
          rewrite <- Hk', Hkey in Htf. unfold pending_after in Htf.
          rewrite Hs in Htf. by rewrite lookup_delete_eq in Htf. }
      rewrite decide_True; [done|]. simpl. by rewrite Hs. }
    split_and!; [done| | |done|].
    + unfold emission. rewrite Hg, flat_map_app. cbn [flat_map].
      unfold blocks_of at 2. cbn [companion primary chained group_of].
      rewrite Hs, Hp.
      exists (key_paths ["src"]
              ++ flat_map blocks_of (plan sc pre (tender_files sc))).
      eexists. rewrite <- !(assoc_L (++)). reflexivity.
    + rewrite pending_end_app. simpl. rewrite bool_decide_eq_false_2 by done.
      unfold pending_after. rewrite Hs. apply lookup_delete_eq.
    + intros Hname. unfold emission.
      rewrite occurrences_app, (occurrences_notin c (key_paths _)).
      2:{ intros Hk%key_paths_class. congruence. }
      rewrite occurrences_companion; [done|].
      intros g Hgin. destruct (plan_chained _ _ _ _ Hgin) as (Hvis & _ & Hch).
      split.
      * intros Heq. rewrite Heq in Hvis.
        by destruct (visited_class w sc _ Hsc Hvis) as [_ ?].
      * intros Hin. rewrite Hch in Hin.
        destruct (is_trigger (name (primary g))); [|by apply elem_of_nil in Hin].
        destruct (special_files sc !! name (primary g)) as [l|] eqn:Hl;
          simpl in Hin; [|by apply elem_of_nil in Hin].
        apply Hname. by eapply scanned_chain_names.
  - intros k c Htf Hend Hname Hin.
    destruct (scanned_tender w sc _ _ Hsc Htf) as (Hfl & Hcl & Hk).
    unfold emission in Hin. apply elem_of_app in Hin as [Hin|Hin].
    { apply key_paths_class in Hin. congruence. }
    apply elem_of_flat_map in Hin as (g & Hg & Hin).
    unfold blocks_of in Hin.
    apply elem_of_app in Hin as [Hin|Hin].
    + destruct (companion g) as [c'|] eqn:Hc; [|by apply elem_of_nil in Hin].
      apply list_elem_of_singleton in Hin as ->.
      destruct (plan_companion _ _ _ _ _ Hg Hc) as (_ & Htf' & Hnone).
      destruct (scanned_tender w sc _ _ Hsc Htf') as (_ & _ & Hk').
      rewrite <- Hk', Hk in Hnone. unfold groups in *. congruence.
    + destruct (plan_chained _ _ _ _ Hg) as (Hv & _ & Hch).
      apply elem_of_cons in Hin as [->|Hin].
      * by destruct (visited_class w sc _ Hsc Hv) as [_ ?].
      * rewrite Hch in Hin. destruct (is_trigger (name (primary g)));
          [|by apply elem_of_nil in Hin].
        destruct (special_files sc !! name (primary g)) as [l|] eqn:Hl;
          simpl in Hin; [|by apply elem_of_nil in Hin].
        apply Hname. by eapply scanned_chain_names.
Qed.

Lemma companion_splicing_witness :
  (exists sc,
     scanned small_tree = Ok sc
     /\ company ["src"; "Locomotive_Steam"; "GWR_King.pnml"] = "GWR"
     /\ company ["src"; "Tenders"; "GWR_Tenders.pnml"] = "GWR"
     /\ (exists X Y, emission ["src"] sc
                     = X ++ ["src"; "Tenders"; "GWR_Tenders.pnml"]
                         :: ["src"; "Locomotive_Steam"; "GWR_King.pnml"] :: Y)
     /\ length (filter (fun g => companion g
                                 = Some ["src"; "Tenders"; "GWR_Tenders.pnml"])
                       (groups sc)) = 1
     /\ occurrences ["src"; "Tenders"; "GWR_Tenders.pnml"] (emission ["src"] sc) = 1)
  /\ (exists sc,
        scanned lonely_tender_dir_tree = Ok sc
        /\ tender_files sc !! "LNER" = Some ["src"; "Tenders"; "LNER_Tenders.pnml"]
        /\ read lonely_tender_dir_tree ["src"; "Tenders"; "LNER_Tenders.pnml"] = None
        /\ (["src"; "Tenders"; "LNER_Tenders.pnml"] ∉ emission ["src"] sc)
        /\ assemble lonely_tender_dir_tree ["src"]
           = Ok (render lonely_tender_dir_tree (emission ["src"] sc))).
Proof.
  split.
  - destruct (scanned small_tree) as [sc|e] eqn:Hsc; [|by vm_compute in Hsc].
    destruct (companion_splicing default_args small_tree sc Hsc)
      as (_ & _ & _ & _ & Hmatch & _).
    exists sc. split; [reflexivity|].
    destruct (Hmatch [ ["src"; "header.pnml"]; ["src"; "priority"; "aa_first.pnml"] ]
                ["src"; "Locomotive_Steam"; "GWR_King.pnml"]
                [ ["src"; "Wagons"; "BR_Van.pnml"];
                  ["src"; "Wagons"; "Containers_BR.pnml"];
                  ["src"; "append"; "zz_last.pnml"] ]
                ["src"; "Tenders"; "GWR_Tenders.pnml"])
      as (_ & HXY & _ & Hlen & Honce).
    + vm_compute in Hsc. injection Hsc as <-. vm_compute. reflexivity.
    + vm_compute. reflexivity.
    + vm_compute in Hsc. injection Hsc as <-. vm_compute. reflexivity.
    + split_and!; [vm_compute; reflexivity..|exact HXY|exact Hlen|].
      apply Honce. vm_compute in Hsc. injection Hsc as <-.
      apply (bool_decide_unpack _). vm_compute. reflexivity.
  - destruct (scanned lonely_tender_dir_tree) as [sc|e] eqn:Hsc;
      [|by vm_compute in Hsc].
    destruct (companion_splicing default_args lonely_tender_dir_tree sc Hsc)
      as (_ & _ & Hasm & _ & _ & Hun).
    exists sc. split; [reflexivity|].
    assert (tender_files sc !! "LNER"
            = Some ["src"; "Tenders"; "LNER_Tenders.pnml"]) as Htf.
    { vm_compute in Hsc. injection Hsc as <-. vm_compute. reflexivity. }
    split_and!; [exact Htf|vm_compute; reflexivity| |].
    + apply (Hun "LNER"); [exact Htf| |].
      * vm_compute in Hsc. injection Hsc as <-. vm_compute. reflexivity.
      * vm_compute in Hsc. injection Hsc as <-.
        apply (bool_decide_unpack _). vm_compute. reflexivity.
    + apply Hasm. vm_compute in Hsc. injection Hsc as <-.
      apply (bool_decide_unpack _). vm_compute. reflexivity.
Defined.

(** The sentence of C5 that fails: [MR_Tenders.pnml] is registered as a
    companion, is still pending when the run ends, and is in the output
    all the same, as a follower of the [LMS_4F.pnml] chain. *)
Lemma unmatched_companion_in_output :
  ~ (forall (w : World) (sc : ScanState) (k : string) (c : Path),
       scanned w = Ok sc ->
       tender_files sc !! k = Some c ->
       pending_end sc (visit_order sc) (tender_files sc) !! k = Some c ->
       c ∉ emission ["src"] sc).
Proof.
  intros H.
  destruct (scanned chain_tender_tree) as [sc|e] eqn:Hsc; [|by vm_compute in Hsc].
  apply (H chain_tender_tree sc "MR" ["src"; "Tenders"; "MR_Tenders.pnml"] Hsc).
  - vm_compute in Hsc. injection Hsc as <-. vm_compute. reflexivity.
  - vm_compute in Hsc. injection Hsc as <-. vm_compute. reflexivity.
  - vm_compute in Hsc. injection Hsc as <-.
    apply (bool_decide_unpack _). vm_compute. reflexivity.
Qed.

(** A companion that is never matched is never opened: with a directory
    in the place of the tender file, which [copy_file] cannot read, the
    run returns. *)
Example unmatched_companion_never_read :
  copy_file lonely_tender_dir_tree ["src"; "Tenders"; "LNER_Tenders.pnml"] ""
  = Err (OSError EISDIR ["src"; "Tenders"; "LNER_Tenders.pnml"])
  /\ outcome (main default_args lonely_tender_dir_tree) = Ok ()
  /\ outcome (main default_args lonely_tender_tree) = Ok ().
Proof. split_and!; vm_compute; reflexivity. Qed.

(** The prefix key on some stems. *)
Example prefix_key_examples :
  company ["src"; "Locomotive_Steam"; "GWR_King_Class.pnml"] = "GWR"
  /\ company ["src"; "Tenders"; "LNER_Tenders.pnml"] = "LNER"
  /\ company ["src"; "Tenders"; "Tenders.pnml"] = "Tenders"
  /\ company ["src"; "Tenders"; "_Tenders.pnml"] = "".
Proof. split_and!; vm_compute; reflexivity. Qed.

(** ** Determinism *)

(** C10, as the script has it. On a valid tree, where no path occurs
    twice and no two companion files share a prefix key, the output does
    not depend on the order in which the walk meets the files: when the
    run returns on one walk it returns on every other, with the same
    warnings, the same buffer and the same artifact. *)
Theorem output_deterministic (a : Args) (w1 w2 : World) :
  same_tree w1 w2 -> valid_tree w1 ->
  outcome (main a w1) = Ok () ->
  outcome (main a w2) = Ok ()
  /\ logged (main a w2) = logged (main a w1)
  /\ exists buf,
       assemble w1 ["src"] = Ok buf
       /\ assemble w2 ["src"] = Ok buf
       /\ read (world (main a w1)) (artifact (grf_name a)) = Some buf
       /\ read (world (main a w2)) (artifact (grf_name a)) = Some buf.
Proof.
  intros Hsame Hvalid Hok.
  pose proof (valid_tree_agree w1 w2 Hvalid Hsame) as Hag.
  destruct Hvalid as [Hnd _].
  destruct (main_Ok a w1 Hok) as (buf & Hbuf & Hwr & Hw1).
  pose proof (assemble_same_tree w1 w2 buf Hsame Hag Hbuf) as Hbuf2.
  assert ((write_file (grf_name a) buf w2).2 = Ok ()) as Hwr2.
  { rewrite <- Hwr. symmetry. destruct Hsame as (Hcwd & Hlim & Hperm).
    apply write_file_outcome_ext; [done..|].
    intros x. by apply node_at_same_tree. }
  assert (check_project_structure w2 ["src"] ["gfx"] ["lang"]
          = check_project_structure w1 ["src"] ["gfx"] ["lang"]) as Hcheck.
  { symmetry. apply check_project_structure_ext; intros;
      by apply exists_same_tree. }
  revert Hok. rewrite (main_eq a w1), (main_eq a w2), Hcheck, Hbuf, Hbuf2.
  destruct (check_project_structure w1 ["src"] ["gfx"] ["lang"]) as [log [hl|e]];
    [|done].
  cbn [outcome logged world]. intros _. split_and!; [done..|].
  exists buf. split_and!; [done..| |]; by apply write_file_Ok_read.
Qed.

Lemma output_deterministic_witness :
  (same_tree small_tree small_tree_reversed /\ valid_tree small_tree
   /\ outcome (main default_args small_tree) = Ok ())
  /\ outcome (main default_args small_tree_reversed) = Ok ()
  /\ exists buf,
       read (world (main default_args small_tree)) (artifact "brtrains") = Some buf
       /\ read (world (main default_args small_tree_reversed)) (artifact "brtrains")
          = Some buf.
Proof.
  assert (valid_tree small_tree) as Hv.
  { split.
    - apply (bool_decide_unpack _). vm_compute. reflexivity.
    - assert (Forall (fun f => Forall (fun g =>
                classify ["src"] f = CTender -> classify ["src"] g = CTender ->
                company f = company g -> f = g)
                (rglob small_tree ["src"] "*.pnml"))
                (rglob small_tree ["src"] "*.pnml")) as Hall.
      { apply (bool_decide_unpack _). vm_compute. reflexivity. }
      intros f g Hf Hg.
      eapply Forall_forall in Hall; [|exact Hf].
      eapply Forall_forall in Hall; [|exact Hg]. exact Hall. }
  assert (same_tree small_tree small_tree_reversed) as Hs.
  { split_and!; [reflexivity..|]. symmetry. apply reverse_Permutation. }
  assert (outcome (main default_args small_tree) = Ok ()) as Hok
    by (vm_compute; reflexivity).
  split; [by split_and!|].
  destruct (output_deterministic default_args small_tree small_tree_reversed
              Hs Hv Hok) as (Hok2 & _ & buf & _ & _ & Hb1 & Hb2).
  split; [exact Hok2|]. exists buf. split; [exact Hb1|exact Hb2].
Defined.

(** C10 as stated: every tree, met in any order, gives the same bytes.
    Of two tender files of one company the one met last is the one kept
    (line 283), so the walk decides which of them is emitted: the two
    walks of a tree with [GWR_Tenders.pnml] and [GWR_Tenders_large.pnml]
    write different artifacts. *)
Lemma shared_prefix_key_depends_on_walk :
  ~ (forall (a : Args) (w1 w2 : World),
       same_tree w1 w2 -> NoDup (tree w1).*1 ->
       outcome (main a w1) = Ok () ->
       read (world (main a w1)) (artifact (grf_name a))
       = read (world (main a w2)) (artifact (grf_name a))).
Proof.
  intros H.
  specialize (H default_args two_tenders_tree two_tenders_tree_reversed).
  assert (read (world (main default_args two_tenders_tree)) (artifact "brtrains")
          <> read (world (main default_args two_tenders_tree_reversed))
                  (artifact "brtrains")) as Hne
    by (vm_compute; discriminate).
  apply Hne, H.
  - split_and!; [reflexivity..|]. symmetry. apply reverse_Permutation.
  - apply (bool_decide_unpack _). vm_compute. reflexivity.
  - vm_compute. reflexivity.
Qed.

(** Which tender file each of the two walks keeps. *)
Example last_tender_file_wins :
  (sc <- scanned two_tenders_tree ;; Ok (tender_files sc !! "GWR"))
  = Ok (Some ["src"; "Tenders"; "GWR_Tenders_large.pnml"])
  /\ (sc <- scanned two_tenders_tree_reversed ;; Ok (tender_files sc !! "GWR"))
     = Ok (Some ["src"; "Tenders"; "GWR_Tenders.pnml"]).
Proof. split; vm_compute; reflexivity. Qed.

(** * More of the script *)

(** ** The validator *)

(** Case analysis along the checks, in the order the function makes them;
    [fin] closes the cases that are settled. *)
Ltac check_step t fin := destruct t eqn:?; cbn; try solve [fin].

Ltac check_cases w s g l fin :=
  unfold check_project_structure, KeyFiles; cbn [check_key_files];
  check_step (exists_ w s) fin;
  check_step (exists_ w g) fin;
  check_step (exists_ w l) fin;
  check_step (exists_ w (s ++ ["grf.pnml"])) fin;
  check_step (exists_ w (s ++ ["railtypes.pnml"])) fin;
  check_step (exists_ w (s ++ ["sounds.pnml"])) fin;
  check_step (exists_ w (s ++ ["templates_shared.pnml"])) fin;
  check_step (exists_ w (s ++ ["templates_trains.pnml"])) fin.

Lemma check_project_structure_Ok (w : World) (s g l : Path) (b : bool) :
  (check_project_structure w s g l).2 = Ok b <->
  exists_ w s = true /\ exists_ w g = true
  /\ exists_ w (s ++ ["grf.pnml"]) = true
  /\ exists_ w (s ++ ["railtypes.pnml"]) = true
  /\ b = exists_ w l.
Proof.
  check_cases w s g l
    ltac:(split;
          [first [done | intros [= <-]; by split_and!]
          |intros (? & ? & ? & ? & ?); first [discriminate | by subst]]).
Qed.

(** X1. [check_project_structure] returns exactly when the source and
    graphics paths exist and [grf.pnml] and [railtypes.pnml] exist in
    the source directory; the value it returns tells whether the language
    path exists. A path exists, for [Path.exists], when the walk from the
    working directory reaches something, a directory or a file. Nothing
    else can make the check raise. *)
Theorem structure_check_returns (w : World) (s g l : Path) (b : bool) :
  (check_project_structure w s g l).2 = Ok b <->
  exists_ w s = true /\ exists_ w g = true
  /\ exists_ w (s ++ ["grf.pnml"]) = true
  /\ exists_ w (s ++ ["railtypes.pnml"]) = true
  /\ b = exists_ w l.
Proof. apply check_project_structure_Ok. Qed.

(** X2. When [check_project_structure] returns, it has logged the warning
    for a missing language directory, if it is missing, and then the
    message of every entry of [KeyFiles] that is absent, in declared
    order, and nothing else. *)
Theorem structure_check_warnings (w : World) (s g l : Path) (b : bool) :
  (check_project_structure w s g l).2 = Ok b ->
  (check_project_structure w s g l).1
  = lang_warnings w l
    ++ (filter (fun it => exists_ w (s ++ [it.1]) = false) KeyFiles).*2.
Proof.
  unfold lang_warnings.
  check_cases w s g l ltac:(first [discriminate | reflexivity]).
Qed.

Lemma structure_check_warnings_witness :
  (check_project_structure minimal_tree ["src"] ["gfx"] ["lang"]).2 = Ok true
  /\ (check_project_structure minimal_tree ["src"] ["gfx"] ["lang"]).1
     = lang_warnings minimal_tree ["lang"]
       ++ (filter (fun it => exists_ minimal_tree (["src"] ++ [it.1]) = false)
                  KeyFiles).*2.
Proof.
  assert ((check_project_structure minimal_tree ["src"] ["gfx"] ["lang"]).2
          = Ok true) as Hok by (vm_compute; reflexivity).
  split; [exact Hok|].
  exact (structure_check_warnings minimal_tree ["src"] ["gfx"] ["lang"] true Hok).
Defined.

(** X3. [check_project_structure] raises for the first of four checks
    that fails, in the order source directory, graphics directory,
    [grf.pnml], [railtypes.pnml]. A missing directory is reported before
    anything is logged; a missing file is reported after the warning
    about the language directory and before any warning about the
    optional files. The two directory messages name [src] and [gfx]
    whatever paths were passed. *)
Theorem structure_check_raises (w : World) (s g l : Path)
    (log : list string) (e : exn) :
  check_project_structure w s g l = (log, Err e) <->
  (exists_ w s = false /\ log = []
   /\ e = FileNotFoundError
            (dq +:+ "src" +:+ dq +:+ " directory not found.  Aborting"))
  \/ (exists_ w s = true /\ exists_ w g = false /\ log = []
      /\ e = FileNotFoundError
               (dq +:+ "gfx" +:+ dq +:+ " directory not found.  Aborting"))
  \/ (exists_ w s = true /\ exists_ w g = true
      /\ exists_ w (s ++ ["grf.pnml"]) = false
      /\ log = lang_warnings w l
      /\ Some e = FileNotFoundError <$> dict_get KeyFiles "grf.pnml")
  \/ (exists_ w s = true /\ exists_ w g = true
      /\ exists_ w (s ++ ["grf.pnml"]) = true
      /\ exists_ w (s ++ ["railtypes.pnml"]) = false
      /\ log = lang_warnings w l
      /\ Some e = FileNotFoundError <$> dict_get KeyFiles "railtypes.pnml").
Proof.
  unfold lang_warnings.
  check_cases w s g l
    ltac:(split;
          [intros [= <- <-]; first [by left | by right; left
                                   | by right; right; left | by do 3 right]
          |intros [(? & ? & ?)|[(? & ? & ? & ?)
                  |[(? & ? & ? & ? & He)|(? & ? & ? & ? & ? & He)]]];
           try discriminate; try (injection He as ->); by subst]).
Qed.

(** What [Path.exists] answers on a project tree: true for a directory
    and for a regular file at any depth, also through [..]; false where a
    part of the path is missing or is a regular file. *)
Example exists_follows_the_path :
  exists_ small_tree ["src"] = true
  /\ exists_ small_tree ["src"; "Wagons"; "flat"] = true
  /\ exists_ small_tree ["src"; "grf.pnml"] = true
  /\ exists_ small_tree ["src"; "Wagons"; "flat"; "BR_Conflat_P.pnml"] = true
  /\ exists_ small_tree ["gfx"; ".."; "src"; "grf.pnml"] = true
  /\ exists_ small_tree [".."; "BRTrains2"; "src"] = true
  /\ exists_ small_tree ["build"] = false
  /\ exists_ small_tree ["src"; "Coaches"; "Mk1.pnml"] = false
  /\ exists_ small_tree ["src"; "grf.pnml"; "x"] = false.
Proof. split_and!; vm_compute; reflexivity. Qed.

(** ** Lookup and copy *)

(** In a tree where every entry lies in a directory, the walk along a
    plain path goes through. *)
Lemma walk_all_dirs (w : World) (cur p : Path) :
  ".." ∉ p ->
  (forall i, i < length p -> node_at w (cur ++ take i p) = Some Dir) ->
  walk w cur p = inr (cur ++ p).
Proof.
  revert cur. induction p as [|c p IH]; intros cur Hdots Hdirs.
  { by rewrite app_nil_r. }
  cbn [walk]. specialize (Hdirs 0 ltac:(simpl; lia)) as Hcur.
  rewrite take_0, app_nil_r in Hcur. rewrite Hcur.
  rewrite step_plain by (intros ->; apply Hdots; by left).
  rewrite IH.
  - by rewrite <- (assoc_L (++)).
  - intros Hin. apply Hdots. by right.
  - intros i Hi. rewrite <- (assoc_L (++)).
    apply (Hdirs (S i)). simpl. lia.
Qed.

Lemma stat_of_entry (w : World) (p : Path) (n : Node) :
  well_formed w -> p <> [] -> (p, n) ∈ entries w -> stat w p = Some n.
Proof.
  intros [Hnd Hall] Hp Hin. apply elem_of_entries in Hin.
  rewrite Forall_forall in Hall. destruct (Hall _ Hin) as [Hdots Hdirs].
  cbn [fst] in *. rewrite Forall_forall in Hdirs.
  unfold stat. rewrite walk_all_dirs.
  - rewrite node_at_below by done. by apply elem_read_fs.
  - intros Hd. apply Hdots. apply elem_of_app. by right.
  - intros i Hi.
    replace (cwd w ++ take i p) with (take (length (cwd w) + i) (cwd w ++ p))
      by by rewrite take_app_add.
    apply Hdirs. apply elem_of_seq. rewrite length_app. lia.
Qed.

(** X4. The path [find_special_file] returns is the only entry below
    the search directory whose name matches. In a tree where every entry
    lies in a directory, [copy_file] finds something at this path: when
    it is a regular file the block of the file is appended, and when it
    is a directory, which the search returns as well, opening it raises
    [IsADirectoryError]. *)
Theorem found_file_can_be_copied (w : World) (filename : string)
    (search_dir p : Path) (nml_file : string) :
  well_formed w ->
  find_special_file w filename search_dir = Ok p ->
  rglob w search_dir filename = [p]
  /\ p ∈ (entries w).*1 /\ under search_dir p = true
  /\ fnmatch filename (name p) = true
  /\ exists n, (p, n) ∈ entries w /\ stat w p = Some n
       /\ copy_file w p nml_file
          = match n with
            | File text =>
                Ok (nml_file +:+ "// " +:+ name p +:+ nl +:+ text +:+ nl +:+ nl)
            | Dir => Err (OSError EISDIR p)
            end.
Proof.
  intros Hwf Hm%find_special_file_Ok.
  assert (p ∈ rglob w search_dir filename) as Hp by (rewrite Hm; by left).
  apply rglob_elem in Hp as (Hin & Hu & Hf).
  split_and!; [done..|].
  apply list_elem_of_fmap in Hin as ([p' n] & -> & Hin). cbn [fst] in *.
  exists n. split; [done|].
  assert (p' <> []) as Hne.
  { intros ->. unfold under in Hu. simpl in Hu. discriminate Hu. }
  pose proof (stat_of_entry w p' n Hwf Hne Hin) as Hst. split; [done|].
  destruct n as [|text].
  - rewrite copy_file_None.
    + unfold copy_error, exists_. by rewrite Hst.
    + unfold read. by rewrite Hst.
  - assert (read w p' = Some text) as Hr by by apply read_Some_stat.
    rewrite (copy_file_read w p' nml_file text Hr). unfold block.
    by rewrite Hr.
Qed.

Lemma found_file_can_be_copied_witness :
  (well_formed small_tree
   /\ find_special_file small_tree "BR_Conflat_P.pnml" ["src"]
      = Ok ["src"; "Wagons"; "flat"; "BR_Conflat_P.pnml"])
  /\ copy_file small_tree ["src"; "Wagons"; "flat"; "BR_Conflat_P.pnml"] "x"
     = Ok ("x" +:+ "// " +:+ "BR_Conflat_P.pnml" +:+ nl +:+ "conflat p"
               +:+ nl +:+ nl).
Proof.
  assert (well_formed small_tree) as Hwf
    by (apply (bool_decide_unpack _); vm_compute; reflexivity).
  assert (find_special_file small_tree "BR_Conflat_P.pnml" ["src"]
          = Ok ["src"; "Wagons"; "flat"; "BR_Conflat_P.pnml"]) as Hf
    by (vm_compute; reflexivity).
  split; [by split|].
  destruct (found_file_can_be_copied small_tree _ _ _ "x" Hwf Hf)
    as (_ & _ & _ & _ & n & _ & Hst & Hc).
  vm_compute in Hst. injection Hst as <-. exact Hc.
Defined.

(** A directory named like a follower is found by the search, and the
    copy raises. *)
Example found_directory_cannot_be_copied :
  find_special_file lonely_tender_dir_tree "LNER_Tenders.pnml" ["src"]
  = Ok ["src"; "Tenders"; "LNER_Tenders.pnml"]
  /\ copy_file lonely_tender_dir_tree ["src"; "Tenders"; "LNER_Tenders.pnml"] ""
     = Err (OSError EISDIR ["src"; "Tenders"; "LNER_Tenders.pnml"]).
Proof. split; vm_compute; reflexivity. Qed.

(** X5. Copying a list of files, as the loops of lines 238-239 and
    318-320 do, appends the block of every file in order when all of them
    can be read; otherwise it raises for the first one that cannot,
    whatever comes after it: [FileNotFoundError] with that path in the
    message when nothing is there, [IsADirectoryError] when it is a
    directory. *)
Theorem copy_all_or_first_missing (w : World) (src_directory : Path)
    (keys : list string) (chain : list Path) (nml_file : string) :
  copy_chain w chain nml_file
  = match first_missing w chain with
    | None => Ok (nml_file +:+ render w chain)
    | Some p => Err (copy_error w p)
    end
  /\ copy_key_files w src_directory keys nml_file
     = match first_missing w ((fun k => src_directory ++ [k]) <$> keys) with
       | None => Ok (nml_file
                     +:+ render w ((fun k => src_directory ++ [k]) <$> keys))
       | Some p => Err (copy_error w p)
       end.
Proof.
  assert (forall l nml,
    copy_chain w l nml
    = match first_missing w l with
      | None => Ok (nml +:+ render w l)
      | Some p => Err (copy_error w p)
      end) as Hchain.
  { induction l as [|p l IH]; intros nml; simpl.
    - by rewrite app_empty_r.
    - destruct (read w p) as [t|] eqn:Hr.
      + rewrite (copy_file_read w p nml t Hr). simpl. rewrite IH.
        destruct (first_missing w l); [done|]. by rewrite app_assoc_s.
      + by rewrite (copy_file_None w p nml Hr). }
  split; [apply Hchain|]. rewrite copy_key_files_chain. apply Hchain.
Qed.

(** ** The writer *)

(** A walk that goes through on one file system goes through on every
    file system that has at least its directories. *)
Lemma walk_mono (w w' : World) (cur p q : Path) :
  (forall x, node_at w x = Some Dir -> node_at w' x = Some Dir) ->
  walk w cur p = inr q -> walk w' cur p = inr q.
Proof.
  intros Hdirs. revert cur. induction p as [|c p IH]; intros cur; cbn [walk];
    [done|].
  destruct (node_at w cur) as [[|t]|] eqn:Hn; [|done..].
  rewrite (Hdirs _ Hn). apply IH.
Qed.

Lemma write_file_dirs (n buf : string) (w : World) (x : Path) :
  node_at w x = Some Dir -> node_at (write_file n buf w).1 x = Some Dir.
Proof.
  intros Hx.
  destruct (write_file_node_at n buf w x) as [->|[(_ & ? & _)|(_ & ? & _)]];
    [done|congruence|done].
Qed.

(** A file that can be read, and whose name does not end in [.nml], reads
    the same after [write_file]. *)
Lemma read_write_file_frame (n buf : string) (w : World) (p : Path) (t : string) :
  read w p = Some t -> name p <> ".." -> ends_with ".nml" (name p) = false ->
  read (write_file n buf w).1 p = Some t.
Proof.
  intros Hr Hdots Hnml. apply read_Some_stat in Hr. apply read_Some_stat.
  unfold stat in *. rewrite write_file_cwd.
  destruct p as [|c0 p0] using rev_ind.
  { cbn [walk] in Hr. by rewrite node_at_cwd in Hr. }
  clear IHp0. rewrite name_app in Hdots, Hnml by done.
  change (name [c0]) with c0 in *.
  destruct (walk w (cwd w) (p0 ++ [c0])) as [e|q] eqn:Hw; [done|].
  rewrite (walk_mono w _ _ _ q (write_file_dirs n buf w) Hw).
  destruct (walk_snoc w _ _ _ _ Hdots Hw) as (q' & -> & _ & _).
  destruct (write_file_node_at n buf w (q' ++ [c0]))
    as [->|[(_ & Hnone & _)|(Hend & _)]]; [done|congruence|].
  rewrite name_app in Hend by done. change (name [c0]) with c0 in Hend.
  congruence.
Qed.




(** X7. Writing the artifact a second time replaces the first text and
    changes nothing else: the last write wins, whether the first write
    returned or raised, and nothing is made twice. *)
Theorem write_file_last_wins (w : World) (n buf1 buf2 : string) :
  write_file n buf2 (write_file n buf1 w).1 = write_file n buf2 w.
Proof. apply write_file_again. Qed.

(** X9. [write_file] changes nothing the scan finds or reads, whatever
    the name of the artifact is, a name that leads below [src] included:
    every search of the scan below [src] finds the same paths in the
    same order, every file that could be read and whose name does not
    end in [.nml] reads as before, and so does every plain path that
    does not start in [build]. *)
Theorem write_file_keeps_sources (w : World) (n buf : string) :
  (forall pat, scan_pattern pat ->
     rglob (write_file n buf w).1 ["src"] pat = rglob w ["src"] pat)
  /\ (forall p t, read w p = Some t -> name p <> ".." ->
        ends_with ".nml" (name p) = false ->
        read (write_file n buf w).1 p = Some t)
  /\ (forall p, ".." ∉ p -> p <> [] -> head p <> Some "build" ->
        ends_with ".nml" (name p) = false ->
        stat (write_file n buf w).1 p = stat w p).
Proof.
  split_and!.
  - intros pat Hpat. by apply rglob_write_file.
  - intros p t. apply read_write_file_frame.
  - intros p. apply stat_write_file.
Qed.

(** With the name [../src/x] the artifact is written below [src]; the
    fragments of the tree are found and read as before. *)
Example artifact_below_src :
  let w := (write_file "../src/x" "text" complete_tree).1 in
  (write_file "../src/x" "text" complete_tree).2 = Ok ()
  /\ read w ["src"; "x.nml"] = Some "text"
  /\ rglob w ["src"] "*.pnml" = rglob complete_tree ["src"] "*.pnml"
  /\ assemble w ["src"] = assemble complete_tree ["src"].
Proof. split_and!; vm_compute; reflexivity. Qed.

(** ** When a run returns *)



(** ** What the output holds *)

(** X11. Every block of the artifact is the text of a [.pnml] file that
    is in the tree below [src]: the run emits nothing from elsewhere and
    nothing that is not a fragment. *)
Theorem emitted_files_come_from_tree (a : Args) (w : World) :
  outcome (main a w) = Ok () ->
  exists sc,
    scanned w = Ok sc
    /\ read (world (main a w)) (artifact (grf_name a))
       = Some (render w (emission ["src"] sc))
    /\ forall p, p ∈ emission ["src"] sc ->
         p ∈ rglob w ["src"] "*.pnml" /\ is_Some (read w p).
Proof.
  intros (sc & Hsc & Hread & Hart)%main_emission.
  exists sc. split_and!; [done..|].
  intros p Hp. split; [|by eapply Forall_forall in Hread].
  pose proof Hp as [Hk|Hg]%elem_of_app; [|by eapply groups_from_tree].
  eapply Forall_forall in Hread; [|exact Hp]. destruct Hread as [t Ht].
  apply read_Some_stat in Ht.
  unfold key_paths in Hk. apply list_elem_of_fmap in Hk as (k & -> & Hk).
  assert (k <> "..") as Hdots.
  { intros ->. apply (bool_decide_pack _) in Hk. by vm_compute in Hk. }
  apply rglob_elem. split_and!; [|done|by apply key_is_pnml].
  apply (stat_entry w _ (File t)); [|done|done].
  intros [?|[?|?%elem_of_nil]%elem_of_cons]%elem_of_cons; done.
Qed.

Lemma emitted_files_come_from_tree_witness :
  outcome (main default_args small_tree) = Ok ()
  /\ exists sc,
       scanned small_tree = Ok sc
       /\ forall p, p ∈ emission ["src"] sc ->
            p ∈ rglob small_tree ["src"] "*.pnml" /\ is_Some (read small_tree p).
Proof.
  assert (outcome (main default_args small_tree) = Ok ()) as Hok
    by (vm_compute; reflexivity).
  split; [exact Hok|].
  destruct (emitted_files_come_from_tree default_args small_tree Hok)
    as (sc & Hsc & _ & Hall).
  exists sc. split; [exact Hsc|exact Hall].
Defined.

(** X12. A run that returns drops only two kinds of fragment: the
    [Tenders] files outside [priority] and [append] directories, which
    are emitted only through a match or a chain, and files named like a
    required fragment in an ordinary subdirectory. Every other [.pnml]
    file below [src] is in the output, chain followers included. *)
Theorem fragments_covered (a : Args) (w : World) :
  outcome (main a w) = Ok () ->
  exists sc,
    scanned w = Ok sc
    /\ forall f, f ∈ rglob w ["src"] "*.pnml" ->
         f ∈ emission ["src"] sc
         \/ classify ["src"] f = CTender
         \/ (classify ["src"] f = COther /\ in_KeyFiles (name f) = true).
Proof.
  intros (sc & Hsc & _ & _)%main_emission. exists sc. split; [done|].
  intros f Hf.
  assert (forall g, g ∈ groups sc -> f ∈ blocks_of g -> f ∈ emission ["src"] sc)
    as Hemit.
  { intros g Hg Hb. unfold emission. apply elem_of_app. right.
    apply elem_of_flat_map. by exists g. }
  destruct (decide (name f ∈ in_chain sc)) as [Hm|Hm].
  { (* a follower of a trigger of the tree: emitted by the chain *)
    left. rewrite (scanned_in_chain w sc Hsc) in Hm.
    unfold marked in Hm. rewrite elem_of_list_to_set, elem_of_flat_map in Hm.
    destruct Hm as (T & HT & HF). unfold chain_of in HF.
    destruct (dict_get SpecialOrderFiles (name T)) as [chain|] eqn:Hg;
      simpl in HF; [|by apply elem_of_nil in HF].
    destruct (scanned_chain w sc T chain Hsc HT Hg) as (l & Hl & Hres).
    assert (is_trigger (name T) = true) as Ht
      by (unfold is_trigger; by rewrite Hg).
    pose proof HF as HF'. apply list_elem_of_lookup in HF' as [i Hi].
    destruct (Forall2_lookup_l _ _ _ _ _ Hres Hi) as (p & Hpl & Hp).
    assert (f ∈ rglob w ["src"] (name f)) as Hin.
    { rewrite rglob_literal by by eapply chain_in_followers.
      apply rglob_elem in Hf as (? & ? & _). apply list_elem_of_filter.
      by split. }
    rewrite Hp in Hin. apply list_elem_of_singleton in Hin as ->.
    destruct (trigger_visited w sc T Hsc HT Ht) as [Hv Hnot].
    apply list_elem_of_split in Hv as (pre & post & Hv).
    apply (Hemit (group_of sc (pending_end sc pre (tender_files sc)) T)).
    - unfold groups. rewrite Hv, plan_split by done.
      apply elem_of_app. right. by left.
    - unfold blocks_of. cbn [companion primary chained group_of].
      rewrite Ht, Hl. apply elem_of_app. right. right.
      by eapply list_elem_of_lookup_2. }
  destruct (classify ["src"] f) eqn:Hc; [| | |by right; left|].
  - destruct (in_KeyFiles (name f)) eqn:Hk.
    + left. unfold emission. apply elem_of_app. left.
      apply rglob_elem in Hf as (_ & Hu & _).
      rewrite (top_level_path f Hu Hc). unfold key_paths.
      apply list_elem_of_fmap. exists (name f). split; [done|].
      by apply bool_decide_eq_true in Hk.
    + left.
      assert (f ∈ primary <$> groups sc) as (g & -> & Hg)%list_elem_of_fmap.
      { apply (primaries_unmarked w sc f Hsc). split_and!; [done..|].
        left. by split. }
      apply (Hemit g Hg). unfold blocks_of. apply elem_of_app. right. by left.
  - left.
    assert (f ∈ primary <$> groups sc) as (g & -> & Hg)%list_elem_of_fmap.
    { apply (primaries_unmarked w sc f Hsc). split_and!; [done..|]. by right; left. }
    apply (Hemit g Hg). unfold blocks_of. apply elem_of_app. right. by left.
  - left.
    assert (f ∈ primary <$> groups sc) as (g & -> & Hg)%list_elem_of_fmap.
    { apply (primaries_unmarked w sc f Hsc). split_and!; [done..|]. by do 3 right. }
    apply (Hemit g Hg). unfold blocks_of. apply elem_of_app. right. by left.
  - destruct (in_KeyFiles (name f)) eqn:Hk; [by right; right|]. left.
    assert (f ∈ primary <$> groups sc) as (g & -> & Hg)%list_elem_of_fmap.
    { apply (primaries_unmarked w sc f Hsc). split_and!; [done..|].
      right; right; left. by split. }
    apply (Hemit g Hg). unfold blocks_of. apply elem_of_app. right. by left.
Qed.

Lemma fragments_covered_witness :
  outcome (main default_args small_tree) = Ok ()
  /\ exists sc,
       scanned small_tree = Ok sc
       /\ forall f, f ∈ rglob small_tree ["src"] "*.pnml" ->
            f ∈ emission ["src"] sc
            \/ classify ["src"] f = CTender
            \/ (classify ["src"] f = COther /\ in_KeyFiles (name f) = true).
Proof.
  assert (outcome (main default_args small_tree) = Ok ()) as Hok
    by (vm_compute; reflexivity).
  split; [exact Hok|].
  exact (fragments_covered default_args small_tree Hok).
Defined.

(** X13. On a file system, where no path is listed twice, a run that
    returns copies every file that is neither marked as a chain follower
    nor a [Tenders] file of an ordinary subdirectory exactly once: an
    emitted file of this kind has one block in the artifact. *)
Theorem ordinary_fragment_emitted_once (a : Args) (w : World) :
  NoDup (tree w).*1 ->
  outcome (main a w) = Ok () ->
  exists sc,
    scanned w = Ok sc
    /\ forall f, f ∈ emission ["src"] sc ->
         name f ∉ in_chain sc -> classify ["src"] f <> CTender ->
         occurrences f (emission ["src"] sc) = 1.
Proof.
  intros Hnd (sc & Hsc & _ & _)%main_emission. exists sc. split; [done|].
  intros f Hf Hm Hc.
  assert (occurrences f (flat_map blocks_of (groups sc))
          = occurrences f (primary <$> groups sc)) as Hgroups.
  { apply occurrences_blocks. intros g Hg. split.
    - intros Hcomp.
      destruct (plan_companion sc _ _ g f Hg Hcomp) as (_ & Htf & _).
      by destruct (scanned_tender w sc _ f Hsc Htf) as (_ & ? & _).
    - intros Hch. destruct (plan_chained sc _ _ g Hg) as (_ & _ & Heq).
      rewrite Heq in Hch. destruct (is_trigger (name (primary g)));
        [|by apply elem_of_nil in Hch].
      destruct (special_files sc !! name (primary g)) as [l|] eqn:Hl;
        simpl in Hch; [|by apply elem_of_nil in Hch].
      apply Hm. by eapply scanned_chain_names. }
  unfold emission in *. rewrite occurrences_app, Hgroups.
  destruct (decide (f ∈ key_paths ["src"])) as [Hk|Hk].
  - rewrite (occurrences_NoDup f (key_paths ["src"])) by (done || apply key_paths_NoDup).
    rewrite occurrences_notin; [done|].
    intros (_ & _ & Hcl)%(primaries_unmarked w sc f Hsc).
    pose proof (key_paths_class f Hk) as Htop.
    assert (in_KeyFiles (name f) = true) as Hkey.
    { unfold key_paths in Hk. apply list_elem_of_fmap in Hk as (k & -> & Hk).
      apply bool_decide_eq_true. exact Hk. }
    unfold top_file, normal_file in Hcl. naive_solver congruence.
  - rewrite (occurrences_notin f (key_paths ["src"])) by done.
    apply occurrences_NoDup; [by apply (primaries_NoDup w)|].
    apply elem_of_app in Hf as [Hf|Hf]; [done|].
    apply elem_of_flat_map in Hf as (g & Hg & Hb).
    assert (occurrences f (blocks_of g) <> 0) as Hpos.
    { intros H0. unfold occurrences in H0. apply length_zero_iff_nil in H0.
      assert (f ∈ filter (fun p => p = f) (blocks_of g)) as Hin
        by by apply list_elem_of_filter.
      rewrite H0 in Hin. by apply elem_of_nil in Hin. }
    unfold blocks_of in Hb.
    rewrite elem_of_app, elem_of_cons in Hb.
    destruct Hb as [Hb|[->|Hb]].
    + exfalso. destruct (companion g) as [c|] eqn:Hcomp; [|by apply elem_of_nil in Hb].
      apply list_elem_of_singleton in Hb as ->.
      destruct (plan_companion sc _ _ g c Hg Hcomp) as (_ & Htf & _).
      by destruct (scanned_tender w sc _ c Hsc Htf) as (_ & ? & _).
    + apply list_elem_of_fmap. by exists g.
    + exfalso. destruct (plan_chained sc _ _ g Hg) as (_ & _ & Heq).
      rewrite Heq in Hb. destruct (is_trigger (name (primary g)));
        [|by apply elem_of_nil in Hb].
      destruct (special_files sc !! name (primary g)) as [l|] eqn:Hl;
        simpl in Hb; [|by apply elem_of_nil in Hb].
      apply Hm. by eapply scanned_chain_names.
Qed.

Lemma ordinary_fragment_emitted_once_witness :
  NoDup (tree small_tree).*1
  /\ outcome (main default_args small_tree) = Ok ()
  /\ exists sc,
       scanned small_tree = Ok sc
       /\ forall f, f ∈ emission ["src"] sc ->
            name f ∉ in_chain sc -> classify ["src"] f <> CTender ->
            occurrences f (emission ["src"] sc) = 1.
Proof.
  assert (NoDup (tree small_tree).*1) as Hnd
    by (apply (bool_decide_unpack _); vm_compute; reflexivity).
  assert (outcome (main default_args small_tree) = Ok ()) as Hok
    by (vm_compute; reflexivity).
  split; [exact Hnd|]. split; [exact Hok|].
  exact (ordinary_fragment_emitted_once default_args small_tree Hnd Hok).
Defined.

(** ** What a run depends on *)

(** X14. Up to the writer a run reads nothing but the source tree. On
    two file systems that agree on the existence of [src], [gfx] and
    [lang], on what the searches of the scan find below [src] and on
    what is at the required files and at the fragments found, the run
    logs the same warnings, the validator ends the same way and the
    aggregation gives the same buffer or raises the same exception. The
    runs end the same way if the writer does, and when both return the
    artifacts hold the same text. *)
Theorem run_reads_sources_only (a : Args) (w1 w2 : World) :
  exists_ w1 ["src"] = exists_ w2 ["src"] ->
  exists_ w1 ["gfx"] = exists_ w2 ["gfx"] ->
  exists_ w1 ["lang"] = exists_ w2 ["lang"] ->
  (forall pat, scan_pattern pat -> rglob w1 ["src"] pat = rglob w2 ["src"] pat) ->
  (forall p, p ∈ key_paths ["src"] \/ p ∈ rglob w2 ["src"] "*.pnml" ->
             stat w1 p = stat w2 p) ->
  logged (main a w1) = logged (main a w2)
  /\ check_project_structure w1 ["src"] ["gfx"] ["lang"]
     = check_project_structure w2 ["src"] ["gfx"] ["lang"]
  /\ assemble w1 ["src"] = assemble w2 ["src"]
  /\ ((forall buf, (write_file (grf_name a) buf w1).2
                   = (write_file (grf_name a) buf w2).2) ->
      outcome (main a w1) = outcome (main a w2))
  /\ (outcome (main a w1) = Ok () -> outcome (main a w2) = Ok () ->
      read (world (main a w1)) (artifact (grf_name a))
      = read (world (main a w2)) (artifact (grf_name a))).
Proof.
  intros Hs Hg Hl Hglob Hstat.
  assert (check_project_structure w1 ["src"] ["gfx"] ["lang"]
          = check_project_structure w2 ["src"] ["gfx"] ["lang"]) as Hcheck.
  { apply check_project_structure_ext; [done..|].
    intros k Hk. unfold exists_. rewrite Hstat; [done|]. left.
    unfold key_paths. apply list_elem_of_fmap. by exists k. }
  pose proof (assemble_agree w1 w2 Hglob Hstat) as Hasm.
  rewrite (main_eq a w1), (main_eq a w2), Hcheck, Hasm.
  destruct (check_project_structure w2 ["src"] ["gfx"] ["lang"]) as [log [hl|e]];
    [|done].
  destruct (assemble w2 ["src"]) as [buf|e]; [|done].
  cbn [logged outcome world]. split_and!; [done..| |].
  - intros Hwr. apply Hwr.
  - intros H1 H2. by rewrite !write_file_Ok_read.
Qed.

Lemma run_reads_sources_only_witness :
  (exists_ small_tree ["src"] = exists_ small_tree_after ["src"]
   /\ exists_ small_tree ["gfx"] = exists_ small_tree_after ["gfx"]
   /\ exists_ small_tree ["lang"] = exists_ small_tree_after ["lang"]
   /\ (forall pat, scan_pattern pat ->
         rglob small_tree ["src"] pat = rglob small_tree_after ["src"] pat)
   /\ (forall p, p ∈ key_paths ["src"]
                 \/ p ∈ rglob small_tree_after ["src"] "*.pnml" ->
                 stat small_tree p = stat small_tree_after p))
  /\ read small_tree_after ["build"; "old.nml"] = Some "text"
  /\ logged (main default_args small_tree)
     = logged (main default_args small_tree_after)
  /\ assemble small_tree ["src"] = assemble small_tree_after ["src"].
Proof.
  assert (forall pat, scan_pattern pat ->
            rglob small_tree ["src"] pat = rglob small_tree_after ["src"] pat)
    as Hglob.
  { intros pat Hpat. symmetry. by apply rglob_write_file. }
  assert (forall p, p ∈ key_paths ["src"]
                    \/ p ∈ rglob small_tree_after ["src"] "*.pnml" ->
                    stat small_tree p = stat small_tree_after p) as Hstat.
  { intros p Hp. rewrite <- Hglob in Hp by by left.
    apply elem_of_app in Hp.
    assert (Forall (fun p : Path =>
                      (".." ∉ p) /\ p <> [] /\ head p <> Some "build"
                      /\ ends_with ".nml" (name p) = false)
                   (key_paths ["src"] ++ rglob small_tree ["src"] "*.pnml"))
      as Hall.
    { apply (bool_decide_unpack _). vm_compute. reflexivity. }
    rewrite Forall_forall in Hall. destruct (Hall p Hp) as (? & ? & ? & ?).
    symmetry. by apply stat_write_file. }
  assert (exists_ small_tree ["src"] = exists_ small_tree_after ["src"]) as Hs
    by (vm_compute; reflexivity).
  assert (exists_ small_tree ["gfx"] = exists_ small_tree_after ["gfx"]) as Hg
    by (vm_compute; reflexivity).
  assert (exists_ small_tree ["lang"] = exists_ small_tree_after ["lang"]) as Hl
    by (vm_compute; reflexivity).
  split; [by split_and!|].
  split; [vm_compute; reflexivity|].
  destruct (run_reads_sources_only default_args small_tree small_tree_after
              Hs Hg Hl Hglob Hstat) as (Hlog & _ & Hasm & _).
  split; [exact Hlog|exact Hasm].
Defined.

(** X15. Running the script again on the file system a run has left
    changes nothing: the second run logs the same warnings, ends the same
    way and leaves the same directories and files, the artifact with the
    same text at the same place among them. *)
Theorem rerun_changes_nothing (a : Args) (w : World) :
  main a (world (main a w)) = main a w.
Proof.
  destruct (main_cases a w) as [(_ & -> & _)|(buf & [b Hb] & Hbuf & Ho & Hw)];
    [done|].
  rewrite Hw.
  set (w' := (write_file (grf_name a) buf w).1).
  assert (forall p, p ∈ key_paths ["src"] ->
            (".." ∉ p) /\ p <> [] /\ head p <> Some "build"
            /\ ends_with ".nml" (name p) = false) as Hkeys.
  { assert (Forall (fun p : Path =>
                      (".." ∉ p) /\ p <> [] /\ head p <> Some "build"
                      /\ ends_with ".nml" (name p) = false)
                   (key_paths ["src"])) as Hall.
    { apply (bool_decide_unpack _). vm_compute. reflexivity. }
    intros p Hp. rewrite Forall_forall in Hall. by apply Hall. }
  assert (check_project_structure w' ["src"] ["gfx"] ["lang"]
          = check_project_structure w ["src"] ["gfx"] ["lang"]) as Hcheck.
  { apply check_project_structure_ext.
    - unfold exists_, w'.
      rewrite stat_write_file; [done|..]; apply (bool_decide_unpack _); by vm_compute.
    - unfold exists_, w'.
      rewrite stat_write_file; [done|..]; apply (bool_decide_unpack _); by vm_compute.
    - unfold exists_, w'.
      rewrite stat_write_file; [done|..]; apply (bool_decide_unpack _); by vm_compute.
    - intros k Hk. unfold exists_, w'.
      destruct (Hkeys (["src"] ++ [k])) as (? & ? & ? & ?).
      { unfold key_paths. apply list_elem_of_fmap. by exists k. }
      by rewrite stat_write_file. }
  assert (assemble w' ["src"] = Ok buf) as Hbuf'.
  { apply (assemble_transfer w w'); [| |done].
    - intros pat Hpat. symmetry. by apply rglob_write_file.
    - intros p t Hp Hr. apply read_write_file_frame; [done| |].
      + destruct Hp as [Hp|Hp].
        * destruct (Hkeys p Hp) as (Hd & Hne & _).
          intros Hn. apply Hd. rewrite <- Hn.
          destruct p as [|c p] using rev_ind; [done|].
          rewrite name_app by done. apply elem_of_app. right. by left.
        * apply rglob_elem in Hp as (_ & _ & Hm). intros Hn.
          rewrite Hn in Hm. by vm_compute in Hm.
      + destruct Hp as [Hp|Hp].
        * by destruct (Hkeys p Hp) as (_ & _ & _ & ?).
        * apply rglob_elem in Hp as (_ & _ & Hm).
          destruct (ends_with ".nml" (name p)) eqn:Hend; [|done].
          rewrite scan_pattern_nml in Hm; [done|by left|done]. }
  rewrite (main_eq a w'), (main_eq a w), Hcheck, Hbuf', Hbuf.
  destruct (check_project_structure w ["src"] ["gfx"] ["lang"]) as [log [hl|e]];
    [|by cbn [snd] in Hb].
  unfold w'. by rewrite write_file_again.
Qed.

(** ** The prompt of [run_game] *)

Lemma substring_whole (n : nat) (s : string) :
  String.length s <= n -> String.substring 0 n s = s.
Proof.
  revert n. induction s as [|c s IH]; intros n Hn.
  - by destruct n.
  - destruct n as [|n]; simpl in *; [lia|]. rewrite IH; [done|lia].
Qed.

Lemma newgrf_answer_eq (answer : string) :
  newgrf_answer answer
  = if String.eqb answer "newgrf" then "newgrf" else "~/.openttd/newgrf".
Proof.
  unfold newgrf_answer, slice_last.
  destruct (6 <? String.length answer) eqn:Hlen.
  - apply Nat.ltb_lt in Hlen.
    destruct (String.eqb_spec answer "newgrf") as [->|_]; [|done].
    simpl in Hlen. lia.
  - apply Nat.ltb_ge in Hlen.
    replace (String.length answer - 6) with 0 by lia.
    rewrite substring_whole by done.
    by destruct (String.eqb_spec answer "newgrf") as [->|_].
Qed.

(** X16. The prompt of [run_game] keeps an answer only if it is the
    word [newgrf] itself; every other answer, a full path to a newgrf
    directory included, is replaced by [~/.openttd/newgrf]. The loop ends
    at the first directory it holds that exists: the one it started with,
    or what it kept of the first answer that leads to an existing
    directory, the later answers being left unread. It waits for ever
    only when neither the start nor any answer leads to one. *)
Theorem newgrf_prompt_result (path_exists : string -> bool)
    (answers : list string) (newgrf_dir : string) :
  (forall answer,
     newgrf_answer answer
     = if String.eqb answer "newgrf" then "newgrf" else "~/.openttd/newgrf")
  /\ match prompt_newgrf_dir path_exists answers newgrf_dir with
     | Some (d, rest) =>
         path_exists d = true
         /\ ((path_exists newgrf_dir = true /\ d = newgrf_dir /\ rest = answers)
             \/ (path_exists newgrf_dir = false
                 /\ exists pre answer,
                      answers = pre ++ answer :: rest
                      /\ d = newgrf_answer answer
                      /\ Forall (fun b => path_exists (newgrf_answer b) = false) pre))
     | None =>
         path_exists newgrf_dir = false
         /\ Forall (fun b => path_exists (newgrf_answer b) = false) answers
     end.
Proof.
  split; [apply newgrf_answer_eq|].
  revert newgrf_dir. induction answers as [|a answers IH]; intros d0; simpl.
  - destruct (path_exists d0) eqn:Hd; [|done]. split; [done|]. by left.
  - destruct (path_exists d0) eqn:Hd.
    { split; [done|]. by left. }
    specialize (IH (newgrf_answer a)).
    destruct (prompt_newgrf_dir path_exists answers (newgrf_answer a))
      as [[d rest]|].
    + destruct IH as [Hex [(Ha & -> & ->)|(Ha & pre & b & -> & -> & Hpre)]].
      * split; [done|]. right. split; [done|]. by exists [], a.
      * split; [done|]. right. split; [done|]. exists (a :: pre), b.
        split_and!; [done..|]. by constructor.
    + destruct IH as [Ha Hall]. split; [done|]. by constructor.
Qed.

(** ** The exceptions of a run *)







(** The exceptions of the copy and of the writer on example trees. *)
Example run_raises_examples :
  outcome (main default_args lonely_tender_dir_tree) = Ok ()
  /\ outcome (main (mkArgs "out/brtrains" "src" "lang" "gfx" false false)
                  complete_tree)
     = Err (OSError ENOENT ["build"; "out"; "brtrains.nml"])
  /\ outcome (main default_args (limited 10 complete_tree))
     = Err (OSError EFBIG ["build"; "brtrains.nml"])
  /\ main default_args fragment_dir_tree
     = mkRun [] (Err (OSError EISDIR ["src"; "Wagons"; "BR_Van.pnml"]))
             fragment_dir_tree.
Proof. split_and!; vm_compute; reflexivity. Qed.

